(** * Kaiten replication engine: a shallow embedding and its properties

    The development follows [migration/kaiten_migration.py] (classes
    [KaitenAPI] and [KaitenMigration]) and the rate governor of
    [migration/kaiten_dsl_engine.py].

    Modelling choices.
    - Python values that travel on the wire are JSON values ([value]); a
      number is an integer, a [str] is a [string] with one character per
      code point.
    - Wall-clock time ([time.time()], [time.sleep]) is a rational number of
      seconds.
    - The outside world (clock, HTTP transport, the builtin [int]) is an
      interface, [Environment]; the program threads it explicitly.
    - A Python exception is the result [Raise]; an attribute mutated by a
      method is a field of the state threaded by the monad [M].
    - The two unbounded constructs of the source ([while True] in
      [get_paginated], the retry recursion in [_request]) take a fuel
      argument; [OutOfFuel] stands for a computation that has not returned.
    - Calls of [logger] have no effect on the state and are left out.
    - The [trace] lists, oldest first, the calls of [requests.request] and
      [time.sleep] and the writes to [self.stats]. *)

From Stdlib Require Import ZArith QArith Lqa List Sorted String Ascii Bool Lia.
Import ListNotations.

Set Warnings "-register-all".

Local Open Scope string_scope.
Local Open Scope list_scope.
Local Open Scope Z_scope.

(** ** Python values *)

Inductive value : Type :=
| VNone
| VBool (b : bool)
| VInt (z : Z)
| VStr (s : string)
| VList (l : list value)
| VDict (d : list (string * value)).

Definition pydict := list (string * value).

Inductive exn : Type :=
| KeyError | TypeError | AttributeError | ValueError | IndexError
| HTTPError | RequestException.

Inductive res (A : Type) : Type :=
| Ok (a : A)
| Raise (e : exn)
| OutOfFuel.
Arguments Ok {A} a.
Arguments Raise {A} e.
Arguments OutOfFuel {A}.

(** [bool(v)] *)
Definition truthy (v : value) : bool :=
  match v with
  | VNone => false
  | VBool b => b
  | VInt z => negb (z =? 0)
  | VStr s => negb (s =? "")%string
  | VList l => match l with [] => false | _ => true end
  | VDict d => match d with [] => false | _ => true end
  end.

Fixpoint dict_get (k : string) (d : pydict) : option value :=
  match d with
  | [] => None
  | (k', v) :: d' => if (k =? k')%string then Some v else dict_get k d'
  end.

(** [d[k] = v] on a dict with [str] keys: an existing key keeps its place. *)
Fixpoint dict_set (k : string) (v : value) (d : pydict) : pydict :=
  match d with
  | [] => [(k, v)]
  | (k', v') :: d' =>
      if (k =? k')%string then (k', v) :: d' else (k', v') :: dict_set k v d'
  end.

(** [needle in hay] for two [str] *)
Fixpoint str_contains (needle hay : string) : bool :=
  String.prefix needle hay
  || match hay with
     | EmptyString => false
     | String _ hay' => str_contains needle hay'
     end.

(** [split('_')[1]] of a key that starts with ['id_']: the text between the
    first and the second underscore. *)
Fixpoint upto_underscore (s : string) : string :=
  match s with
  | EmptyString => EmptyString
  | String c s' => if Ascii.eqb c "_"%char then EmptyString
                   else String c (upto_underscore s')
  end.

Fixpoint after_underscore (s : string) : string :=
  match s with
  | EmptyString => EmptyString
  | String c s' => if Ascii.eqb c "_"%char then s' else after_underscore s'
  end.

Definition split_underscore_1 (s : string) : string :=
  upto_underscore (after_underscore s).

(** [v.get(k)]: [None] when the key is absent; only a dict has [get]. *)
Definition py_get (v : value) (k : string) : res value :=
  match v with
  | VDict d => Ok (match dict_get k d with Some x => x | None => VNone end)
  | _ => Raise AttributeError
  end.

(** [v.get(k, default)] *)
Definition py_get_default {A} (inj : value -> A) (v : value) (k : string)
    (default : A) : res A :=
  match v with
  | VDict d => Ok (match dict_get k d with Some x => inj x | None => default end)
  | _ => Raise AttributeError
  end.

(** [v[k]] with a [str] subscript *)
Definition py_index (v : value) (k : string) : res value :=
  match v with
  | VDict d => match dict_get k d with Some x => Ok x | None => Raise KeyError end
  | _ => Raise TypeError
  end.

(** [k in v] with a [str] on the left *)
Definition py_contains (k : string) (v : value) : res bool :=
  match v with
  | VDict d => Ok (match dict_get k d with Some _ => true | None => false end)
  | VList l =>
      Ok (existsb (fun x => match x with VStr s => (s =? k)%string | _ => false end) l)
  | VStr s => Ok (str_contains k s)
  | _ => Raise TypeError
  end.

(** The elements [for x in v] visits, as [list.extend(v)] consumes them. *)
Definition py_iter (v : value) : res (list value) :=
  match v with
  | VList l => Ok l
  | VDict d => Ok (map (fun kv => VStr (fst kv)) d)
  | VStr s => Ok (map (fun c => VStr (String c EmptyString)) (list_ascii_of_string s))
  | _ => Raise TypeError
  end.

(** [len(v)] *)
Definition py_len (v : value) : res Z :=
  match v with
  | VList l => Ok (Z.of_nat (List.length l))
  | VDict d => Ok (Z.of_nat (List.length d))
  | VStr s => Ok (Z.of_nat (String.length s))
  | _ => Raise TypeError
  end.

(** *** Dicts keyed by values (the tables of [id_map]) *)

Definition hashable (v : value) : bool :=
  match v with
  | VList _ | VDict _ => false
  | _ => true
  end.

(** [==] on hashable values: [True == 1] and [False == 0]. *)
Definition key_eqb (a b : value) : bool :=
  match a, b with
  | VNone, VNone => true
  | VBool x, VBool y => Bool.eqb x y
  | VBool x, VInt z | VInt z, VBool x => z =? Z.b2z x
  | VInt x, VInt y => x =? y
  | VStr x, VStr y => (x =? y)%string
  | _, _ => false
  end.

Definition table := list (value * value).

Fixpoint table_find (k : value) (t : table) : option value :=
  match t with
  | [] => None
  | (k', v) :: t' => if key_eqb k k' then Some v else table_find k t'
  end.

(** [t.get(k)] *)
Definition table_get (k : value) (t : table) : res value :=
  if hashable k
  then Ok (match table_find k t with Some v => v | None => VNone end)
  else Raise TypeError.

Fixpoint table_put (k v : value) (t : table) : table :=
  match t with
  | [] => [(k, v)]
  | (k', v') :: t' =>
      if key_eqb k k' then (k', v) :: t' else (k', v') :: table_put k v t'
  end.

(** [t[k] = v] *)
Definition table_set (k v : value) (t : table) : res table :=
  if hashable k then Ok (table_put k v t) else Raise TypeError.

(** ** What the program sends *)

(** A request body is built from literals, from values copied out of fetched
    records and from f-strings, which are kept as their parts. *)
Inductive out : Type :=
| OV (v : value)
| OF (prefix : string) (arg : value)        (* f"{prefix}{arg}" *)
| OD (fields : list (string * out))         (* a dict display with literal keys *)
| OProps (items : list (value * value)).    (* new_properties[f'id_{k}'] = v, in order *)

Inductive endpoint : Type :=
| EP (path : string)
| EPf (pre : string) (arg : value) (post : string).   (* f"{pre}{arg}{post}" *)

Inductive method : Type := GET | POST | PATCH | DELETE.

Inductive kwargs : Type :=
| KwNone
| KwParams (params : option pydict)
| KwJson (data : out).

Record http_request : Type := {
  rq_method : method;
  rq_base_url : string;      (* the domain in f"https://{domain}.kaiten.ru/api/v1" *)
  rq_endpoint : endpoint;
  rq_token : string;         (* the token in the Authorization header *)
  rq_kwargs : kwargs
}.

Record response : Type := {
  status_code : Z;
  text : string;
  json : option value        (* what [response.json()] returns; [None]: it raises *)
}.

Inductive http_outcome : Type :=
| Responds (r : response)
| Fails (e : exn).

(** ** The counters of [self.stats] *)

Inductive stat_kind : Type :=
| Spaces | Boards | Cards | Comments | Checklists | Tags | CustomProperties.

Record counters : Type := { total : Z; migrated : Z; failed : Z }.

Inductive ledger_op : Type :=
| SetTotal (k : stat_kind) (n : Z)     (* self.stats[k]['total'] = n *)
| AddTotal (k : stat_kind) (n : Z)     (* self.stats[k]['total'] += n *)
| IncMigrated (k : stat_kind)          (* self.stats[k]['migrated'] += 1 *)
| IncFailed (k : stat_kind).           (* self.stats[k]['failed'] += 1 *)

Inductive event : Type :=
| EvRequest (r : http_request)
| EvSleep (seconds : Q)
| EvLedger (op : ledger_op).

(** ** The outside world *)

Class Environment (Env : Type) : Type := {
  time_time : Env -> Q * Env;
  time_sleep : Q -> Env -> Env;
  requests_request : http_request -> Env -> http_outcome * Env;
  py_int : string -> option Z          (* int(s); [None]: ValueError *)
}.

Definition Qltb (x y : Q) : bool := (Qnum x * QDen y <? Qnum y * QDen x)%Z.

Section Program.

Context {Env : Type} {E : Environment Env}.

Record World : Type := { env : Env; trace : list event }.

(** ** The monad: state [S], world, exceptions, fuel *)

Definition M (S A : Type) : Type := S -> World -> res A * S * World.

Definition ret {S A} (a : A) : M S A := fun s w => (Ok a, s, w).

Definition bind {S A B} (m : M S A) (f : A -> M S B) : M S B :=
  fun s w =>
    match m s w with
    | (Ok a, s', w') => f a s' w'
    | (Raise e, s', w') => (Raise e, s', w')
    | (OutOfFuel, s', w') => (OutOfFuel, s', w')
    end.

Definition raise {S A} (e : exn) : M S A := fun s w => (Raise e, s, w).
Definition out_of_fuel {S A} : M S A := fun s w => (OutOfFuel, s, w).
Definition get_state {S} : M S S := fun s w => (Ok s, s, w).
Definition put_state {S} (s : S) : M S unit := fun _ w => (Ok tt, s, w).

Definition lift_res {S A} (r : res A) : M S A := fun s w => (r, s, w).

(** [try: m  except Exception: handler] *)
Definition try_except {S A} (m : M S A) (handler : exn -> M S A) : M S A :=
  fun s w =>
    match m s w with
    | (Raise e, s', w') => handler e s' w'
    | r => r
    end.

Definition emit {S} (ev : event) : M S unit :=
  fun s w => (Ok tt, s, {| env := env w; trace := trace w ++ [ev] |}).

Definition call_time {S} : M S Q :=
  fun s w =>
    let (t, e') := time_time (env w) in
    (Ok t, s, {| env := e'; trace := trace w |}).

Definition call_sleep {S} (d : Q) : M S unit :=
  fun s w =>
    (Ok tt, s, {| env := time_sleep d (env w); trace := trace w ++ [EvSleep d] |}).

Definition call_request {S} (r : http_request) : M S http_outcome :=
  fun s w =>
    let (o, e') := requests_request r (env w) in
    (Ok o, s, {| env := e'; trace := trace w ++ [EvRequest r] |}).

End Program.

Declare Scope monad_scope.
Delimit Scope monad_scope with monad.
Notation "x <- m ;; k" := (bind m (fun x => k))
  (at level 61, m at next level, right associativity) : monad_scope.
Notation "m ;; k" := (bind m (fun _ => k))
  (at level 61, right associativity) : monad_scope.
Local Open Scope monad_scope.

(** [for x in xs: body x] *)
Fixpoint for_each {Env S A} (xs : list A) (body : A -> @M Env S unit)
    : @M Env S unit :=
  match xs with
  | [] => ret tt
  | x :: xs' => body x ;; for_each xs' body
  end.

(** ** class KaitenAPI (kaiten_migration.py) *)

Record KaitenAPI : Type := {
  domain : string;
  token : string;
  request_count : Z;
  request_times : list Q
}.

(** [KaitenAPI.__init__] *)
Definition KaitenAPI_init (domain token : string) : KaitenAPI :=
  {| domain := domain; token := token; request_count := 0; request_times := [] |}.

(** [[t for t in request_times if now - t < 1.0]] *)
Definition recent (now : Q) (times : list Q) : list Q :=
  filter (fun t => Qltb (now - t) 1) times.

Section KaitenAPI.

Context {Env : Type} {E : Environment Env}.

Definition set_request_times (ts : list Q) : @M Env KaitenAPI unit :=
  api <- get_state ;;
  put_state {| domain := domain api; token := token api;
               request_count := request_count api; request_times := ts |}.

Definition _rate_limit : @M Env KaitenAPI unit :=
  now <- call_time ;;
  api <- get_state ;;
  set_request_times (recent now (request_times api)) ;;
  api <- get_state ;;
  now <-
    (if (5 <=? Z.of_nat (List.length (request_times api)))%Z then
       match request_times api with
       | [] => raise IndexError
       | t0 :: _ =>
           let sleep_time := (1 - (now - t0) + (5 # 100))%Q in
           if Qltb 0 sleep_time then
             call_sleep sleep_time ;;
             now <- call_time ;;
             set_request_times (recent now (request_times api)) ;;
             ret now
           else ret now
       end
     else ret now) ;;
  api <- get_state ;;
  put_state {| domain := domain api; token := token api;
               request_count := request_count api + 1;
               request_times := request_times api ++ [now] |}.

End KaitenAPI.


Section Transport.

Context {Env : Type} {E : Environment Env}.

Definition mk_request (api : KaitenAPI) (m : method) (ep : endpoint) (kw : kwargs)
    : http_request :=
  {| rq_method := m; rq_base_url := domain api; rq_endpoint := ep;
     rq_token := token api; rq_kwargs := kw |}.

(** [response.raise_for_status()] raises [HTTPError] on these codes. *)
Definition is_error_status (code : Z) : bool := (400 <=? code) && (code <? 600).

(** [KaitenAPI._request]: [None] is [VNone]. *)
Fixpoint _request (fuel : nat) (m : method) (ep : endpoint) (kw : kwargs)
    : @M Env KaitenAPI value :=
  match fuel with
  | O => out_of_fuel
  | S fuel' =>
      _rate_limit ;;
      api <- get_state ;;
      try_except
        (outcome <- call_request (mk_request api m ep kw) ;;
         match outcome with
         | Fails e => raise e
         | Responds response =>
             if status_code response =? 429 then
               call_sleep 2 ;;
               _request fuel' m ep kw
             else if is_error_status (status_code response) then raise HTTPError
             else if (text response =? "")%string then ret (VDict [])
             else match json response with
                  | Some v => ret v
                  | None => raise ValueError
                  end
         end)
        (fun _ => ret VNone)
  end.

Definition get (fuel : nat) (ep : endpoint) (params : option pydict) :=
  _request fuel GET ep (KwParams params).

Definition post (fuel : nat) (ep : endpoint) (data : out) :=
  _request fuel POST ep (KwJson data).

Definition patch (fuel : nat) (ep : endpoint) (data : out) :=
  _request fuel PATCH ep (KwJson data).

Definition delete (fuel : nat) (ep : endpoint) :=
  _request fuel DELETE ep KwNone.

(** The page a response carries: a list, the ['data'] of a dict, or the
    response itself as a one-element page. *)
Definition page_data (response : value) : value :=
  match response with
  | VList l => VList l
  | VDict d =>
      match dict_get "data" d with
      | Some data => data
      | None => if truthy response then VList [response] else VList []
      end
  | _ => if truthy response then VList [response] else VList []
  end.

(** The [while True] loop of [get_paginated]; [n] bounds its iterations. *)
Fixpoint get_paginated_loop (n fuel : nat) (ep : endpoint) (params : pydict)
    (limit offset : Z) (all_data : list value) : @M Env KaitenAPI (list value) :=
  match n with
  | O => out_of_fuel
  | S n' =>
      let params := dict_set "limit" (VInt limit) params in
      let params := dict_set "offset" (VInt offset) params in
      response <- get fuel ep (Some params) ;;
      match response with
      | VNone => ret all_data
      | _ =>
          let data := page_data response in
          if negb (truthy data) then ret all_data
          else
            items <- lift_res (py_iter data) ;;
            let all_data := all_data ++ items in
            len <- lift_res (py_len data) ;;
            if len <? limit then ret all_data
            else get_paginated_loop n' fuel ep params limit (offset + limit) all_data
      end
  end.

(** [params or {}] *)
Definition params_or_empty (params : option pydict) : pydict :=
  match params with
  | Some d => d
  | None => []
  end.

Definition get_paginated (fuel : nat) (ep : endpoint) (params : option pydict)
    (limit : Z) : @M Env KaitenAPI (list value) :=
  get_paginated_loop fuel fuel ep (params_or_empty params) limit 0 [].

End Transport.

(** ** class KaitenMigration *)

Definition stat_kind_eqb (a b : stat_kind) : bool :=
  match a, b with
  | Spaces, Spaces | Boards, Boards | Cards, Cards | Comments, Comments
  | Checklists, Checklists | Tags, Tags | CustomProperties, CustomProperties => true
  | _, _ => false
  end.

Definition ledger := stat_kind -> counters.

Definition ledger_op_kind (op : ledger_op) : stat_kind :=
  match op with
  | SetTotal k _ | AddTotal k _ | IncMigrated k | IncFailed k => k
  end.

Definition apply_counters (op : ledger_op) (c : counters) : counters :=
  match op with
  | SetTotal _ n => {| total := n; migrated := migrated c; failed := failed c |}
  | AddTotal _ n => {| total := total c + n; migrated := migrated c; failed := failed c |}
  | IncMigrated _ => {| total := total c; migrated := migrated c + 1; failed := failed c |}
  | IncFailed _ => {| total := total c; migrated := migrated c; failed := failed c + 1 |}
  end.

Definition apply_op (op : ledger_op) (l : ledger) : ledger :=
  fun k => if stat_kind_eqb k (ledger_op_kind op) then apply_counters op (l k) else l k.

Record KaitenMigration : Type := {
  source : KaitenAPI;
  target : KaitenAPI;
  id_map : string -> table;          (* defaultdict(dict) *)
  stats : ledger
}.

(** [KaitenMigration.__init__] *)
Definition KaitenMigration_init (source_domain source_token target_domain
    target_token : string) : KaitenMigration :=
  {| source := KaitenAPI_init source_domain source_token;
     target := KaitenAPI_init target_domain target_token;
     id_map := fun _ => [];
     stats := fun _ => {| total := 0; migrated := 0; failed := 0 |} |}.

(** [result and 'id' in result] *)
Definition has_id (result : value) : res bool :=
  if truthy result then py_contains "id" result else Ok false.

Definition len (l : list value) : Z := Z.of_nat (List.length l).

Section Migration.

Context {Env : Type} {E : Environment Env}.

Definition on_source {A} (m : @M Env KaitenAPI A) : @M Env KaitenMigration A :=
  fun st w =>
    let '(r, api, w') := m (source st) w in
    (r, {| source := api; target := target st; id_map := id_map st;
           stats := stats st |}, w').

Definition on_target {A} (m : @M Env KaitenAPI A) : @M Env KaitenMigration A :=
  fun st w =>
    let '(r, api, w') := m (target st) w in
    (r, {| source := source st; target := api; id_map := id_map st;
           stats := stats st |}, w').

(** A write to [self.stats]. *)
Definition record_stat (op : ledger_op) : @M Env KaitenMigration unit :=
  st <- get_state ;;
  put_state {| source := source st; target := target st; id_map := id_map st;
               stats := apply_op op (stats st) |} ;;
  emit (EvLedger op).

(** [self.id_map[kind].get(key)] *)
Definition id_map_get (kind : string) (key : value) : @M Env KaitenMigration value :=
  st <- get_state ;;
  lift_res (table_get key (id_map st kind)).

(** [self.id_map[kind][key] = v] *)
Definition id_map_set (kind : string) (key v : value) : @M Env KaitenMigration unit :=
  st <- get_state ;;
  t <- lift_res (table_set key v (id_map st kind)) ;;
  put_state {| source := source st; target := target st;
               id_map := fun k => if (k =? kind)%string then t else id_map st k;
               stats := stats st |}.

(** The loop body of [migrate_custom_properties]. *)
Definition migrate_property (fuel : nat) (prop : value) : @M Env KaitenMigration unit :=
  prop_id <- lift_res (py_index prop "id") ;;
  prop_name <- lift_res (py_get_default OV prop "name" (OF "Property " prop_id)) ;;
  type <- lift_res (py_get prop "type") ;;
  settings <- lift_res (py_get_default (fun v => v) prop "settings" (VDict [])) ;;
  let new_prop := OD [("name", prop_name); ("type", OV type);
                      ("settings", OV settings)] in
  result <- on_target (post fuel (EP "/custom-properties") new_prop) ;;
  ok <- lift_res (has_id result) ;;
  if ok then
    new_id <- lift_res (py_index result "id") ;;
    id_map_set "properties" prop_id new_id ;;
    record_stat (IncMigrated CustomProperties)
  else record_stat (IncFailed CustomProperties).

Definition migrate_custom_properties (fuel : nat) : @M Env KaitenMigration unit :=
  properties <- on_source (get_paginated fuel (EP "/custom-properties") None 100) ;;
  record_stat (SetTotal CustomProperties (len properties)) ;;
  for_each properties (migrate_property fuel).

(** The loop body of [migrate_tags]. *)
Definition migrate_tag (fuel : nat) (tag : value) : @M Env KaitenMigration unit :=
  tag_id <- lift_res (py_index tag "id") ;;
  tag_name <- lift_res (py_get_default OV tag "name" (OF "Tag " tag_id)) ;;
  color <- lift_res (py_get tag "color") ;;
  let new_tag := OD [("name", tag_name); ("color", OV color)] in
  result <- on_target (post fuel (EP "/tags") new_tag) ;;
  ok <- lift_res (has_id result) ;;
  if ok then
    new_id <- lift_res (py_index result "id") ;;
    id_map_set "tags" tag_id new_id ;;
    record_stat (IncMigrated Tags)
  else record_stat (IncFailed Tags).

Definition migrate_tags (fuel : nat) : @M Env KaitenMigration unit :=
  tags <- on_source (get_paginated fuel (EP "/tags") None 100) ;;
  record_stat (SetTotal Tags (len tags)) ;;
  for_each tags (migrate_tag fuel).

(** The first loop of [migrate_columns_and_lanes]: one column. *)
Definition migrate_column (fuel : nat) (new_board_id col : value)
    : @M Env KaitenMigration unit :=
  col_id <- lift_res (py_index col "id") ;;
  title <- lift_res (py_get_default (fun v => v) col "title" (VStr "")) ;;
  type <- lift_res (py_get_default (fun v => v) col "type" (VInt 1)) ;;
  sort_order <- lift_res (py_get_default (fun v => v) col "sort_order" (VInt 0)) ;;
  let new_col := OD [("board_id", OV new_board_id); ("title", OV title);
                     ("type", OV type); ("sort_order", OV sort_order)] in
  result <- on_target (post fuel (EP "/columns") new_col) ;;
  ok <- lift_res (has_id result) ;;
  if ok then
    new_id <- lift_res (py_index result "id") ;;
    id_map_set "columns" col_id new_id
  else ret tt.

(** The second loop of [migrate_columns_and_lanes]: one lane. *)
Definition migrate_lane (fuel : nat) (new_board_id lane : value)
    : @M Env KaitenMigration unit :=
  lane_id <- lift_res (py_index lane "id") ;;
  title <- lift_res (py_get_default (fun v => v) lane "title" (VStr "")) ;;
  sort_order <- lift_res (py_get_default (fun v => v) lane "sort_order" (VInt 0)) ;;
  let new_lane := OD [("board_id", OV new_board_id); ("title", OV title);
                      ("sort_order", OV sort_order)] in
  result <- on_target (post fuel (EP "/lanes") new_lane) ;;
  ok <- lift_res (has_id result) ;;
  if ok then
    new_id <- lift_res (py_index result "id") ;;
    id_map_set "lanes" lane_id new_id
  else ret tt.

Definition migrate_columns_and_lanes (fuel : nat) (old_board_id new_board_id
    board_data : value) : @M Env KaitenMigration unit :=
  columns <- lift_res (py_get_default (fun v => v) board_data "columns" (VList [])) ;;
  columns <- lift_res (py_iter columns) ;;
  for_each columns (migrate_column fuel new_board_id) ;;
  lanes <- lift_res (py_get_default (fun v => v) board_data "lanes" (VList [])) ;;
  lanes <- lift_res (py_iter lanes) ;;
  for_each lanes (migrate_lane fuel new_board_id).

(** The loop body of [migrate_boards_in_space]. *)
Definition migrate_board (fuel : nat) (new_space_id board : value)
    : @M Env KaitenMigration unit :=
  board_id <- lift_res (py_index board "id") ;;
  board_title <- lift_res (py_get_default OV board "title" (OF "Board " board_id)) ;;
  description <- lift_res (py_get_default (fun v => v) board "description" (VStr "")) ;;
  let new_board := OD [("title", board_title); ("description", OV description);
                       ("space_id", OV new_space_id)] in
  result <- on_target (post fuel (EP "/boards") new_board) ;;
  ok <- lift_res (has_id result) ;;
  if ok then
    new_id <- lift_res (py_index result "id") ;;
    id_map_set "boards" board_id new_id ;;
    record_stat (IncMigrated Boards) ;;
    board_details <- on_source (get fuel (EPf "/boards/" board_id "") None) ;;
    if truthy board_details then
      new_id <- lift_res (py_index result "id") ;;
      migrate_columns_and_lanes fuel board_id new_id board_details
    else ret tt
  else record_stat (IncFailed Boards).

Definition migrate_boards_in_space (fuel : nat) (old_space_id new_space_id : value)
    : @M Env KaitenMigration unit :=
  boards <- on_source
              (get_paginated fuel (EPf "/spaces/" old_space_id "/boards") None 100) ;;
  record_stat (AddTotal Boards (len boards)) ;;
  for_each boards (migrate_board fuel new_space_id).

(** The loop body of [migrate_spaces_and_boards]. *)
Definition migrate_space (fuel : nat) (space : value) : @M Env KaitenMigration unit :=
  archived <- lift_res (py_get space "archived") ;;
  if truthy archived then ret tt
  else
    space_id <- lift_res (py_index space "id") ;;
    space_title <- lift_res (py_get_default OV space "title" (OF "Space " space_id)) ;;
    access <- lift_res (py_get_default (fun v => v) space "access" (VStr "private")) ;;
    let new_space := OD [("title", space_title); ("access", OV access)] in
    result <- on_target (post fuel (EP "/spaces") new_space) ;;
    ok <- lift_res (has_id result) ;;
    if negb ok then record_stat (IncFailed Spaces)
    else
      new_space_id <- lift_res (py_index result "id") ;;
      id_map_set "spaces" space_id new_space_id ;;
      record_stat (IncMigrated Spaces) ;;
      migrate_boards_in_space fuel space_id new_space_id.

Definition migrate_spaces_and_boards (fuel : nat) : @M Env KaitenMigration unit :=
  spaces <- on_source (get_paginated fuel (EP "/spaces") None 100) ;;
  record_stat (SetTotal Spaces (len spaces)) ;;
  for_each spaces (migrate_space fuel).

(** [migrate_card_tags] *)
Definition migrate_card_tags (fuel : nat) (old_card_id new_card_id tags : value)
    : @M Env KaitenMigration unit :=
  tags <- lift_res (py_iter tags) ;;
  for_each tags (fun tag =>
    old_tag_id <- lift_res (py_get tag "id") ;;
    new_tag_id <- id_map_get "tags" old_tag_id ;;
    if truthy new_tag_id then
      on_target (post fuel (EPf "/cards/" new_card_id "/tags")
                   (OD [("tag_id", OV new_tag_id)])) ;;
      ret tt
    else ret tt).

(** The loop over [properties.items()] in [migrate_single_card]: the
    assignments made to [new_properties], in order. *)
Fixpoint rewrite_properties (items : pydict) : @M Env KaitenMigration (list (value * value)) :=
  match items with
  | [] => ret []
  | (key, v) :: items' =>
      here <-
        (if String.prefix "id_" key then
           match py_int (split_underscore_1 key) with
           | None => raise ValueError
           | Some old_prop_id =>
               new_prop_id <- id_map_get "properties" (VInt old_prop_id) ;;
               if truthy new_prop_id then ret [(new_prop_id, v)] else ret []
           end
         else ret []) ;;
      rest <- rewrite_properties items' ;;
      ret (here ++ rest)
  end.

(** The part of [migrate_single_card] headed "Пользовательские поля": the
    fields it adds to [new_card]. *)
Definition card_properties (card : value) : @M Env KaitenMigration (list (string * out)) :=
  properties <- lift_res (py_get_default (fun v => v) card "properties" (VDict [])) ;;
  if truthy properties then
    match properties with
    | VDict items =>
        new_properties <- rewrite_properties items ;;
        match new_properties with
        | [] => ret []
        | _ => ret [("properties", OProps new_properties)]
        end
    | _ => raise AttributeError
    end
  else ret [].

(** The end of [migrate_single_card], from the test of [result] on. *)
Definition record_card (fuel : nat) (card card_id result : value)
    : @M Env KaitenMigration unit :=
  ok <- lift_res (has_id result) ;;
  if ok then
    new_id <- lift_res (py_index result "id") ;;
    id_map_set "cards" card_id new_id ;;
    record_stat (IncMigrated Cards) ;;
    new_id <- lift_res (py_index result "id") ;;
    tags <- lift_res (py_get_default (fun v => v) card "tags" (VList [])) ;;
    migrate_card_tags fuel card_id new_id tags
  else record_stat (IncFailed Cards).

Definition migrate_single_card (fuel : nat) (card : value)
    : @M Env KaitenMigration unit :=
  card_id <- lift_res (py_index card "id") ;;
  card_title <- lift_res (py_get_default OV card "title" (OF "Card " card_id)) ;;
  old_board_id <- lift_res (py_get card "board_id") ;;
  new_board_id <- id_map_get "boards" old_board_id ;;
  if negb (truthy new_board_id) then record_stat (IncFailed Cards)
  else
    old_column_id <- lift_res (py_get card "column_id") ;;
    new_column_id <- id_map_get "columns" old_column_id ;;
    old_lane_id <- lift_res (py_get card "lane_id") ;;
    new_lane_id <- (if truthy old_lane_id then id_map_get "lanes" old_lane_id
                    else ret VNone) ;;
    if negb (truthy new_column_id) then record_stat (IncFailed Cards)
    else
      description <- lift_res (py_get card "description") ;;
      asap <- lift_res (py_get_default (fun v => v) card "asap" (VBool false)) ;;
      due_date <- lift_res (py_get card "due_date") ;;
      size_text <- lift_res (py_get card "size_text") ;;
      let new_card := [("title", card_title); ("description", OV description);
                       ("board_id", OV new_board_id); ("column_id", OV new_column_id);
                       ("lane_id", OV new_lane_id); ("asap", OV asap);
                       ("due_date", OV due_date); ("size_text", OV size_text)] in
      properties <- card_properties card ;;
      let new_card := new_card ++ properties in
      result <- on_target (post fuel (EP "/cards") (OD new_card)) ;;
      record_card fuel card card_id result.

Definition migrate_cards (fuel : nat) : @M Env KaitenMigration unit :=
  cards <- on_source
             (get_paginated fuel (EP "/cards")
                (Some [("additional_card_fields", VStr "description");
                       ("condition", VInt 1)]) 100) ;;
  record_stat (SetTotal Cards (len cards)) ;;
  for_each cards (migrate_single_card fuel).

Definition migrate_comments (fuel : nat) : @M Env KaitenMigration unit :=
  st <- get_state ;;
  for_each (id_map st "cards") (fun '(old_card_id, new_card_id) =>
    comments <- on_source
                  (get_paginated fuel (EPf "/cards/" old_card_id "/comments") None 100) ;;
    record_stat (AddTotal Comments (len comments)) ;;
    for_each comments (fun comment =>
      text <- lift_res (py_get_default (fun v => v) comment "text" (VStr "")) ;;
      result <- on_target
                  (post fuel (EP "/card-comments/add-comment")
                     (OD [("card_id", OV new_card_id); ("text", OV text)])) ;;
      if truthy result then record_stat (IncMigrated Comments)
      else record_stat (IncFailed Comments))).

Definition migrate_checklists (fuel : nat) : @M Env KaitenMigration unit :=
  st <- get_state ;;
  for_each (id_map st "cards") (fun '(old_card_id, new_card_id) =>
    checklists <- on_source
                    (get_paginated fuel (EPf "/cards/" old_card_id "/checklists")
                       None 100) ;;
    record_stat (AddTotal Checklists (len checklists)) ;;
    for_each checklists (fun checklist =>
      name <- lift_res (py_get_default (fun v => v) checklist "name" (VStr "")) ;;
      let new_checklist := OD [("card_id", OV new_card_id); ("name", OV name)] in
      result <- on_target (post fuel (EP "/card-checklists") new_checklist) ;;
      ok <- lift_res (has_id result) ;;
      if ok then
        new_checklist_id <- lift_res (py_index result "id") ;;
        record_stat (IncMigrated Checklists) ;;
        items <- lift_res (py_get_default (fun v => v) checklist "items" (VList [])) ;;
        items <- lift_res (py_iter items) ;;
        for_each items (fun item =>
          text <- lift_res (py_get_default (fun v => v) item "text" (VStr "")) ;;
          checked <- lift_res (py_get_default (fun v => v) item "checked" (VBool false)) ;;
          on_target (post fuel (EP "/card-checklist-items")
                       (OD [("checklist_id", OV new_checklist_id);
                            ("text", OV text); ("checked", OV checked)])) ;;
          ret tt)
      else record_stat (IncFailed Checklists))).

Definition migrate_card_relations (fuel : nat) : @M Env KaitenMigration unit :=
  st <- get_state ;;
  for_each (id_map st "cards") (fun '(old_card_id, new_card_id) =>
    children <- on_source
                  (get_paginated fuel (EPf "/cards/" old_card_id "/children") None 100) ;;
    for_each children (fun child =>
      old_child_id <- lift_res (py_get child "id") ;;
      new_child_id <- id_map_get "cards" old_child_id ;;
      if truthy new_child_id then
        on_target (post fuel (EPf "/cards/" new_card_id "/children")
                     (OD [("child_id", OV new_child_id)])) ;;
        ret tt
      else ret tt)).

(** The seven stages of [migrate_all], in the order of the [try] block. *)
Definition stages (fuel : nat) : @M Env KaitenMigration unit :=
  migrate_custom_properties fuel ;;
  migrate_tags fuel ;;
  migrate_spaces_and_boards fuel ;;
  migrate_cards fuel ;;
  migrate_comments fuel ;;
  migrate_checklists fuel ;;
  migrate_card_relations fuel.

(** [migrate_all]; [print_stats] only logs. *)
Definition migrate_all (fuel : nat) : @M Env KaitenMigration unit :=
  start_time <- call_time ;;
  try_except (stages fuel) (fun _ => ret tt) ;;
  end_time <- call_time ;;
  ret tt.

End Migration.

(** Whatever happens in the world between two calls of the governor (the
    HTTP exchange, the caller's own work): the world moves from [e] to
    [f e]; the client is not touched, since [request_times] is written by
    [_rate_limit] alone. *)
Definition elapse {Env S} (f : Env -> Env) : @M Env S unit :=
  fun s w => (Ok tt, s, {| env := f (env w); trace := trace w |}).

(** Successive calls of [_rate_limit] on one client, one per element of
    [between], each followed by that change of the world; the result lists
    [request_times] as each call leaves it. *)
Fixpoint admit_many {Env} {E : Environment Env} (between : list (Env -> Env))
    : @M Env KaitenAPI (list (list Q)) :=
  match between with
  | [] => ret []
  | f :: between' =>
      _rate_limit ;;
      api <- get_state ;;
      elapse f ;;
      rest <- admit_many between' ;;
      ret (request_times api :: rest)
  end.

(** The timestamp a call appended is the last one of the list it leaves. *)
Definition recorded (snapshots : list (list Q)) : list Q :=
  map (fun ts => last ts 0%Q) snapshots.

(** ** class KaitenAPI (kaiten_dsl_engine.py): the rate governor *)

Module DSL.

Record KaitenAPI : Type := {
  domain : string;
  token : string;
  dry_run : bool;
  request_times : list Q
}.

Definition KaitenAPI_init (domain token : string) (dry_run : bool) : KaitenAPI :=
  {| domain := domain; token := token; dry_run := dry_run; request_times := [] |}.

Section KaitenAPI.

Context {Env : Type} {E : Environment Env}.

Definition set_request_times (ts : list Q) : @M Env KaitenAPI unit :=
  api <- get_state ;;
  put_state {| domain := domain api; token := token api;
               dry_run := dry_run api; request_times := ts |}.

Definition _rate_limit : @M Env KaitenAPI unit :=
  now <- call_time ;;
  api <- get_state ;;
  set_request_times (recent now (request_times api)) ;;
  api <- get_state ;;
  now <-
    (if (5 <=? Z.of_nat (List.length (request_times api)))%Z then
       match request_times api with
       | [] => raise IndexError
       | t0 :: _ =>
           let sleep_time := (1 - (now - t0) + (5 # 100))%Q in
           if Qltb 0 sleep_time then
             call_sleep sleep_time ;;
             now <- call_time ;;
             set_request_times (recent now (request_times api)) ;;
             ret now
           else ret now
       end
     else ret now) ;;
  api <- get_state ;;
  set_request_times (request_times api ++ [now]).

Fixpoint admit_many (between : list (Env -> Env))
    : @M Env KaitenAPI (list (list Q)) :=
  match between with
  | [] => ret []
  | f :: between' =>
      _rate_limit ;;
      api <- get_state ;;
      elapse f ;;
      rest <- admit_many between' ;;
      ret (request_times api :: rest)
  end.

End KaitenAPI.

End DSL.

(** ** A simulated environment

    A deterministic world for running the program: every reading of the
    clock takes a tenth of a second, [time.sleep] lasts exactly as long as
    asked, and the [n]-th call of [requests.request] is answered by
    [handler n]. *)

Record Sim : Type := {
  sim_now : Q;
  sim_served : nat
}.

Fixpoint digits_value (s : string) (acc : Z) : option Z :=
  match s with
  | EmptyString => Some acc
  | String c s' =>
      let n := Z.of_nat (nat_of_ascii c) in
      if (48 <=? n) && (n <=? 57)
      then digits_value s' (10 * acc + (n - 48))
      else None
  end.

(** [int(s)] for a string of ASCII digits; other strings are rejected. *)
Definition sim_int (s : string) : option Z :=
  match s with
  | EmptyString => None
  | _ => digits_value s 0
  end.

Definition SimEnvironment (handler : nat -> http_request -> http_outcome)
    : Environment Sim := {|
  time_time e :=
    let t := (sim_now e + (1 # 10))%Q in
    (t, {| sim_now := t; sim_served := sim_served e |});
  time_sleep d e := {| sim_now := (sim_now e + d)%Q; sim_served := sim_served e |};
  requests_request r e :=
    (handler (sim_served e) r,
     {| sim_now := sim_now e; sim_served := S (sim_served e) |});
  py_int := sim_int
|}.

Definition sim_world : @World Sim :=
  {| env := {| sim_now := 0; sim_served := O |}; trace := [] |}.

(** A transport that is down: every call raises. *)
Definition offline : nat -> http_request -> http_outcome :=
  fun _ _ => Fails RequestException.

(** What one call of [requests.request] does to the simulated world. *)
Definition exchange (handler : nat -> http_request -> http_outcome)
    (r : http_request) : Sim -> Sim :=
  fun e => snd (requests_request (Environment := SimEnvironment handler) r e).

Definition list_spaces : http_request :=
  {| rq_method := GET; rq_base_url := "src"; rq_endpoint := EP "/spaces";
     rq_token := "t"; rq_kwargs := KwNone |}.

(** Seven exchanges, one after each call of the governor. *)
Definition exchanges (handler : nat -> http_request -> http_outcome)
    : list (Sim -> Sim) :=
  repeat (exchange handler list_spaces) 7.

(** ** Vocabulary of the statements *)

(** *** Rate governor *)

(** The timestamps a predicate selects are less than one second apart:
    every half-open window of one second is such a predicate. *)
Definition narrow (P : Q -> bool) : Prop :=
  forall x y, P x = true -> P y = true -> (x - y < 1)%Q.

(** [a <= t < a + 1] *)
Definition in_window (a t : Q) : bool := Qle_bool a t && Qltb t (a + 1).

(** [a < t <= a + 1] *)
Definition in_window' (a t : Q) : bool := Qltb a t && Qle_bool t (a + 1).

(** What the governor maintains: [hist] is every timestamp recorded so far,
    [ts] the retained list, [c] the current instant. *)
Definition governed (hist ts : list Q) (c : Q) : Prop :=
  (List.length ts <= 5)%nat
  /\ (forall P, narrow P -> (List.length (filter P hist) <= 5)%nat)
  /\ (forall c', (c <= c')%Q ->
        (List.length (recent c' hist) <= List.length (recent c' ts))%nat).

(** *** Traces *)

Definition is_sleep (ev : event) : bool :=
  match ev with EvSleep _ => true | _ => false end.

(** The calls of [requests.request] in a trace, in order. *)
Definition requests_of (tr : list event) : list http_request :=
  flat_map (fun ev => match ev with EvRequest r => [r] | _ => [] end) tr.


(** [time.sleep(d)] seen from the world. *)
Definition slept {Env} {E : Environment Env} (d : Q) (w : @World Env) : @World Env :=
  {| env := time_sleep d (env w); trace := trace w ++ [EvSleep d] |}.

(** One pass through the transport, as [_request] begins: the governor, then
    [requests.request]. *)
Definition attempt {Env} {E : Environment Env} (m : method) (ep : endpoint)
    (kw : kwargs) : @M Env KaitenAPI http_outcome :=
  _rate_limit ;;
  api <- get_state ;;
  call_request (mk_request api m ep kw).

(** *** Simulated transports *)

Definition ok_response (v : value) : http_outcome :=
  Responds {| status_code := 200; text := "<json>"; json := Some v |}.

Definition status_response (code : Z) : http_outcome :=
  Responds {| status_code := code; text := "<error>"; json := None |}.

(** Throttled once: the first call is answered 429, the later ones 200 with
    a record. *)
Definition throttled_once (record : value) : nat -> http_request -> http_outcome :=
  fun n _ => match n with O => status_response 429 | _ => ok_response record end.

(** *** Pagination *)

(** The [limit] and [offset] a request carries in its query parameters. *)
Definition page_of_request (r : http_request) : option (Z * Z) :=
  match rq_kwargs r with
  | KwParams (Some p) =>
      match dict_get "limit" p, dict_get "offset" p with
      | Some (VInt limit), Some (VInt offset) => Some (limit, offset)
      | _, _ => None
      end
  | _ => None
  end.

(** What is seen of a request: method, endpoint, limit and offset. *)
Definition page_view (r : http_request) : method * endpoint * option (Z * Z) :=
  (rq_method r, rq_endpoint r, page_of_request r).

(** The records a list endpoint returns for [limit] and [offset]. *)
Definition slice (offset limit : Z) (records : list value) : list value :=
  firstn (Z.to_nat limit) (skipn (Z.to_nat offset) records).

(** The source holds exactly [records] at [ep]: every GET of [ep] with a
    limit and an offset is answered 200 with that slice as a JSON array. *)
Definition serves_list {Env} {E : Environment Env} (ep : endpoint)
    (records : list value) : Prop :=
  forall (e : Env) (r : http_request) (limit offset : Z),
    rq_method r = GET -> rq_endpoint r = ep ->
    page_of_request r = Some (limit, offset) ->
    exists resp,
      fst (requests_request r e) = Responds resp
      /\ status_code resp = 200 /\ text resp <> ""
      /\ json resp = Some (VList (slice offset limit records)).

(** [count] offsets from [offset] in steps of [limit]. *)
Fixpoint offsets_from (count : nat) (offset limit : Z) : list Z :=
  match count with
  | O => []
  | S c => offset :: offsets_from c (offset + limit) limit
  end.

(** The number of page requests for [n] records in pages of [limit]. *)
Definition page_count (n : nat) (limit : Z) : nat :=
  S (Z.to_nat (Z.of_nat n / limit)).

(** A simulated source that holds [records] at every endpoint. *)
Definition list_server (records : list value) : nat -> http_request -> http_outcome :=
  fun _ r =>
    match rq_method r, page_of_request r with
    | GET, Some (limit, offset) => ok_response (VList (slice offset limit records))
    | _, _ => status_response 400
    end.

(** The parameters [get_paginated] sends for [offset], from the dict [p] it
    holds before the iteration. *)
Definition page_params (p : pydict) (limit offset : Z) : pydict :=
  dict_set "offset" (VInt offset) (dict_set "limit" (VInt limit) p).

(** [k] full pages arrive, then the transport fails: [pages] are the pages,
    in order. *)
Inductive pages_then_failure {Env} {E : Environment Env} (fuel : nat)
    (ep : endpoint) (limit : Z)
    : pydict -> Z -> KaitenAPI -> @World Env -> list (list value)
      -> KaitenAPI -> @World Env -> Prop :=
| ptf_failure p offset api w api' w' :
    get fuel ep (Some (page_params p limit offset)) api w = (Ok VNone, api', w') ->
    pages_then_failure fuel ep limit p offset api w [] api' w'
| ptf_page p offset api w response page n api1 w1 pages api' w' :
    get fuel ep (Some (page_params p limit offset)) api w = (Ok response, api1, w1) ->
    response <> VNone ->
    truthy (page_data response) = true ->
    py_iter (page_data response) = Ok page ->
    py_len (page_data response) = Ok n ->
    limit <= n ->
    pages_then_failure fuel ep limit (page_params p limit offset) (offset + limit)
      api1 w1 pages api' w' ->
    pages_then_failure fuel ep limit p offset api w (page :: pages) api' w'.

(** A source that answers the first call with a full page of two records
    and then goes down. *)
Definition page_then_down : nat -> http_request -> http_outcome :=
  fun n _ =>
    match n with
    | O => ok_response (VList [VDict [("id", VInt 1)]; VDict [("id", VInt 2)]])
    | _ => Fails RequestException
    end.

(** Every page but the last is full and the last one is short (or empty):
    [offsets] are the offsets requested, in order. *)
Definition full_then_short (records : list value) (limit : Z) (offsets : list Z)
    : Prop :=
  Forall (fun o => len (slice o limit records) = limit) (removelast offsets)
  /\ len (slice (last offsets 0) limit records) < limit.

(** 250 records, numbered. *)
Definition records_250 : list value :=
  map (fun i => VDict [("id", VInt (Z.of_nat i))]) (seq 0 250).

(** *** Assertions on runs *)

(** [hoare P m Q X]: from a state and a world that satisfy [P], [m] ends in
    [Q] when it returns and in [X] when it raises or has not returned. *)
Definition hoare {Env S A} (P : S -> @World Env -> Prop) (m : @M Env S A)
    (Q : A -> S -> @World Env -> Prop) (X : S -> @World Env -> Prop) : Prop :=
  forall s w, P s w ->
    match m s w with
    | (Ok a, s', w') => Q a s' w'
    | (_, s', w') => X s' w'
    end.

(** [stable I m]: [m] keeps [I], however it ends. *)
Definition stable {Env S A} (I : S -> @World Env -> Prop) (m : @M Env S A) : Prop :=
  hoare I m (fun _ => I) I.

(** An event of a client call of method [m] on [ep]: the call itself or a
    sleep of the transport. *)
Definition api_event (m : method) (ep : endpoint) (ev : event) : Prop :=
  match ev with
  | EvSleep _ => True
  | EvRequest r => rq_method r = m /\ rq_endpoint r = ep
  | EvLedger _ => False
  end.

(** *** Cards and the identifier map *)

(** [card.get(k)] for a card that is a dict. *)
Definition card_field (card : pydict) (k : string) : value :=
  match dict_get k card with Some v => v | None => VNone end.

(** [key] has no entry in the table [kind] of the identifier map. *)
Definition unmapped (kind : string) (key : value) (st : KaitenMigration) : Prop :=
  hashable key = true /\ table_find key (id_map st kind) = None.

(** [key] has the entry [v] in the table [kind]. *)
Definition mapped (kind : string) (key v : value) (st : KaitenMigration) : Prop :=
  hashable key = true /\ table_find key (id_map st kind) = Some v.

(** The state after [self.stats[k]['failed'] += 1]. *)
Definition count_failed (k : stat_kind) (st : KaitenMigration) : KaitenMigration :=
  {| source := source st; target := target st; id_map := id_map st;
     stats := apply_op (IncFailed k) (stats st) |}.

(** The world after a write to [self.stats]. *)
Definition logged {Env} (op : ledger_op) (w : @World Env) : @World Env :=
  {| env := env w; trace := trace w ++ [EvLedger op] |}.

(** [emits allowed m]: whatever [m] adds to the trace, however it ends, is
    made of events that [allowed] admits. *)
Definition emits {Env S A} (allowed : event -> Prop) (m : @M Env S A) : Prop :=
  forall s w, exists new,
    trace (snd (m s w)) = trace w ++ new /\ Forall allowed new.

(** *** The four ways the migration changes its state *)

Definition with_source (api : KaitenAPI) (st : KaitenMigration) : KaitenMigration :=
  {| source := api; target := target st; id_map := id_map st; stats := stats st |}.

Definition with_target (api : KaitenAPI) (st : KaitenMigration) : KaitenMigration :=
  {| source := source st; target := api; id_map := id_map st; stats := stats st |}.

Definition with_entry (kind : string) (t : table) (st : KaitenMigration)
    : KaitenMigration :=
  {| source := source st; target := target st;
     id_map := fun k => if (k =? kind)%string then t else id_map st k;
     stats := stats st |}.

Definition with_op (op : ledger_op) (st : KaitenMigration) : KaitenMigration :=
  {| source := source st; target := target st; id_map := id_map st;
     stats := apply_op op (stats st) |}.

(** Events of the source client: GETs and sleeps. *)
Definition source_event (ev : event) : Prop :=
  match ev with
  | EvSleep _ => True
  | EvRequest r => rq_method r = GET
  | EvLedger _ => False
  end.

(** Events of the target client: POSTs to endpoints in [eps], and sleeps. *)
Definition target_event (eps : endpoint -> Prop) (ev : event) : Prop :=
  match ev with
  | EvSleep _ => True
  | EvRequest r => rq_method r = POST /\ eps (rq_endpoint r)
  | EvLedger _ => False
  end.

(** An assertion that survives what the source client does. *)
Definition source_frame {Env} (I : KaitenMigration -> @World Env -> Prop) : Prop :=
  forall st w api w' new,
    I st w -> trace w' = trace w ++ new -> Forall source_event new ->
    I (with_source api st) w'.

(** An assertion that survives what the target client does on [eps]. *)
Definition target_frame {Env} (eps : endpoint -> Prop)
    (I : KaitenMigration -> @World Env -> Prop) : Prop :=
  forall st w api w' new,
    I st w -> trace w' = trace w ++ new -> Forall (target_event eps) new ->
    I (with_target api st) w'.

(** An assertion that survives a write to the identifier map. *)
Definition map_frame {Env} (I : KaitenMigration -> @World Env -> Prop) : Prop :=
  forall st w kind t, I st w -> I (with_entry kind t st) w.

(** An assertion that survives the writes [ops] to the counters. *)
Definition stat_frame {Env} (ops : ledger_op -> Prop)
    (I : KaitenMigration -> @World Env -> Prop) : Prop :=
  forall st w op, ops op -> I st w -> I (with_op op st) (logged op w).

(** *** Simulated accounts *)

Definition endpoint_eqb (a b : endpoint) : bool :=
  match a, b with
  | EP p, EP q => (p =? q)%string
  | EPf p x s, EPf q y t => (p =? q)%string && key_eqb x y && (s =? t)%string
  | _, _ => false
  end.

Fixpoint lookup_endpoint {A} (ep : endpoint) (l : list (endpoint * A)) : option A :=
  match l with
  | [] => None
  | (ep', a) :: l' => if endpoint_eqb ep ep' then Some a else lookup_endpoint ep l'
  end.

(** A source and a target in one: a GET with limit and offset is served
    from [lists], another GET from [details] (404 when the endpoint is not
    there); the [n]-th call, when it is a POST, creates the object 1000+n. *)
Definition account (lists : list (endpoint * list value))
    (details : list (endpoint * value)) : nat -> http_request -> http_outcome :=
  fun n r =>
    match rq_method r with
    | GET =>
        match page_of_request r with
        | Some (limit, offset) =>
            match lookup_endpoint (rq_endpoint r) lists with
            | Some records => ok_response (VList (slice offset limit records))
            | None => status_response 404
            end
        | None =>
            match lookup_endpoint (rq_endpoint r) details with
            | Some v => ok_response v
            | None => status_response 404
            end
        end
    | POST => ok_response (VDict [("id", VInt (1000 + Z.of_nat n))])
    | _ => status_response 405
    end.

(** Two spaces, the second one archived; each has one board and two cards. *)
Definition two_spaces : nat -> http_request -> http_outcome :=
  account
    [ (EP "/spaces",
       [ VDict [("id", VInt 1); ("title", VStr "Alpha"); ("archived", VBool false)];
         VDict [("id", VInt 2); ("title", VStr "Old"); ("archived", VBool true)] ]);
      (EPf "/spaces/" (VInt 1) "/boards",
       [ VDict [("id", VInt 10); ("title", VStr "Work")] ]);
      (EPf "/spaces/" (VInt 2) "/boards",
       [ VDict [("id", VInt 20); ("title", VStr "Past")] ]);
      (EP "/cards",
       [ VDict [("id", VInt 501); ("title", VStr "a"); ("board_id", VInt 10);
                ("column_id", VInt 100); ("lane_id", VInt 200)];
         VDict [("id", VInt 502); ("title", VStr "b"); ("board_id", VInt 10);
                ("column_id", VInt 100)];
         VDict [("id", VInt 503); ("title", VStr "c"); ("board_id", VInt 20);
                ("column_id", VInt 300)];
         VDict [("id", VInt 504); ("title", VStr "d"); ("board_id", VInt 20);
                ("column_id", VInt 300)] ]) ]
    [ (EPf "/boards/" (VInt 10) "",
       VDict [("id", VInt 10);
              ("columns", VList [VDict [("id", VInt 100); ("title", VStr "Todo")]]);
              ("lanes", VList [VDict [("id", VInt 200); ("title", VStr "Main")]])]) ].

Definition fresh_migration : KaitenMigration :=
  KaitenMigration_init "old" "old-token" "new" "new-token".

(** The state and the world a computation ends in. *)
Definition final_state {Env S A} (x : res A * S * @World Env) : S := snd (fst x).
Definition final_world {Env S A} (x : res A * S * @World Env) : @World Env := snd x.
Definition result_of {Env S A} (x : res A * S * @World Env) : res A := fst (fst x).

(** A write to the counters that leaves [total] of [k] alone. *)
Definition keeps_total (k : stat_kind) (op : ledger_op) : Prop :=
  match op with
  | SetTotal k' _ | AddTotal k' _ => stat_kind_eqb k k' = false
  | _ => True
  end.

(** The POST requests of a trace, by endpoint. *)
Definition posts_of (tr : list event) : list endpoint :=
  flat_map (fun r => match rq_method r with POST => [rq_endpoint r] | _ => [] end)
    (requests_of tr).

(** The total of [k] is [n]. *)
Definition total_is {Env} (k : stat_kind) (n : Z)
    : KaitenMigration -> @World Env -> Prop :=
  fun st _ => total (stats st k) = n.

(** A source that lists the same custom property twice. *)
Definition twin_properties : nat -> http_request -> http_outcome :=
  account
    [ (EP "/custom-properties",
       [ VDict [("id", VInt 7); ("name", VStr "priority")];
         VDict [("id", VInt 7); ("name", VStr "priority")] ]) ]
    [].

(** A migration under way: the board 10 and the column 100 are mapped. *)
Definition board_and_column_mapped : KaitenMigration :=
  with_entry "boards" [(VInt 10, VInt 1010)]
    (with_entry "columns" [(VInt 100, VInt 1100)] fresh_migration).

(** What [migrate_single_card] sends for a card whose lane is dropped. *)
Definition card_without_lane (title : out) (card : pydict) (new_board_id
    new_column_id : value) (properties : list (string * out)) : out :=
  OD ([("title", title); ("description", OV (card_field card "description"));
       ("board_id", OV new_board_id); ("column_id", OV new_column_id);
       ("lane_id", OV VNone);
       ("asap", OV (match dict_get "asap" card with
                    | Some v => v
                    | None => VBool false
                    end));
       ("due_date", OV (card_field card "due_date"));
       ("size_text", OV (card_field card "size_text"))] ++ properties).

(** The trace begins with [pre], as far as requests go. *)
Definition requests_begin {Env S} (pre : list http_request) : S -> @World Env -> Prop :=
  fun _ w => exists more, requests_of (trace w) = pre ++ more.

(** A card of board 10 and column 100, in the lane 200. *)
Definition card_in_lane : pydict :=
  [("id", VInt 501); ("title", VStr "a"); ("board_id", VInt 10);
   ("column_id", VInt 100); ("lane_id", VInt 200)].

(** A card of a board that was not migrated. *)
Definition orphan_card : pydict :=
  [("id", VInt 503); ("title", VStr "c"); ("board_id", VInt 20);
   ("column_id", VInt 300)].

(** *** The order of creation *)

(** What a POST creates, by its endpoint. *)
Inductive creation : Type :=
| CProperty | CTag | CSpace | CBoard | CColumn | CLane | CCard | CCardTag
| CComment | CChecklist | CChecklistItem | CRelation | COther.

Definition creation_of (ep : endpoint) : creation :=
  match ep with
  | EP p =>
      if (p =? "/custom-properties")%string then CProperty
      else if (p =? "/tags")%string then CTag
      else if (p =? "/spaces")%string then CSpace
      else if (p =? "/boards")%string then CBoard
      else if (p =? "/columns")%string then CColumn
      else if (p =? "/lanes")%string then CLane
      else if (p =? "/cards")%string then CCard
      else if (p =? "/card-comments/add-comment")%string then CComment
      else if (p =? "/card-checklists")%string then CChecklist
      else if (p =? "/card-checklist-items")%string then CChecklistItem
      else COther
  | EPf pre _ post =>
      if (pre =? "/cards/")%string && (post =? "/tags")%string then CCardTag
      else if (pre =? "/cards/")%string && (post =? "/children")%string then CRelation
      else COther
  end.

(** The place of a kind in the dependency order: custom properties, tags,
    spaces with their boards, columns and lanes, cards with their tags,
    comments, checklists with their items, relations. *)
Definition phase (c : creation) : nat :=
  match c with
  | CProperty => 1
  | CTag => 2
  | CSpace | CBoard | CColumn | CLane => 3
  | CCard | CCardTag => 4
  | CComment => 5
  | CChecklist | CChecklistItem => 6
  | CRelation => 7
  | COther => 0
  end.

(** The creation calls of a trace, in order. *)
Definition creations (tr : list event) : list creation :=
  map creation_of (posts_of tr).

(** No creation call of a later kind precedes one of an earlier kind, and
    every creation call is of a kind of the phases 1 to [i]. *)
Definition in_order (i : nat) (cs : list creation) : Prop :=
  StronglySorted le (map phase cs)
  /\ Forall (fun c => (1 <= phase c <= i)%nat) cs.

Definition created_in_order {Env} (i : nat) : KaitenMigration -> @World Env -> Prop :=
  fun _ w => in_order i (creations (trace w)).

(** The endpoints of the phase [i]. *)
Definition endpoint_of_phase (i : nat) (ep : endpoint) : Prop :=
  phase (creation_of ep) = i.

(** A world in which nothing has happened yet. *)
Definition fresh_world {Env} (e : Env) : @World Env := {| env := e; trace := [] |}.

(** *** The history of the counters *)




(** The writes the migration makes, in the order of its stages: an
    assignment of a total opens the stage of custom properties (1), tags
    (3), spaces (5) and cards (7); the other writes of a stage follow it. *)
Definition op_rank (op : ledger_op) : nat :=
  match op with
  | SetTotal CustomProperties _ => 1
  | IncMigrated CustomProperties | IncFailed CustomProperties => 2
  | SetTotal Tags _ => 3
  | IncMigrated Tags | IncFailed Tags => 4
  | SetTotal Spaces _ => 5
  | IncMigrated Spaces | IncFailed Spaces => 6
  | AddTotal Boards _ | IncMigrated Boards | IncFailed Boards => 6
  | SetTotal Cards _ => 7
  | IncMigrated Cards | IncFailed Cards => 8
  | AddTotal Comments _ | IncMigrated Comments | IncFailed Comments => 9
  | AddTotal Checklists _ | IncMigrated Checklists | IncFailed Checklists => 10
  | _ => 0
  end.








(** Two active spaces with one board each. *)
Definition two_active_spaces : nat -> http_request -> http_outcome :=
  account
    [ (EP "/spaces",
       [ VDict [("id", VInt 1); ("title", VStr "Alpha")];
         VDict [("id", VInt 2); ("title", VStr "Beta")] ]);
      (EPf "/spaces/" (VInt 1) "/boards",
       [ VDict [("id", VInt 10); ("title", VStr "Work")] ]);
      (EPf "/spaces/" (VInt 2) "/boards",
       [ VDict [("id", VInt 20); ("title", VStr "Home")] ]) ]
    [].

(** *** Children under their parent *)

(** A board is created under a space, a column and a lane under a board,
    the columns of a board before its lanes: [prev] is the creation call
    made just before [c]. *)
Definition under_parent (prev : option creation) (c : creation) : bool :=
  match c with
  | CBoard =>
      match prev with
      | Some CSpace | Some CBoard | Some CColumn | Some CLane => true
      | _ => false
      end
  | CColumn =>
      match prev with
      | Some CBoard | Some CColumn => true
      | _ => false
      end
  | CLane =>
      match prev with
      | Some CBoard | Some CColumn | Some CLane => true
      | _ => false
      end
  | _ => true
  end.

Fixpoint nested_from (prev : option creation) (cs : list creation) : bool :=
  match cs with
  | [] => true
  | c :: cs' => under_parent prev c && nested_from (Some c) cs'
  end.

(** The last creation call of [cs], or [prev] when there is none. *)
Definition last_created (prev : option creation) (cs : list creation)
    : option creation :=
  fold_left (fun _ c => Some c) cs prev.

(** The creation calls so far are nested, and [J] holds of the last one. *)
Definition nested {Env} (J : option creation -> Prop)
    : KaitenMigration -> @World Env -> Prop :=
  fun _ w =>
    nested_from None (creations (trace w)) = true
    /\ J (last_created None (creations (trace w))).

(** [c] may be created next. *)
Definition ready (c : creation) : option creation -> Prop :=
  fun prev => under_parent prev c = true.

(** [c] has just been created. *)
Definition just (c : creation) : option creation -> Prop :=
  fun prev => prev = Some c.

Definition anything : option creation -> Prop := fun _ => True.

(** The endpoint that creates [c]. *)
Definition creates (c : creation) : endpoint -> Prop :=
  fun ep => creation_of ep = c.

(** An endpoint whose objects have no parent to wait for. *)
Definition parentless (ep : endpoint) : Prop :=
  forall prev, under_parent prev (creation_of ep) = true.

From Stdlib Require Import DecimalString.

(** * Further properties of the two programs *)

(** ** More vocabulary: the transport *)







(** ** More vocabulary: the paginator *)

(** The first page request of [get_paginated]. *)
Definition first_page_request (api : KaitenAPI) (ep : endpoint)
    (params : option pydict) (limit : Z) : http_request :=
  mk_request api GET ep (KwParams (Some (page_params (params_or_empty params) limit 0))).

(** The world answers [r] with the status 200 and a body that parses to [v]. *)
Definition answers {Env} {E : Environment Env} (r : http_request) (v : value) : Prop :=
  forall e : Env, exists resp,
    fst (requests_request r e) = Responds resp
    /\ status_code resp = 200 /\ text resp <> ""
    /\ json resp = Some v.

(** A page request of [get_paginated] on behalf of [api]: a GET of [ep]
    that carries the caller's parameters, the page size and an offset that
    is a multiple of the page size. *)
Definition page_request (api : KaitenAPI) (ep : endpoint) (params : pydict)
    (limit : Z) (r : http_request) : Prop :=
  rq_method r = GET /\ rq_endpoint r = ep
  /\ rq_base_url r = domain api /\ rq_token r = token api
  /\ exists (p : pydict) (j : nat),
       rq_kwargs r = KwParams (Some p)
       /\ dict_get "limit" p = Some (VInt limit)
       /\ dict_get "offset" p = Some (VInt (Z.of_nat j * limit))
       /\ forall key, key <> "limit" -> key <> "offset" ->
            dict_get key p = dict_get key params.

(** A source that answers every call with the same JSON value. *)
Definition always (v : value) : nat -> http_request -> http_outcome :=
  fun _ _ => ok_response v.

(** ** More vocabulary: the two accounts *)

(** A request made in the name of the client [api]: to its address, with
    its token. *)
Definition sent_by (api : KaitenAPI) (r : http_request) : Prop :=
  rq_base_url r = domain api /\ rq_token r = token api.

(** A read of the account of [src] or a creation in the account of [tgt]. *)
Definition read_or_create (src tgt : KaitenAPI) (r : http_request) : Prop :=
  (rq_method r = GET /\ sent_by src r) \/ (rq_method r = POST /\ sent_by tgt r).

(** Since the trace was [tr0], the migration has only read the account of
    [src] and created in the account of [tgt], and its two clients are still
    those of [src] and [tgt]. *)
Definition reads_and_creates {Env} (src tgt : KaitenAPI) (tr0 : list event)
    : KaitenMigration -> @World Env -> Prop :=
  fun st w =>
    (domain (source st) = domain src /\ token (source st) = token src)
    /\ (domain (target st) = domain tgt /\ token (target st) = token tgt)
    /\ exists new,
         trace w = tr0 ++ new /\ Forall (read_or_create src tgt) (requests_of new).

(** ** More vocabulary: what a function leaves alone *)

(** The counters are [s]. *)
Definition stats_are {Env} (s : ledger) : KaitenMigration -> @World Env -> Prop :=
  fun st _ => stats st = s.

(** The identifier map is [m]. *)
Definition id_map_is {Env} (m : string -> table)
    : KaitenMigration -> @World Env -> Prop :=
  fun st _ => id_map st = m.

(** ** More vocabulary: records that cannot be migrated *)


(** A source whose first custom property has no ['id']. *)
Definition nameless_property : nat -> http_request -> http_outcome :=
  account
    [ (EP "/custom-properties",
       [ VDict [("name", VStr "priority")];
         VDict [("id", VInt 8); ("name", VStr "size")] ]);
      (EP "/tags", [ VDict [("id", VInt 1); ("name", VStr "bug")] ]) ]
    [].

(** A GET of [ep]. *)
Definition get_of (ep : endpoint) (r : http_request) : Prop :=
  rq_method r = GET /\ rq_endpoint r = ep.

(** ** More vocabulary: the balance of the counters *)

Definition zero_counters : counters := {| total := 0; migrated := 0; failed := 0 |}.

(** The number of records of kind [k] whose outcome has been counted. *)
Definition settled (st : KaitenMigration) (k : stat_kind) : Z :=
  migrated (stats st k) + failed (stats st k).

(** The counters of [k] are [c]. *)
Definition kind_is {Env} (k : stat_kind) (c : counters)
    : KaitenMigration -> @World Env -> Prop :=
  fun st _ => stats st k = c.

(** A write to the counters of another kind than [k]. *)
Definition other_kind (k : stat_kind) (op : ledger_op) : Prop :=
  stat_kind_eqb k (ledger_op_kind op) = false.

(** Ways to compare the outcomes counted with the total: [=] and [<=]. *)
Class Tally (R : Z -> Z -> Prop) : Prop := {
  tally_le : forall x y, R x y -> x <= y;
  tally_refl : forall x, R x x;
  tally_add : forall x y n, R x y -> R (x + n) (y + n)
}.

(** [r] records of kind [k] are still to be counted: with them, the
    outcomes counted make up the total (when [R] is [=]) or do not exceed it
    (when [R] is [<=]). *)
Definition owes {Env} (R : Z -> Z -> Prop) (k : stat_kind) (r : Z)
    : KaitenMigration -> @World Env -> Prop :=
  fun st _ => 0 <= r /\ R (settled st k + r) (total (stats st k)).

(** No more outcomes are counted than records were found. *)
Definition within {Env} (k : stat_kind) : KaitenMigration -> @World Env -> Prop :=
  fun st _ => settled st k <= total (stats st k).

(** The counters are all zero, as [KaitenMigration.__init__] leaves them. *)
Definition fresh_counters (st : KaitenMigration) : Prop :=
  forall k, stats st k = zero_counters.

(** Every record found has been counted, migrated or failed; for the
    spaces, which are not counted when they are archived, no more than were
    found. *)
Definition balanced (st : KaitenMigration) : Prop :=
  (forall k, k <> Spaces -> settled st k = total (stats st k))
  /\ settled st Spaces <= total (stats st Spaces).

(** ** kaiten_dsl_engine.py: the client and the engine

    The configuration the engine applies is a value as [yaml.safe_load]
    returns it, within the values of this development: [None], booleans,
    numbers (the number 1.0 is the number 1), strings, lists, and dicts with
    string keys.  What the interpreter and its libraries decide is an
    interface, [Host]: the environment variables, [str] on a value that is
    not a [str], and the exception [response.json()] raises on a body that
    is not JSON. *)

Class Host : Type := {
  environ_get : string -> option string;   (* os.environ.get(name); [None]: not set *)
  py_str : value -> string;                (* str(v), for [v] that is not a str *)
  json_error : exn
}.

Module Engine.

(** [requests.exceptions.RequestException] and its subclasses *)
Definition is_request_exception (e : exn) : bool :=
  match e with
  | HTTPError | RequestException => true
  | _ => false
  end.

(** The mock data of the dry-run mode. *)
Definition mock : value :=
  VDict [("id", VInt 999); ("title", VStr "mock"); ("name", VStr "mock")].

Definition mk_request (api : DSL.KaitenAPI) (m : method) (ep : endpoint) (kw : kwargs)
    : http_request :=
  {| rq_method := m; rq_base_url := DSL.domain api; rq_endpoint := ep;
     rq_token := DSL.token api; rq_kwargs := kw |}.

(** [try: m  except requests.exceptions.RequestException: handler] *)
Definition try_except_only {Env S A} (catches : exn -> bool) (m : @M Env S A)
    (handler : exn -> @M Env S A) : @M Env S A :=
  fun s w =>
    match m s w with
    | (Raise e, s', w') => if catches e then handler e s' w' else (Raise e, s', w')
    | r => r
    end.

Section Client.

Context {Env : Type} {E : Environment Env} {H : Host}.

(** [KaitenAPI.request] *)
Fixpoint request (fuel : nat) (m : method) (ep : endpoint) (kw : kwargs)
    {struct fuel} : @M Env DSL.KaitenAPI value :=
  api <- get_state ;;
  if DSL.dry_run api then ret mock
  else
    match fuel with
    | O => out_of_fuel
    | S fuel' =>
        DSL._rate_limit ;;
        api <- get_state ;;
        try_except_only is_request_exception
          (outcome <- call_request (mk_request api m ep kw) ;;
           match outcome with
           | Fails e => raise e
           | Responds response =>
               if status_code response =? 429 then
                 call_sleep 2 ;;
                 request fuel' m ep kw
               else if is_error_status (status_code response) then raise HTTPError
               else if (text response =? "")%string then ret (VDict [])
               else match json response with
                    | Some v => ret v
                    | None => raise json_error
                    end
           end)
          (fun _ => ret VNone)
    end.

Definition get (fuel : nat) (ep : endpoint) (params : option pydict) :=
  request fuel GET ep (KwParams params).

Definition post (fuel : nat) (ep : endpoint) (data : out) :=
  request fuel POST ep (KwJson data).

Definition patch (fuel : nat) (ep : endpoint) (data : out) :=
  request fuel PATCH ep (KwJson data).

Definition delete (fuel : nat) (ep : endpoint) :=
  request fuel DELETE ep KwNone.

End Client.

(** *** Strings: what [resolve_variables] and [_build_actions] do to them *)

(** The text before the first ["}"] and the text after it; nothing when
    there is no ["}"], or, with [stop_colon], when a [":"] comes first. *)
Fixpoint until_brace (stop_colon : bool) (s : string) : option (string * string) :=
  match s with
  | EmptyString => None
  | String c s' =>
      if Ascii.eqb c "}"%char then Some (EmptyString, s')
      else if stop_colon && Ascii.eqb c ":"%char then None
      else match until_brace stop_colon s' with
           | Some (name, rest) => Some (String c name, rest)
           | None => None
           end
  end.

Fixpoint drop (n : nat) (s : string) : string :=
  match n, s with
  | O, _ => s
  | S n', String _ s' => drop n' s'
  | S _, EmptyString => EmptyString
  end.

(** A match of [r'\$\{env:([^}]+)\}'] at the start of [s]: its group 1. *)
Definition match_env (s : string) : option string :=
  if String.prefix "${env:" s then
    match until_brace false (drop 6 s) with
    | Some (name, _) => if (name =? "")%string then None else Some name
    | None => None
    end
  else None.

(** A match of [r'\$\{([^}:]+)\}'] at the start of [s]: its group 1. *)
Definition match_ctx (s : string) : option string :=
  if String.prefix "${" s then
    match until_brace true (drop 2 s) with
    | Some (name, _) => if (name =? "")%string then None else Some name
    | None => None
    end
  else None.

Definition env_text (name : string) : string := "${env:" ++ name ++ "}".
Definition ctx_text (name : string) : string := "${" ++ name ++ "}".

(** [re.finditer]: the matches of a pattern in [s], from left to right
    without overlap, each by its group 1; [text] gives the matched text and
    [skip] counts the characters of a match still to pass. *)
Fixpoint find_all (match_at : string -> option string) (text : string -> string)
    (skip : nat) (s : string) : list string :=
  match s with
  | EmptyString => []
  | String _ s' =>
      match skip with
      | S k => find_all match_at text k s'
      | O =>
          match match_at s with
          | Some name =>
              name :: find_all match_at text (String.length (text name) - 1) s'
          | None => find_all match_at text 0 s'
          end
      end
  end.

(** [s.replace(old, new)] for a non-empty [old]. *)
Fixpoint replace_all (old new : string) (skip : nat) (s : string) : string :=
  match s with
  | EmptyString => EmptyString
  | String c s' =>
      match skip with
      | S k => replace_all old new k s'
      | O =>
          if String.prefix old s
          then new ++ replace_all old new (String.length old - 1) s'
          else String c (replace_all old new 0 s')
      end
  end.

(** [str.isspace] on one character *)
Definition is_space (c : ascii) : bool :=
  let n := nat_of_ascii c in
  ((9 <=? n) && (n <=? 13) || (28 <=? n) && (n <=? 32) || (n =? 133) || (n =? 160))%nat.

Fixpoint lstrip (s : string) : string :=
  match s with
  | EmptyString => EmptyString
  | String c s' => if is_space c then lstrip s' else s
  end.

Fixpoint rstrip (s : string) : string :=
  match s with
  | EmptyString => EmptyString
  | String c s' =>
      match rstrip s' with
      | EmptyString => if is_space c then EmptyString else String c EmptyString
      | t => String c t
      end
  end.

(** [s.strip()] *)
Definition strip (s : string) : string := rstrip (lstrip s).

(** [s.split(':', 1)] when it has two parts. *)
Fixpoint split_colon (s : string) : option (string * string) :=
  match s with
  | EmptyString => None
  | String c s' =>
      if Ascii.eqb c ":"%char then Some (EmptyString, s')
      else match split_colon s' with
           | Some (a, b) => Some (String c a, b)
           | None => None
           end
  end.

(** *** The engine *)

Record ExecutionContext : Type := {
  ctx_dry_run : bool;
  created_ids : string -> table;     (* the seven tables of created identifiers *)
  variables : pydict
}.

(** [ExecutionContext(dry_run=dry_run)] *)
Definition ExecutionContext_init (dry_run : bool) : ExecutionContext :=
  {| ctx_dry_run := dry_run; created_ids := fun _ => []; variables := [] |}.

Record KaitenDSLEngine : Type := {
  api : DSL.KaitenAPI;
  context : ExecutionContext
}.

(** [KaitenDSLEngine.validate_config] *)
Definition validate_config (config : value) : res bool :=
  match py_contains "version" config with
  | Ok true =>
      match py_contains "kaiten" config with
      | Ok true =>
          match py_index config "version" with
          | Ok version =>
              Ok (key_eqb version (VStr "1.0") || key_eqb version (VInt 1))
          | Raise e => Raise e
          | OutOfFuel => OutOfFuel
          end
      | Ok false => Ok false
      | Raise e => Raise e
      | OutOfFuel => OutOfFuel
      end
  | Ok false => Ok false
  | Raise e => Raise e
  | OutOfFuel => OutOfFuel
  end.

(** [mapping.get(key, default)] on a dict display with [str] keys *)
Definition lookup_default (mapping : list (string * value)) (key default : value)
    : res value :=
  if hashable key then
    Ok (match key with
        | VStr s => match dict_get s mapping with Some v => v | None => default end
        | _ => default
        end)
  else Raise TypeError.

(** [KaitenDSLEngine._map_property_type] *)
Definition _map_property_type (dsl_type : value) : res value :=
  lookup_default
    [("string", VStr "string"); ("text", VStr "string"); ("number", VStr "number");
     ("date", VStr "date"); ("email", VStr "email"); ("phone", VStr "phone");
     ("select", VStr "select"); ("multiselect", VStr "multiselect");
     ("catalog", VStr "catalog"); ("user", VStr "user");
     ("checkbox", VStr "checkbox")]
    dsl_type (VStr "string").

(** [KaitenDSLEngine._map_column_type] *)
Definition _map_column_type (dsl_type : value) : res value :=
  lookup_default [("queue", VInt 1); ("in_progress", VInt 2); ("done", VInt 3)]
    dsl_type (VInt 1).

(** [{'type': t, **params}] *)
Definition with_params (t : value) (params : pydict) : pydict :=
  fold_left (fun acc kv => dict_set (fst kv) (snd kv) acc) params [("type", t)].

(** [KaitenDSLEngine._build_trigger] *)
Definition _build_trigger (auto : value) : res value :=
  match py_get_default (fun v => v) auto "trigger" (VStr "card_moved_to") with
  | Ok trigger_type =>
      match lookup_default
              [("card_moved_to", VStr "card_moved_to");
               ("card_created", VStr "card_created");
               ("comment_added", VStr "comment_added");
               ("field_changed", VStr "field_changed")]
              trigger_type trigger_type with
      | Ok t =>
          match py_get_default (fun v => v) auto "trigger_params" (VDict []) with
          | Ok (VDict params) => Ok (VDict (with_params t params))
          | Ok _ => Raise TypeError
          | Raise e => Raise e
          | OutOfFuel => OutOfFuel
          end
      | Raise e => Raise e
      | OutOfFuel => OutOfFuel
      end
  | Raise e => Raise e
  | OutOfFuel => OutOfFuel
  end.

(** What one element of [actions] adds to the result of [_build_actions]. *)
Definition build_action (action : value) : list value :=
  match action with
  | VDict d => [VDict d]
  | VStr s =>
      match split_colon s with
      | Some (a, b) => [VDict [("type", VStr (strip a)); ("value", VStr (strip b))]]
      | None => []
      end
  | _ => []
  end.

(** [KaitenDSLEngine._build_actions] *)
Definition _build_actions (actions : value) : res value :=
  match py_iter actions with
  | Ok items => Ok (VList (flat_map build_action items))
  | Raise e => Raise e
  | OutOfFuel => OutOfFuel
  end.

(** [KaitenDSLEngine._build_conditions] *)
Definition _build_conditions (conditions : value) : value := conditions.

Section Engine.

Context {Env : Type} {E : Environment Env} {H : Host}.

(** The text of a value in an f-string. *)
Definition str_of (v : value) : string :=
  match v with
  | VStr s => s
  | _ => py_str v
  end.

(** [KaitenDSLEngine.resolve_variables], for the variables [vars] of the
    context. *)
Definition resolve_value (vars : pydict) (v : value) : value :=
  match v with
  | VStr s =>
      let s1 :=
        fold_left
          (fun acc name =>
             replace_all (env_text name)
               (match environ_get name with Some x => x | None => "" end) 0 acc)
          (find_all match_env env_text 0 s) s in
      let s2 :=
        fold_left
          (fun acc name =>
             replace_all (ctx_text name)
               (str_of (match dict_get name vars with
                        | Some x => x
                        | None => VStr ""
                        end)) 0 acc)
          (find_all match_ctx ctx_text 0 s1) s1 in
      VStr s2
  | _ => v
  end.

Definition on_api {A} (m : @M Env DSL.KaitenAPI A) : @M Env KaitenDSLEngine A :=
  fun st w =>
    let '(r, a, w') := m (api st) w in
    (r, {| api := a; context := context st |}, w').

Definition resolve_variables (v : value) : @M Env KaitenDSLEngine value :=
  st <- get_state ;;
  ret (resolve_value (variables (context st)) v).

(** [self.context.created_ids[kind].get(key)] *)
Definition created_get (kind : string) (key : value) : @M Env KaitenDSLEngine value :=
  st <- get_state ;;
  lift_res (table_get key (created_ids (context st) kind)).

(** [self.context.created_ids[kind][key] = v] *)
Definition created_set (kind : string) (key v : value) : @M Env KaitenDSLEngine unit :=
  st <- get_state ;;
  t <- lift_res (table_set key v (created_ids (context st) kind)) ;;
  put_state
    {| api := api st;
       context :=
         {| ctx_dry_run := ctx_dry_run (context st);
            created_ids := fun k => if (k =? kind)%string then t
                                    else created_ids (context st) k;
            variables := variables (context st) |} |}.

(** [if key in record: data[key] = record[key]]: the field added. *)
Definition optional_field (record : value) (key : string)
    : @M Env KaitenDSLEngine (list (string * out)) :=
  present <- lift_res (py_contains key record) ;;
  if present then
    v <- lift_res (py_index record key) ;;
    ret [(key, OV v)]
  else ret [].

(** [if result and 'id' in result: created_ids[kind][key] = result['id']] *)
Definition remember (kind : string) (key result : value) : @M Env KaitenDSLEngine unit :=
  ok <- lift_res (has_id result) ;;
  if ok then
    new_id <- lift_res (py_index result "id") ;;
    created_set kind key new_id
  else ret tt.

(** The loop body of [apply_custom_properties]. *)
Definition apply_custom_property (fuel : nat) (prop : value)
    : @M Env KaitenDSLEngine unit :=
  name <- lift_res (py_index prop "name") ;;
  name <- resolve_variables name ;;
  prop_type <- lift_res (py_get_default (fun v => v) prop "type" (VStr "string")) ;;
  type <- lift_res (_map_property_type prop_type) ;;
  settings <- optional_field prop "settings" ;;
  catalog_fields <- optional_field prop "catalog_fields" ;;
  result <- on_api (post fuel (EP "/custom-properties")
                      (OD ([("name", OV name); ("type", OV type)]
                           ++ settings ++ catalog_fields))) ;;
  remember "properties" name result.

Definition apply_custom_properties (fuel : nat) (properties : value)
    : @M Env KaitenDSLEngine unit :=
  properties <- lift_res (py_iter properties) ;;
  for_each properties (apply_custom_property fuel).

(** The loop body of [apply_tags]. *)
Definition apply_tag (fuel : nat) (tag : value) : @M Env KaitenDSLEngine unit :=
  name <- lift_res (py_index tag "name") ;;
  name <- resolve_variables name ;;
  color <- lift_res (py_get_default (fun v => v) tag "color" (VStr "#808080")) ;;
  result <- on_api (post fuel (EP "/tags")
                      (OD [("name", OV name); ("color", OV color)])) ;;
  remember "tags" name result.

Definition apply_tags (fuel : nat) (tags : value) : @M Env KaitenDSLEngine unit :=
  tags <- lift_res (py_iter tags) ;;
  for_each tags (apply_tag fuel).

(** The loop body of [apply_card_types]. *)
Definition apply_card_type (fuel : nat) (card_type : value)
    : @M Env KaitenDSLEngine unit :=
  name <- lift_res (py_index card_type "name") ;;
  name <- resolve_variables name ;;
  color <- lift_res (py_get_default (fun v => v) card_type "color" (VStr "#808080")) ;;
  result <- on_api (post fuel (EP "/card-types")
                      (OD [("title", OV name); ("color", OV color)])) ;;
  remember "card_types" name result.

Definition apply_card_types (fuel : nat) (card_types : value)
    : @M Env KaitenDSLEngine unit :=
  card_types <- lift_res (py_iter card_types) ;;
  for_each card_types (apply_card_type fuel).

(** [enumerate(l)] *)
Definition enumerate (l : list value) : list (Z * value) :=
  combine (map Z.of_nat (seq 0 (List.length l))) l.

(** The loop body of [apply_columns]. *)
Definition apply_column (fuel : nat) (board_id : value) (board_key : string)
    (item : Z * value) : @M Env KaitenDSLEngine unit :=
  let (i, column) := item in
  col_name <- lift_res (py_index column "name") ;;
  col_name <- resolve_variables col_name ;;
  col_type <- lift_res (py_get_default (fun v => v) column "type" (VStr "queue")) ;;
  col_type <- lift_res (_map_column_type col_type) ;;
  wip_limit <- optional_field column "wip_limit" ;;
  result <- on_api (post fuel (EP "/columns")
                      (OD ([("board_id", OV board_id); ("title", OV col_name);
                            ("type", OV col_type); ("sort_order", OV (VInt i))]
                           ++ wip_limit))) ;;
  remember "columns" (VStr (board_key ++ "." ++ str_of col_name)) result.

Definition apply_columns (fuel : nat) (columns board_id : value) (board_key : string)
    : @M Env KaitenDSLEngine unit :=
  columns <- lift_res (py_iter columns) ;;
  for_each (enumerate columns) (apply_column fuel board_id board_key).

(** The loop body of [apply_lanes]. *)
Definition apply_lane (fuel : nat) (board_id : value) (board_key : string)
    (item : Z * value) : @M Env KaitenDSLEngine unit :=
  let (i, lane) := item in
  lane_name <- lift_res (py_index lane "name") ;;
  lane_name <- resolve_variables lane_name ;;
  result <- on_api (post fuel (EP "/lanes")
                      (OD [("board_id", OV board_id); ("title", OV lane_name);
                           ("sort_order", OV (VInt i))])) ;;
  remember "lanes" (VStr (board_key ++ "." ++ str_of lane_name)) result.

Definition apply_lanes (fuel : nat) (lanes board_id : value) (board_key : string)
    : @M Env KaitenDSLEngine unit :=
  lanes <- lift_res (py_iter lanes) ;;
  for_each (enumerate lanes) (apply_lane fuel board_id board_key).

(** The loop body of [apply_boards]. *)
Definition apply_board (fuel : nat) (space_id space_name board : value)
    : @M Env KaitenDSLEngine unit :=
  board_name <- lift_res (py_index board "name") ;;
  board_name <- resolve_variables board_name ;;
  description <- lift_res (py_get_default (fun v => v) board "description" (VStr "")) ;;
  description <- resolve_variables description ;;
  result <- on_api (post fuel (EP "/boards")
                      (OD [("title", OV board_name); ("description", OV description);
                           ("space_id", OV space_id)])) ;;
  ok <- lift_res (has_id result) ;;
  if ok then
    board_id <- lift_res (py_index result "id") ;;
    let board_key := (str_of space_name ++ "." ++ str_of board_name)%string in
    created_set "boards" (VStr board_key) board_id ;;
    has_columns <- lift_res (py_contains "columns" board) ;;
    (if has_columns then
       columns <- lift_res (py_index board "columns") ;;
       apply_columns fuel columns board_id board_key
     else ret tt) ;;
    has_lanes <- lift_res (py_contains "lanes" board) ;;
    (if has_lanes then
       lanes <- lift_res (py_index board "lanes") ;;
       apply_lanes fuel lanes board_id board_key
     else ret tt)
  else ret tt.

Definition apply_boards (fuel : nat) (boards space_id space_name : value)
    : @M Env KaitenDSLEngine unit :=
  boards <- lift_res (py_iter boards) ;;
  for_each boards (apply_board fuel space_id space_name).

(** The loop body of [apply_spaces]. *)
Definition apply_space (fuel : nat) (space : value) : @M Env KaitenDSLEngine unit :=
  space_name <- lift_res (py_index space "name") ;;
  space_name <- resolve_variables space_name ;;
  access <- lift_res (py_get_default (fun v => v) space "access" (VStr "private")) ;;
  result <- on_api (post fuel (EP "/spaces")
                      (OD [("title", OV space_name); ("access", OV access)])) ;;
  ok <- lift_res (has_id result) ;;
  if ok then
    space_id <- lift_res (py_index result "id") ;;
    created_set "spaces" space_name space_id ;;
    has_boards <- lift_res (py_contains "boards" space) ;;
    if has_boards then
      boards <- lift_res (py_index space "boards") ;;
      apply_boards fuel boards space_id space_name
    else ret tt
  else ret tt.

Definition apply_spaces (fuel : nat) (spaces : value) : @M Env KaitenDSLEngine unit :=
  spaces <- lift_res (py_iter spaces) ;;
  for_each spaces (apply_space fuel).

(** The loop body of [apply_automations]. *)
Definition apply_automation (fuel : nat) (auto : value) : @M Env KaitenDSLEngine unit :=
  name <- lift_res (py_index auto "name") ;;
  name <- resolve_variables name ;;
  space_name <- lift_res (py_index auto "space") ;;
  space_name <- resolve_variables space_name ;;
  space_id <- created_get "spaces" space_name ;;
  if negb (truthy space_id) then ret tt
  else
    trigger <- lift_res (_build_trigger auto) ;;
    actions <- lift_res (py_get_default (fun v => v) auto "actions" (VList [])) ;;
    actions <- lift_res (_build_actions actions) ;;
    has_conditions <- lift_res (py_contains "conditions" auto) ;;
    conditions <-
      (if has_conditions then
         c <- lift_res (py_index auto "conditions") ;;
         ret [("conditions", OV (_build_conditions c))]
       else ret []) ;;
    on_api (post fuel (EP "/automations")
              (OD ([("space_id", OV space_id); ("title", OV name);
                    ("trigger", OV trigger); ("actions", OV actions)]
                   ++ conditions))) ;;
    ret tt.

Definition apply_automations (fuel : nat) (automations : value)
    : @M Env KaitenDSLEngine unit :=
  automations <- lift_res (py_iter automations) ;;
  for_each automations (apply_automation fuel).

(** The loop over [card['properties'].items()] in [apply_cards]: the
    assignments made to [properties], in order. *)
Fixpoint card_properties (items : pydict)
    : @M Env KaitenDSLEngine (list (value * value)) :=
  match items with
  | [] => ret []
  | (key, v) :: items' =>
      prop_id <- created_get "properties" (VStr key) ;;
      here <- (if truthy prop_id then
                 v <- resolve_variables v ;;
                 ret [(prop_id, v)]
               else ret []) ;;
      rest <- card_properties items' ;;
      ret (here ++ rest)
  end.

(** The loop body of [apply_cards]. *)
Definition apply_card (fuel : nat) (card : value) : @M Env KaitenDSLEngine unit :=
  title <- lift_res (py_index card "title") ;;
  title <- resolve_variables title ;;
  board_ref <- lift_res (py_index card "board") ;;
  board_ref <- resolve_variables board_ref ;;
  column_ref <- lift_res (py_index card "column") ;;
  column_ref <- resolve_variables column_ref ;;
  board_id <- created_get "boards" board_ref ;;
  column_id <- created_get "columns"
                 (VStr (str_of board_ref ++ "." ++ str_of column_ref)) ;;
  if negb (truthy board_id) || negb (truthy column_id) then ret tt
  else
    has_description <- lift_res (py_contains "description" card) ;;
    description <-
      (if has_description then
         d <- lift_res (py_index card "description") ;;
         d <- resolve_variables d ;;
         ret [("description", OV d)]
       else ret []) ;;
    has_properties <- lift_res (py_contains "properties" card) ;;
    properties <-
      (if has_properties then
         p <- lift_res (py_index card "properties") ;;
         match p with
         | VDict items =>
             assigned <- card_properties items ;;
             ret [("properties", OProps assigned)]
         | _ => raise AttributeError
         end
       else ret []) ;;
    on_api (post fuel (EP "/cards")
              (OD ([("title", OV title); ("board_id", OV board_id);
                    ("column_id", OV column_id)] ++ description ++ properties))) ;;
    ret tt.

Definition apply_cards (fuel : nat) (cards : value) : @M Env KaitenDSLEngine unit :=
  cards <- lift_res (py_iter cards) ;;
  for_each cards (apply_card fuel).

(** One turn of the loop over [steps] in [execute]. *)
Definition run_step (step_name : string) (step_func : value -> @M Env KaitenDSLEngine unit)
    (config : value) : @M Env KaitenDSLEngine unit :=
  present <- lift_res (py_contains step_name config) ;;
  if present then
    section <- lift_res (py_index config step_name) ;;
    step_func section
  else ret tt.

(** The steps of [execute], in the order of the list [steps]. *)
Definition steps (fuel : nat) (config : value) : @M Env KaitenDSLEngine unit :=
  run_step "custom_properties" (apply_custom_properties fuel) config ;;
  run_step "tags" (apply_tags fuel) config ;;
  run_step "card_types" (apply_card_types fuel) config ;;
  run_step "spaces" (apply_spaces fuel) config ;;
  run_step "automations" (apply_automations fuel) config ;;
  run_step "cards" (apply_cards fuel) config.

(** [KaitenDSLEngine.execute] *)
Definition execute (fuel : nat) (config : value) : @M Env KaitenDSLEngine bool :=
  try_except
    (valid <- lift_res (validate_config config) ;;
     if negb valid then ret false
     else
       steps fuel config ;;
       ret true)
    (fun _ => ret false).

End Engine.

End Engine.

(** *** A host for running the engine *)

(** No environment variable is set; [str] is given for [None], booleans and
    numbers, the only values the examples format. *)
Definition sim_str (v : value) : string :=
  match v with
  | VNone => "None"
  | VBool true => "True"
  | VBool false => "False"
  | VInt z => NilZero.string_of_int (Z.to_int z)
  | VStr s => s
  | _ => "<object>"
  end.

Definition SimHost : Host :=
  {| environ_get := fun _ => None; py_str := sim_str; json_error := ValueError |}.

(** *** Assertions on runs that end *)

(** [settles I m]: from a state and a world that satisfy [I], [m] returns or
    raises, in a state and a world that satisfy [I]; it does not run out of
    fuel. *)
Definition settles {Env S A} (I : S -> @World Env -> Prop) (m : @M Env S A) : Prop :=
  forall s w, I s w ->
    match m s w with
    | (OutOfFuel, _, _) => False
    | (_, s', w') => I s' w'
    end.

(** The client is [a] and the world is [w0]: nothing has happened. *)
Definition untouched {Env} (a : DSL.KaitenAPI) (w0 : @World Env)
    : Engine.KaitenDSLEngine -> @World Env -> Prop :=
  fun st w => Engine.api st = a /\ w = w0.

(** *** A configuration *)

(** One tag, one space with a board of two columns, and a card in the first
    column. *)
Definition sample_config : value :=
  VDict
    [ ("version", VStr "1.0");
      ("kaiten", VDict [("domain", VStr "acme")]);
      ("cards",
       VList [ VDict [("title", VStr "First"); ("board", VStr "Dev.Work");
                      ("column", VStr "Todo")];
               VDict [("title", VStr "Lost"); ("board", VStr "Dev.Play");
                      ("column", VStr "Todo")] ]);
      ("spaces",
       VList [ VDict [("name", VStr "Dev");
                      ("boards",
                       VList [ VDict [("name", VStr "Work");
                                      ("columns",
                                       VList [ VDict [("name", VStr "Todo")];
                                               VDict [("name", VStr "Done");
                                                      ("type", VStr "done")] ])] ])] ]);
      ("tags", VList [ VDict [("name", VStr "bug")] ]) ].

(** A fresh engine, as [main] builds it. *)
Definition fresh_engine (dry_run : bool) : Engine.KaitenDSLEngine :=
  {| Engine.api := DSL.KaitenAPI_init "acme" "secret" dry_run;
     Engine.context := Engine.ExecutionContext_init dry_run |}.

(** *** Vocabulary of the statements on the engine *)




(** A configuration of an unsupported version. *)
Definition config_v2 : value :=
  VDict [("version", VStr "2.0"); ("kaiten", VDict []);
         ("tags", VList [VDict [("name", VStr "bug")]])].

(** The trigger an automation names, ['card_moved_to'] when it names none. *)
Definition trigger_of (auto : pydict) : value :=
  match dict_get "trigger" auto with
  | Some t => t
  | None => VStr "card_moved_to"
  end.

(** An automation with a trigger of its own and parameters that name a type. *)
Definition sample_automation : pydict :=
  [("name", VStr "assign"); ("space", VStr "Dev"); ("trigger", VStr "card_archived");
   ("trigger_params", VDict [("column", VStr "Done"); ("type", VStr "card_created")])].

(** A transport that raises something other than a [RequestException]. *)
Definition broken : nat -> http_request -> http_outcome :=
  fun _ _ => Fails TypeError.

(** The character [c] does not occur in [s]. *)
Fixpoint lacks (c : ascii) (s : string) : bool :=
  match s with
  | EmptyString => true
  | String c' s' => negb (Ascii.eqb c' c) && lacks c s'
  end.

(** [os.environ.get(name, '')] *)
Definition environ_or_empty {H : Host} (name : string) : string :=
  match environ_get name with
  | Some x => x
  | None => EmptyString
  end.

(** [str(variables.get(name, ''))] *)
Definition variable_text {H : Host} (vars : pydict) (name : string) : string :=
  Engine.str_of (match dict_get name vars with
                 | Some x => x
                 | None => VStr ""
                 end).

(** *** The order in which the engine creates *)

(** The place of an endpoint in the order of [steps]: custom properties,
    tags, card types, spaces with their boards, columns and lanes,
    automations, cards. *)
Definition engine_phase (ep : endpoint) : nat :=
  match ep with
  | EP p =>
      if (p =? "/custom-properties")%string then 1
      else if (p =? "/tags")%string then 2
      else if (p =? "/card-types")%string then 3
      else if (p =? "/spaces")%string then 4
      else if (p =? "/boards")%string then 4
      else if (p =? "/columns")%string then 4
      else if (p =? "/lanes")%string then 4
      else if (p =? "/automations")%string then 5
      else if (p =? "/cards")%string then 6
      else 0
  | EPf _ _ _ => 0
  end%nat.

(** Every request sent so far is a POST to an endpoint of the phases 1 to
    [i], and none to a later phase precedes one to an earlier phase. *)
Definition applied_in_order {Env} (i : nat)
    : Engine.KaitenDSLEngine -> @World Env -> Prop :=
  fun _ w =>
    StronglySorted le (map engine_phase (posts_of (trace w)))
    /\ Forall (fun ep => (1 <= engine_phase ep <= i)%nat) (posts_of (trace w))
    /\ Forall (fun r => rq_method r = POST) (requests_of (trace w)).
(** ** The rate governor: properties *)

Lemma Qltb_lt x y : Qltb x y = true <-> (x < y)%Q.
Proof. unfold Qltb, Qlt. apply Z.ltb_lt. Qed.

Lemma Qltb_ge x y : Qltb x y = false <-> (y <= x)%Q.
Proof. unfold Qltb, Qle. apply Z.ltb_ge. Qed.

Lemma in_window_narrow a : narrow (in_window a).
Proof.
  intros x y Hx Hy. unfold in_window in *.
  apply andb_prop in Hx, Hy. destruct Hx as [_ Hx], Hy as [Hy _].
  apply Qltb_lt in Hx. apply Qle_bool_iff in Hy. lra.
Qed.

Lemma in_window'_narrow a : narrow (in_window' a).
Proof.
  intros x y Hx Hy. unfold in_window' in *.
  apply andb_prop in Hx, Hy. destruct Hx as [_ Hx], Hy as [Hy _].
  apply Qltb_lt in Hy. apply Qle_bool_iff in Hx. lra.
Qed.

Lemma filter_length_le {A} (P R : A -> bool) (l : list A) :
  (forall x, In x l -> P x = true -> R x = true) ->
  (List.length (filter P l) <= List.length (filter R l))%nat.
Proof.
  induction l as [|x l IH]; intros H; simpl; [lia|].
  assert (IH' : (List.length (filter P l) <= List.length (filter R l))%nat)
    by (apply IH; intros y Hy; apply H; right; exact Hy).
  destruct (P x) eqn:HP.
  - rewrite (H x (or_introl eq_refl) HP). simpl. lia.
  - destruct (R x); simpl; lia.
Qed.

Lemma filter_length_bound {A} (P : A -> bool) (l : list A) :
  (List.length (filter P l) <= List.length l)%nat.
Proof.
  induction l as [|x l IH]; simpl; [lia|]. destruct (P x); simpl; lia.
Qed.

#[local] Arguments recent : simpl never.

Lemma recent_length now l : (List.length (recent now l) <= List.length l)%nat.
Proof. apply filter_length_bound. Qed.

Lemma recent_app now l1 l2 : recent now (l1 ++ l2) = recent now l1 ++ recent now l2.
Proof. apply filter_app. Qed.

(** Pruning at a later instant subsumes pruning at an earlier one. *)
Lemma recent_recent c c' l : (c <= c')%Q -> recent c' (recent c l) = recent c' l.
Proof.
  intros Hc. unfold recent. induction l as [|t l IH]; simpl; [reflexivity|].
  destruct (Qltb (c - t) 1) eqn:H1; simpl.
  - rewrite IH. reflexivity.
  - rewrite IH. destruct (Qltb (c' - t) 1) eqn:H2; [|reflexivity].
    apply Qltb_ge in H1. apply Qltb_lt in H2. lra.
Qed.

Lemma recent_head c t l : recent c l = t :: l -> (c - t < 1)%Q.
Proof.
  intros H. assert (Hin : In t (recent c l)) by (rewrite H; left; reflexivity).
  apply filter_In in Hin. destruct Hin as [_ Hin]. apply Qltb_lt in Hin. exact Hin.
Qed.

Lemma recent_In c t l : In t (recent c l) -> (c - t < 1)%Q.
Proof. intros H. apply filter_In in H. apply Qltb_lt. apply H. Qed.

Section RateBound.

Context {Env : Type} {E : Environment Env}.

(** The clock does not run backwards and [time.sleep] lasts at least as long
    as asked: [clock e] is the instant of the world [e]. *)
Variable clock : Env -> Q.
Hypothesis time_time_clock :
  forall e, (clock e <= fst (time_time e))%Q
            /\ (fst (time_time e) <= clock (snd (time_time e)))%Q.
Hypothesis time_sleep_clock :
  forall d e, (clock e + d <= clock (time_sleep d e))%Q.

Lemma governed_init c : governed [] [] c.
Proof. repeat split; simpl; intros; lia. Qed.

(** The invariant survives the passing of time. *)
Lemma governed_later hist ts c c2 :
  (c <= c2)%Q -> governed hist ts c -> governed hist ts c2.
Proof.
  intros Hc (Hlen & Hwin & Hrec). repeat split; trivial.
  intros c' Hc'. apply Hrec. lra.
Qed.

(** One more timestamp [now], taken when at most four recent ones remain. *)
Lemma governed_step hist ts c now kept c1 :
  governed hist ts c ->
  (c <= now)%Q -> (now <= c1)%Q ->
  recent now kept = kept -> recent now ts = recent now kept ->
  (List.length kept <= 4)%nat ->
  governed (hist ++ [now]) (kept ++ [now]) c1.
Proof.
  intros (Hlen & Hwin & Hrec) Hc Hc1 Hkept Hts Hk. repeat split.
  - rewrite length_app. simpl. lia.
  - intros P HP. rewrite filter_app, length_app. simpl.
    destruct (P now) eqn:Hnow; simpl; [|specialize (Hwin P HP); lia].
    assert (H1 : (List.length (filter P hist) <= List.length (recent now hist))%nat).
    { apply filter_length_le. intros x _ Hx. apply Qltb_lt. apply (HP now x Hnow Hx). }
    specialize (Hrec now Hc). rewrite Hts, Hkept in Hrec. lia.
  - intros c' Hc'. rewrite !recent_app, !length_app.
    assert (H1 : recent c' kept = recent c' ts).
    { rewrite <- (recent_recent now c' ts) by lra. rewrite Hts.
      symmetry. apply recent_recent. lra. }
    rewrite H1. specialize (Hrec c' ltac:(lra)). lia.
Qed.

(** The case analysis of one call, shared by the two copies of the
    governor; [ts] is the [request_times] the call starts from. *)
Ltac governor_call hist ts w :=
  pose proof (time_time_clock (env w)) as [Ht1 Ht2];
  destruct (time_time (env w)) as [now e1] eqn:Htime; simpl in *;
  set (ts1 := recent now ts);
  assert (Hlen1 : (List.length ts1 <= 5)%nat)
    by (pose proof (recent_length now ts);
        match goal with G : governed _ _ _ |- _ => destruct G end;
        subst ts1; lia);
  destruct (5 <=? Z.of_nat (List.length ts1)) eqn:Hfull;
  [ apply Z.leb_le in Hfull;
    destruct ts1 as [|t0 rest] eqn:Hts1; [simpl in Hfull; lia|];
    assert (Ht0 : (now - t0 < 1)%Q)
      by (apply (recent_In now t0 ts); fold ts1; rewrite Hts1; left; reflexivity);
    assert (Hs : Qltb 0 (1 - (now - t0) + (5 # 100)) = true)
      by (apply Qltb_lt; lra);
    rewrite Hs; simpl;
    pose proof (time_sleep_clock (1 - (now - t0) + (5 # 100)) e1) as Hsl;
    set (e2 := time_sleep (1 - (now - t0) + (5 # 100)) e1) in *;
    pose proof (time_time_clock e2) as [Hu1 Hu2];
    destruct (time_time e2) as [now2 e3] eqn:Htime2; simpl in *;
    exists now2, (recent now2 (t0 :: rest)); eexists; eexists;
    repeat (split; [reflexivity|]); simpl;
    apply (governed_step hist ts (clock (env w)) now2); trivial;
    [ lra
    | apply recent_recent; lra
    | rewrite <- Hts1; subst ts1; rewrite !recent_recent by lra; reflexivity
    | unfold recent at 1; simpl;
      assert (Hout : Qltb (now2 - t0) 1 = false) by (apply Qltb_ge; lra);
      rewrite Hout;
      pose proof (filter_length_bound (fun t => Qltb (now2 - t) 1) rest);
      simpl in Hlen1; lia ]
  | apply Z.leb_gt in Hfull; simpl;
    exists now, ts1; eexists; eexists;
    repeat (split; [reflexivity|]); simpl;
    apply (governed_step hist ts (clock (env w)) now); trivial;
    [ subst ts1; apply recent_recent; lra
    | subst ts1; rewrite recent_recent by lra; reflexivity
    | lia ] ].

(** One call of the governor: it returns, appends one timestamp and keeps
    the invariant. *)
Lemma _rate_limit_governed hist api w :
  governed hist (request_times api) (clock (env w)) ->
  exists now kept api' w',
    _rate_limit api w = (Ok tt, api', w')
    /\ request_times api' = kept ++ [now]
    /\ request_count api' = request_count api + 1
    /\ governed (hist ++ [now]) (kept ++ [now]) (clock (env w')).
Proof.
  intros G.
  unfold _rate_limit, bind, call_time, get_state, set_request_times, put_state,
    call_sleep, ret, raise; simpl.
  governor_call hist (request_times api) w.
Qed.

Lemma DSL_rate_limit_governed hist api w :
  governed hist (DSL.request_times api) (clock (env w)) ->
  exists now kept api' w',
    DSL._rate_limit api w = (Ok tt, api', w')
    /\ DSL.request_times api' = kept ++ [now]
    /\ governed (hist ++ [now]) (kept ++ [now]) (clock (env w')).
Proof.
  intros G.
  unfold DSL._rate_limit, bind, call_time, get_state, DSL.set_request_times,
    put_state, call_sleep, ret, raise; simpl.
  governor_call hist (DSL.request_times api) w.
Qed.

Lemma admit_many_governed between : forall hist api w,
  Forall (fun f => forall e, (clock e <= clock (f e))%Q) between ->
  governed hist (request_times api) (clock (env w)) ->
  exists snaps api' w',
    admit_many between api w = (Ok snaps, api', w')
    /\ List.length snaps = List.length between
    /\ Forall (fun ts => (List.length ts <= 5)%nat) snaps
    /\ governed (hist ++ recorded snaps) (request_times api') (clock (env w')).
Proof.
  induction between as [|f between IH]; intros hist api w Hmono G.
  - exists [], api, w. simpl. rewrite app_nil_r.
    split; [reflexivity|]. split; [reflexivity|]. split; [constructor|exact G].
  - inversion Hmono as [|? ? Hf Hrest']; subst.
    destruct (_rate_limit_governed hist api w G)
      as (now & kept & api1 & w1 & Hrun & Hts & _ & G1).
    rewrite <- Hts in G1.
    apply (governed_later _ _ _ (clock (f (env w1))) (Hf _)) in G1.
    destruct (IH (hist ++ [now]) api1
                {| env := f (env w1); trace := trace w1 |} Hrest' G1)
      as (snaps & api' & w' & Hrest & Hn & Hall & G').
    exists (request_times api1 :: snaps), api', w'.
    simpl. unfold bind at 1. rewrite Hrun. unfold bind, get_state, elapse, ret.
    rewrite Hrest. split; [reflexivity|]. split; [simpl; lia|]. split.
    + constructor; [|exact Hall]. destruct G1 as [H1 _]. exact H1.
    + rewrite <- app_assoc in G'. unfold recorded in *. simpl in *.
      rewrite Hts, last_last. exact G'.
Qed.

Lemma DSL_admit_many_governed between : forall hist api w,
  Forall (fun f => forall e, (clock e <= clock (f e))%Q) between ->
  governed hist (DSL.request_times api) (clock (env w)) ->
  exists snaps api' w',
    DSL.admit_many between api w = (Ok snaps, api', w')
    /\ List.length snaps = List.length between
    /\ Forall (fun ts => (List.length ts <= 5)%nat) snaps
    /\ governed (hist ++ recorded snaps) (DSL.request_times api') (clock (env w')).
Proof.
  induction between as [|f between IH]; intros hist api w Hmono G.
  - exists [], api, w. simpl. rewrite app_nil_r.
    split; [reflexivity|]. split; [reflexivity|]. split; [constructor|exact G].
  - inversion Hmono as [|? ? Hf Hrest']; subst.
    destruct (DSL_rate_limit_governed hist api w G)
      as (now & kept & api1 & w1 & Hrun & Hts & G1).
    rewrite <- Hts in G1.
    apply (governed_later _ _ _ (clock (f (env w1))) (Hf _)) in G1.
    destruct (IH (hist ++ [now]) api1
                {| env := f (env w1); trace := trace w1 |} Hrest' G1)
      as (snaps & api' & w' & Hrest & Hn & Hall & G').
    exists (DSL.request_times api1 :: snaps), api', w'.
    simpl. unfold bind at 1. rewrite Hrun. unfold bind, get_state, elapse, ret.
    rewrite Hrest. split; [reflexivity|]. split; [simpl; lia|]. split.
    + constructor; [|exact Hall]. destruct G1 as [H1 _]. exact H1.
    + rewrite <- app_assoc in G'. unfold recorded in *. simpl in *.
      rewrite Hts, last_last. exact G'.
Qed.

End RateBound.

(** C1 (rate bound).  On a clock that does not run backwards, with
    [time.sleep] lasting at least as long as asked, any number of
    successive calls of [_rate_limit] on a fresh client return, whatever
    happens in the world between them as long as it does not turn the clock
    back; after each call [request_times] holds at most 5 timestamps; and
    every half-open one-second window, [a <= t < a + 1] or [a < t <= a + 1]
    for any [a], contains at most 5 of the timestamps recorded.  The same
    holds for the governor of the DSL engine. *)
Theorem C1_rate_bound {Env : Type} {E : Environment Env} (clock : Env -> Q)
    (time_time_clock :
       forall e, (clock e <= fst (time_time e))%Q
                 /\ (fst (time_time e) <= clock (snd (time_time e)))%Q)
    (time_sleep_clock :
       forall d e, (clock e + d <= clock (time_sleep d e))%Q)
    (between : list (Env -> Env))
    (between_clock :
       Forall (fun f => forall e, (clock e <= clock (f e))%Q) between)
    (w : World) :
  (forall dom tok,
     exists snaps api' w',
       admit_many between (KaitenAPI_init dom tok) w = (Ok snaps, api', w')
       /\ List.length snaps = List.length between
       /\ Forall (fun ts => (List.length ts <= 5)%nat) snaps
       /\ forall a,
            (List.length (filter (in_window a) (recorded snaps)) <= 5)%nat
            /\ (List.length (filter (in_window' a) (recorded snaps)) <= 5)%nat)
  /\ (forall dom tok dry,
     exists snaps api' w',
       DSL.admit_many between (DSL.KaitenAPI_init dom tok dry) w
         = (Ok snaps, api', w')
       /\ List.length snaps = List.length between
       /\ Forall (fun ts => (List.length ts <= 5)%nat) snaps
       /\ forall a,
            (List.length (filter (in_window a) (recorded snaps)) <= 5)%nat
            /\ (List.length (filter (in_window' a) (recorded snaps)) <= 5)%nat).
Proof.
  split.
  - intros dom tok.
    destruct (admit_many_governed clock time_time_clock time_sleep_clock
                between [] (KaitenAPI_init dom tok) w between_clock
                (governed_init _))
      as (snaps & api' & w' & Hrun & Hn & Hall & _ & Hwin & _).
    exists snaps, api', w'. repeat (split; [assumption|]).
    intros a. simpl in Hwin.
    split; apply Hwin; [apply in_window_narrow | apply in_window'_narrow].
  - intros dom tok dry.
    destruct (DSL_admit_many_governed clock time_time_clock time_sleep_clock
                between [] (DSL.KaitenAPI_init dom tok dry) w between_clock
                (governed_init _))
      as (snaps & api' & w' & Hrun & Hn & Hall & _ & Hwin & _).
    exists snaps, api', w'. repeat (split; [assumption|]).
    intros a. simpl in Hwin.
    split; apply Hwin; [apply in_window_narrow | apply in_window'_narrow].
Qed.

Lemma sim_time_time_clock h (e : Sim) :
  (sim_now e <= fst (time_time (Environment := SimEnvironment h) e))%Q
  /\ (fst (time_time (Environment := SimEnvironment h) e)
      <= sim_now (snd (time_time (Environment := SimEnvironment h) e)))%Q.
Proof. simpl. split; lra. Qed.

Lemma sim_time_sleep_clock h (d : Q) (e : Sim) :
  (sim_now e + d <= sim_now (time_sleep (Environment := SimEnvironment h) d e))%Q.
Proof. simpl. lra. Qed.

Lemma sim_exchanges_clock h :
  Forall (fun f : Sim -> Sim => forall e, (sim_now e <= sim_now (f e))%Q)
         (exchanges h).
Proof.
  unfold exchanges. simpl. repeat constructor; intros e; simpl; lra.
Qed.

Lemma C1_rate_bound_witness :
  (forall dom tok,
     exists snaps api' w',
       admit_many (E := SimEnvironment offline) (exchanges offline)
         (KaitenAPI_init dom tok) sim_world = (Ok snaps, api', w')
       /\ List.length snaps = List.length (exchanges offline)
       /\ Forall (fun ts => (List.length ts <= 5)%nat) snaps
       /\ forall a,
            (List.length (filter (in_window a) (recorded snaps)) <= 5)%nat
            /\ (List.length (filter (in_window' a) (recorded snaps)) <= 5)%nat)
  /\ (forall dom tok dry,
     exists snaps api' w',
       DSL.admit_many (E := SimEnvironment offline) (exchanges offline)
         (DSL.KaitenAPI_init dom tok dry) sim_world = (Ok snaps, api', w')
       /\ List.length snaps = List.length (exchanges offline)
       /\ Forall (fun ts => (List.length ts <= 5)%nat) snaps
       /\ forall a,
            (List.length (filter (in_window a) (recorded snaps)) <= 5)%nat
            /\ (List.length (filter (in_window' a) (recorded snaps)) <= 5)%nat).
Proof.
  apply (C1_rate_bound (E := SimEnvironment offline) sim_now
           (sim_time_time_clock offline) (sim_time_sleep_clock offline)
           (exchanges offline) (sim_exchanges_clock offline)).
Defined.

(** Seven calls in the simulated world: the sixth one sleeps. *)
Example admit_many_7 :
  (let '(r, _, w') := admit_many (E := SimEnvironment offline) (exchanges offline)
                        (KaitenAPI_init "src" "t") sim_world in
   (match r with Ok s => map Qred (recorded s) | _ => [] end,
    List.length (trace w')))
  = ([1#10; 1#5; 3#10; 2#5; 1#2; 5#4; 27#20]%Q, 1%nat).
Proof. vm_compute. reflexivity. Qed.

(** ** The transport client *)

Section TransportFacts.

Context {Env : Type} {E : Environment Env}.

(** The governor always returns; it changes neither the address nor the
    token of the client, and all it adds to the trace is its own sleep. *)
Lemma _rate_limit_total (api : KaitenAPI) (w : World) :
  exists api' w' sl,
    _rate_limit api w = (Ok tt, api', w')
    /\ domain api' = domain api /\ token api' = token api
    /\ trace w' = trace w ++ sl /\ forallb is_sleep sl = true.
Proof.
  unfold _rate_limit, bind, call_time, get_state, set_request_times, put_state,
    call_sleep, ret, raise; simpl.
  destruct (time_time (env w)) as [now e1]. simpl.
  destruct (5 <=? Z.of_nat (List.length (recent now (request_times api)))) eqn:Hfull.
  - destruct (recent now (request_times api)) as [|t0 rest].
    + simpl in Hfull. discriminate.
    + destruct (Qltb 0 (1 - (now - t0) + (5 # 100))).
      * simpl. destruct (time_time _) as [now2 e3]. simpl.
        do 2 eexists. exists [EvSleep (1 - (now - t0) + (5 # 100))].
        repeat split; reflexivity.
      * simpl. do 2 eexists. exists []. rewrite app_nil_r. repeat split; reflexivity.
  - simpl. do 2 eexists. exists []. rewrite app_nil_r. repeat split; reflexivity.
Qed.

Lemma attempt_total m ep kw (api : KaitenAPI) (w : World) :
  exists o api' w' sl,
    attempt m ep kw api w = (Ok o, api', w')
    /\ domain api' = domain api /\ token api' = token api
    /\ trace w' = trace w ++ sl ++ [EvRequest (mk_request api m ep kw)]
    /\ forallb is_sleep sl = true
    /\ exists e, o = fst (requests_request (mk_request api m ep kw) e).
Proof.
  destruct (_rate_limit_total api w) as (api1 & w1 & sl & Hrl & Hd & Ht & Htr & Hsl).
  unfold attempt, bind. rewrite Hrl. unfold get_state, call_request.
  assert (Hreq : mk_request api1 m ep kw = mk_request api m ep kw)
    by (unfold mk_request; rewrite Hd, Ht; reflexivity).
  rewrite Hreq.
  destruct (requests_request _ (env w1)) as [o e2] eqn:Hcall.
  exists o, api1. eexists. exists sl. split; [reflexivity|]. simpl.
  repeat split; trivial.
  - rewrite Htr, <- app_assoc. reflexivity.
  - exists (env w1). rewrite Hcall. reflexivity.
Qed.

(** [_request] in terms of [attempt]. *)
Lemma _request_unfold fuel m ep kw (api : KaitenAPI) (w : World) :
  _request (S fuel) m ep kw api w =
  match attempt m ep kw api w with
  | (Ok (Fails _), api1, w1) => (Ok VNone, api1, w1)
  | (Ok (Responds response), api1, w1) =>
      if status_code response =? 429 then
        match _request fuel m ep kw api1 (slept 2 w1) with
        | (Raise _, api2, w2) => (Ok VNone, api2, w2)
        | r => r
        end
      else if is_error_status (status_code response) then (Ok VNone, api1, w1)
      else if (text response =? "")%string then (Ok (VDict []), api1, w1)
      else match json response with
           | Some v => (Ok v, api1, w1)
           | None => (Ok VNone, api1, w1)
           end
  | (Raise e, api1, w1) => (Raise e, api1, w1)
  | (OutOfFuel, api1, w1) => (OutOfFuel, api1, w1)
  end.
Proof.
  destruct (_rate_limit_total api w) as (api1 & w1 & sl & Hrl & _).
  cbn [_request].
  unfold attempt, bind, get_state, try_except, call_request, raise, ret,
    call_sleep, slept.
  rewrite Hrl.
  destruct (requests_request _ (env w1)) as [[response|e] e2]; [|reflexivity].
  destruct (status_code response =? 429).
  - simpl. destruct (_request fuel m ep kw api1 _) as [[[v|e|] api2] w2]; reflexivity.
  - destruct (is_error_status _); [reflexivity|].
    destruct (text response =? "")%string; [reflexivity|].
    destruct (json response); reflexivity.
Qed.

Lemma requests_of_app tr1 tr2 :
  requests_of (tr1 ++ tr2) = requests_of tr1 ++ requests_of tr2.
Proof. apply flat_map_app. Qed.

Lemma requests_of_sleeps sl : forallb is_sleep sl = true -> requests_of sl = [].
Proof.
  induction sl as [|ev sl IH]; simpl; [reflexivity|].
  intros H. apply andb_prop in H. destruct H as [H1 H2].
  destruct ev; try discriminate. simpl. apply IH. exact H2.
Qed.

(** A request the world answers 200 with a JSON body: [_request] returns
    the body after one call. *)
Lemma _request_served fuel m ep kw (api : KaitenAPI) (w : World) (v : value) :
  (forall e, exists resp,
      fst (requests_request (mk_request api m ep kw) e) = Responds resp
      /\ status_code resp = 200 /\ text resp <> ""
      /\ json resp = Some v) ->
  exists api' w',
    _request (S fuel) m ep kw api w = (Ok v, api', w')
    /\ domain api' = domain api /\ token api' = token api
    /\ requests_of (trace w') = requests_of (trace w) ++ [mk_request api m ep kw].
Proof.
  intros Hserve.
  destruct (attempt_total m ep kw api w)
    as (o & api1 & w1 & sl & Hat & Hd & Ht & Htr & Hsl & e & Ho).
  destruct (Hserve e) as (resp & Hresp & Hcode & Htext & Hjson).
  rewrite Hresp in Ho. subst o.
  exists api1, w1. rewrite _request_unfold, Hat, Hcode.
  change (200 =? 429) with false. change (is_error_status 200) with false.
  apply String.eqb_neq in Htext. rewrite Htext, Hjson.
  repeat split; trivial.
  rewrite Htr, !requests_of_app, (requests_of_sleeps sl Hsl). reflexivity.
Qed.

Lemma dict_get_set_same k v d : dict_get k (dict_set k v d) = Some v.
Proof.
  induction d as [|[k' v'] d IH]; simpl.
  - rewrite String.eqb_refl. reflexivity.
  - destruct (k =? k')%string eqn:Hk; simpl; rewrite Hk; [reflexivity|exact IH].
Qed.

Lemma dict_get_set_other k k' v d :
  k <> k' -> dict_get k (dict_set k' v d) = dict_get k d.
Proof.
  intros Hne. induction d as [|[k2 v2] d IH]; simpl.
  - apply String.eqb_neq in Hne. rewrite Hne. reflexivity.
  - destruct (k' =? k2)%string eqn:Hk; simpl.
    + apply String.eqb_eq in Hk. subst k2.
      apply String.eqb_neq in Hne. rewrite Hne. reflexivity.
    + rewrite IH. reflexivity.
Qed.

Lemma page_of_page_request (api : KaitenAPI) ep p limit offset :
  page_of_request (mk_request api GET ep (KwParams (Some (page_params p limit offset))))
  = Some (limit, offset).
Proof.
  unfold page_of_request, page_params. simpl.
  rewrite dict_get_set_other by discriminate.
  rewrite !dict_get_set_same. reflexivity.
Qed.

End TransportFacts.

(** C5 (429 retry).  When the first pass through the transport is answered
    429 and the pass made after the two-second wait is answered 200 with a
    non-empty body that parses to [v], [_request] returns [v]: the caller
    gets that one record and no sign of the 429.  The same method, endpoint
    and arguments are sent twice, and [time.sleep(2)] lies between the two
    calls; the only other events are sleeps of the governor. *)
Theorem C5_retry_after_429 {Env : Type} {E : Environment Env}
    (fuel : nat) (m : method) (ep : endpoint) (kw : kwargs)
    (api api1 api2 : KaitenAPI) (w w1 w2 : World) (r1 r2 : response) (v : value) :
  attempt m ep kw api w = (Ok (Responds r1), api1, w1) ->
  status_code r1 = 429 ->
  attempt m ep kw api1 (slept 2 w1) = (Ok (Responds r2), api2, w2) ->
  status_code r2 = 200 -> text r2 <> "" -> json r2 = Some v ->
  _request (S (S fuel)) m ep kw api w = (Ok v, api2, w2)
  /\ exists s1 s2,
       forallb is_sleep s1 = true /\ forallb is_sleep s2 = true
       /\ trace w2 = trace w ++ s1
                      ++ [EvRequest (mk_request api m ep kw); EvSleep 2]
                      ++ s2 ++ [EvRequest (mk_request api m ep kw)].
Proof.
  intros H1 Hc1 H2 Hc2 Htext Hjson. split.
  - rewrite _request_unfold, H1, Hc1, Z.eqb_refl.
    rewrite _request_unfold, H2, Hc2.
    change (200 =? 429) with false. change (is_error_status 200) with false.
    apply String.eqb_neq in Htext. rewrite Htext, Hjson. reflexivity.
  - destruct (attempt_total m ep kw api w)
      as (o1 & a1 & u1 & s1 & E1 & Hd1 & Ht1 & Htr1 & Hs1 & _).
    rewrite H1 in E1. injection E1 as <- <- <-.
    destruct (attempt_total m ep kw api1 (slept 2 w1))
      as (o2 & a2 & u2 & s2 & E2 & Hd2 & Ht2 & Htr2 & Hs2 & _).
    rewrite H2 in E2. injection E2 as <- <- <-.
    exists s1, s2. split; [exact Hs1|]. split; [exact Hs2|].
    rewrite Htr2. simpl. rewrite Htr1.
    assert (Hreq : mk_request api1 m ep kw = mk_request api m ep kw)
      by (unfold mk_request; rewrite Hd1, Ht1; reflexivity).
    rewrite Hreq. rewrite <- !app_assoc. reflexivity.
Qed.

Lemma C5_retry_after_429_witness :
  fst (fst (_request (E := SimEnvironment (throttled_once (VDict [("id", VInt 7)])))
              2 POST (EP "/tags") (KwJson (OD [("name", OV (VStr "bug"))]))
              (KaitenAPI_init "target" "secret") sim_world))
  = Ok (VDict [("id", VInt 7)]).
Proof.
  refine (f_equal (fun x => fst (fst x))
            (proj1 (C5_retry_after_429 0 POST (EP "/tags") _ _ _ _ _ _ _ _ _ _
                      _ _ _ _ _ _))).
  - vm_compute. reflexivity.
  - reflexivity.
  - vm_compute. reflexivity.
  - reflexivity.
  - discriminate.
  - reflexivity.
Defined.

(** ** The paginator *)

Section Pagination.

Context {Env : Type} {E : Environment Env}.

Variable ep : endpoint.
Variable records : list value.
Hypothesis Hserve : serves_list ep records.

Lemma get_page fuel (api : KaitenAPI) (w : World) p limit offset :
  exists api' w',
    get (S fuel) ep (Some (page_params p limit offset)) api w
      = (Ok (VList (slice offset limit records)), api', w')
    /\ requests_of (trace w')
       = requests_of (trace w)
         ++ [mk_request api GET ep (KwParams (Some (page_params p limit offset)))]
    /\ domain api' = domain api /\ token api' = token api.
Proof.
  unfold get.
  destruct (_request_served fuel GET ep (KwParams (Some (page_params p limit offset)))
              api w (VList (slice offset limit records)))
    as (api' & w' & Hrun & Hd & Ht & Htr).
  - intros e. apply Hserve; [reflexivity|reflexivity|apply page_of_page_request].
  - exists api', w'. repeat split; assumption.
Qed.

Lemma div_step a l : (0 < l)%nat -> (l <= a)%nat -> (a / l = S ((a - l) / l))%nat.
Proof.
  intros Hl Ha. replace a with ((a - l) + 1 * l)%nat at 1 by lia.
  rewrite Nat.div_add by lia. lia.
Qed.

Lemma slice_nat k l : slice (Z.of_nat k) (Z.of_nat l) records = firstn l (skipn k records).
Proof. unfold slice. rewrite !Nat2Z.id. reflexivity. Qed.

Lemma get_paginated_loop_serves l (Hl : (0 < l)%nat) fuel :
  forall n k p acc (api : KaitenAPI) (w : World),
    ((List.length records - k) / l < n)%nat ->
    exists api' w' reqs,
      get_paginated_loop n (S fuel) ep p (Z.of_nat l) (Z.of_nat k) acc api w
        = (Ok (acc ++ skipn k records), api', w')
      /\ requests_of (trace w') = requests_of (trace w) ++ reqs
      /\ map page_view reqs
         = map (fun o => (GET, ep, Some (Z.of_nat l, o)))
             (offsets_from (S ((List.length records - k) / l)) (Z.of_nat k) (Z.of_nat l))
      /\ full_then_short records (Z.of_nat l)
           (offsets_from (S ((List.length records - k) / l)) (Z.of_nat k) (Z.of_nat l)).
Proof.
  induction n as [|n IH]; intros k p acc api w Hn; [lia|].
  cbn [get_paginated_loop].
  change (dict_set "offset" (VInt (Z.of_nat k))
            (dict_set "limit" (VInt (Z.of_nat l)) p))
    with (page_params p (Z.of_nat l) (Z.of_nat k)).
  destruct (get_page fuel api w p (Z.of_nat l) (Z.of_nat k))
    as (api1 & w1 & Hget & Htr1 & Hd1 & Ht1).
  unfold bind at 1. rewrite Hget.
  set (req := mk_request api GET ep
                (KwParams (Some (page_params p (Z.of_nat l) (Z.of_nat k))))) in *.
  assert (Hview : page_view req = (GET, ep, Some (Z.of_nat l, Z.of_nat k))).
  { unfold page_view, req. rewrite page_of_page_request. reflexivity. }
  pose proof (length_skipn k records) as Hlen.
  cbn [page_data]. rewrite slice_nat.
  destruct (firstn l (skipn k records)) as [|x page] eqn:Hpage.
  - (* an empty page *)
    assert (Hnil : skipn k records = []).
    { destruct (skipn k records); [reflexivity|]. destruct l; [lia|discriminate]. }
    rewrite Hnil in Hlen. simpl in Hlen.
    assert (Hq : ((List.length records - k) / l = 0)%nat)
      by (rewrite <- Hlen; apply Nat.Div0.div_0_l).
    rewrite Hq, Hnil. exists api1, w1, [req].
    split; [|split; [|split]].
    + cbn [truthy negb]. unfold ret. rewrite app_nil_r. reflexivity.
    + exact Htr1.
    + cbn [offsets_from map]. rewrite Hview. reflexivity.
    + split; cbn [offsets_from removelast last]; [constructor|].
      rewrite slice_nat, Hpage. unfold len. simpl. lia.
  - cbn [truthy negb]. unfold bind at 1. unfold lift_res at 1. cbn [py_iter].
    unfold bind at 1. unfold lift_res at 1. cbn [py_len].
    destruct (Z.of_nat (List.length (x :: page)) <? Z.of_nat l) eqn:Hshort.
    + (* a short page: the last one *)
      apply Z.ltb_lt in Hshort. apply Nat2Z.inj_lt in Hshort.
      assert (Hall : skipn k records = x :: page).
      { rewrite <- Hpage. symmetry. apply firstn_all2.
        destruct (Nat.le_gt_cases (List.length (skipn k records)) l) as [Hle|Hgt];
          [exact Hle|].
        exfalso. rewrite <- Hpage, length_firstn in Hshort. lia. }
      assert (Hq : ((List.length records - k) / l = 0)%nat).
      { apply Nat.div_small. rewrite <- Hlen, Hall. exact Hshort. }
      rewrite Hq, Hall. exists api1, w1, [req].
      split; [|split; [|split]].
      * reflexivity.
      * exact Htr1.
      * cbn [offsets_from map]. rewrite Hview. reflexivity.
      * split; cbn [offsets_from removelast last]; [constructor|].
        rewrite slice_nat, Hpage. unfold len. lia.
    + (* a full page: go on *)
      apply Z.ltb_ge in Hshort. apply Nat2Z.inj_le in Hshort.
      assert (Hfull : (l <= List.length records - k)%nat).
      { rewrite <- Hlen. rewrite <- Hpage, length_firstn in Hshort. lia. }
      assert (Hlenp : List.length (x :: page) = l).
      { rewrite <- Hpage, length_firstn. lia. }
      rewrite (div_step _ l Hl Hfull) in *.
      replace (Z.of_nat k + Z.of_nat l) with (Z.of_nat (k + l)) by lia.
      replace (List.length records - k - l)%nat
        with (List.length records - (k + l))%nat in * by lia.
      destruct (IH (k + l)%nat (page_params p (Z.of_nat l) (Z.of_nat k))
                  (acc ++ x :: page) api1 w1 ltac:(lia))
        as (api' & w' & reqs & Hrun & Htr & Hviews & Hfs).
      rewrite Hrun. exists api', w', (req :: reqs).
      split; [|split; [|split]].
      * rewrite <- app_assoc, <- Hpage.
        replace (k + l)%nat with (l + k)%nat by lia.
        rewrite <- skipn_skipn, firstn_skipn. reflexivity.
      * rewrite Htr, Htr1, <- app_assoc. reflexivity.
      * change (offsets_from (S (S ((List.length records - (k + l)) / l)))
                  (Z.of_nat k) (Z.of_nat l))
          with (Z.of_nat k
                :: offsets_from (S ((List.length records - (k + l)) / l))
                     (Z.of_nat k + Z.of_nat l) (Z.of_nat l)).
        replace (Z.of_nat k + Z.of_nat l) with (Z.of_nat (k + l)) by lia.
        cbn [map]. rewrite Hview, Hviews. reflexivity.
      * change (offsets_from (S (S ((List.length records - (k + l)) / l)))
                  (Z.of_nat k) (Z.of_nat l))
          with (Z.of_nat k
                :: offsets_from (S ((List.length records - (k + l)) / l))
                     (Z.of_nat k + Z.of_nat l) (Z.of_nat l)).
        replace (Z.of_nat k + Z.of_nat l) with (Z.of_nat (k + l)) by lia.
        destruct Hfs as [Hf Hs].
        remember (offsets_from (S ((List.length records - (k + l)) / l))
                    (Z.of_nat (k + l)) (Z.of_nat l)) as offs eqn:Hoffs.
        destruct offs as [|o offs]; [discriminate|].
        split.
        -- cbn [removelast]. constructor; [|exact Hf].
           rewrite slice_nat, Hpage. unfold len. rewrite Hlenp. reflexivity.
        -- exact Hs.
Qed.

End Pagination.

Lemma page_count_nat n l :
  (0 < l)%nat -> page_count n (Z.of_nat l) = S (n / l).
Proof.
  intros Hl. unfold page_count. rewrite <- Nat2Z.inj_div, Nat2Z.id. reflexivity.
Qed.

(** Pagination over a source that holds [records]: all of them come back,
    in order; the requests are GETs at offsets 0, limit, 2*limit, ...; every
    page but the last is full and the last is short or empty. *)
Lemma get_paginated_serves {Env : Type} {E : Environment Env} ep records params
    limit fuel (api : KaitenAPI) (w : World) :
  serves_list ep records ->
  0 < limit -> (page_count (List.length records) limit <= fuel)%nat ->
  exists api' w' reqs,
    get_paginated fuel ep params limit api w = (Ok records, api', w')
    /\ requests_of (trace w') = requests_of (trace w) ++ reqs
    /\ map page_view reqs
       = map (fun o => (GET, ep, Some (limit, o)))
           (offsets_from (page_count (List.length records) limit) 0 limit)
    /\ full_then_short records limit
         (offsets_from (page_count (List.length records) limit) 0 limit).
Proof.
  intros Hserve Hlimit Hfuel.
  rewrite <- (Z2Nat.id limit) in * by lia.
  set (l := Z.to_nat limit) in *.
  assert (Hl : (0 < l)%nat) by (subst l; lia).
  rewrite page_count_nat in * by exact Hl.
  destruct fuel as [|fuel]; [lia|].
  destruct (get_paginated_loop_serves ep records Hserve l Hl fuel (S fuel) 0%nat
              (params_or_empty params) [] api w)
    as (api' & w' & reqs & Hrun & Htr & Hviews & Hfs).
  - rewrite Nat.sub_0_r. lia.
  - rewrite Nat.sub_0_r in *. exists api', w', reqs.
    unfold get_paginated. split; [exact Hrun|]. repeat split; trivial; apply Hfs.
Qed.

(** C2 (pagination termination).  For a source that holds exactly 250
    records and page size 100, [get_paginated] sends exactly three page
    requests, at offsets 0, 100 and 200, which bring 100, 100 and 50
    records, and returns the 250 records in the order of the source.  For
    any number of records and any positive page size it returns all the
    records in order, asks for the offsets 0, limit, 2*limit, ... and stops
    at the first page that is empty or shorter than the page size: every
    page before the last is full, the last is not. *)
Theorem C2_pagination {Env : Type} {E : Environment Env} (ep : endpoint)
    (records : list value) (params : option pydict) (api : KaitenAPI) (w : World) :
  serves_list ep records ->
  (List.length records = 250%nat ->
   forall fuel, (3 <= fuel)%nat ->
   exists api' w' r1 r2 r3,
     get_paginated fuel ep params 100 api w = (Ok records, api', w')
     /\ requests_of (trace w') = requests_of (trace w) ++ [r1; r2; r3]
     /\ map page_view [r1; r2; r3]
        = [(GET, ep, Some (100, 0)); (GET, ep, Some (100, 100));
           (GET, ep, Some (100, 200))]
     /\ map (fun o => len (slice o 100 records)) [0; 100; 200] = [100; 100; 50])
  /\ (forall limit fuel,
      0 < limit -> (page_count (List.length records) limit <= fuel)%nat ->
      exists api' w' reqs,
        get_paginated fuel ep params limit api w = (Ok records, api', w')
        /\ requests_of (trace w') = requests_of (trace w) ++ reqs
        /\ map page_view reqs
           = map (fun o => (GET, ep, Some (limit, o)))
               (offsets_from (page_count (List.length records) limit) 0 limit)
        /\ full_then_short records limit
             (offsets_from (page_count (List.length records) limit) 0 limit)).
Proof.
  intros Hserve. split.
  - intros Hlen fuel Hfuel.
    destruct (get_paginated_serves ep records params 100 fuel api w Hserve)
      as (api' & w' & reqs & Hrun & Htr & Hviews & _).
    + lia.
    + rewrite Hlen. exact Hfuel.
    + rewrite Hlen in Hviews. change (page_count 250 100) with 3%nat in Hviews.
      cbn [offsets_from map] in Hviews.
      destruct reqs as [|r1 [|r2 [|r3 [|r4 reqs]]]]; try discriminate.
      exists api', w', r1, r2, r3. repeat split; trivial.
      unfold slice, len. cbn [map].
      rewrite !length_firstn, !length_skipn, Hlen. reflexivity.
  - intros limit fuel Hlimit Hfuel.
    apply get_paginated_serves; assumption.
Qed.

Lemma list_server_serves records ep :
  serves_list (E := SimEnvironment (list_server records)) ep records.
Proof.
  intros e r limit offset Hm _ Hp. simpl. unfold list_server.
  rewrite Hm, Hp. eexists. split; [reflexivity|].
  repeat split; [discriminate].
Qed.

Lemma C2_pagination_witness :
  fst (fst (get_paginated (E := SimEnvironment (list_server records_250)) 3
              (EP "/cards") None 100 (KaitenAPI_init "source" "secret") sim_world))
  = Ok records_250.
Proof.
  destruct (proj1 (C2_pagination (E := SimEnvironment (list_server records_250))
                     (EP "/cards") records_250 None
                     (KaitenAPI_init "source" "secret") sim_world
                     (list_server_serves records_250 (EP "/cards")))
              eq_refl 3%nat (le_n 3))
    as (api' & w' & r1 & r2 & r3 & Hrun & _).
  rewrite Hrun. reflexivity.
Defined.

(** The simulated source of 250 records is asked three times. *)
Example get_paginated_250_requests :
  (let '(_, _, w') :=
     get_paginated (E := SimEnvironment (list_server records_250)) 3
       (EP "/cards") None 100 (KaitenAPI_init "source" "secret") sim_world in
   map page_of_request (requests_of (trace w')))
  = [Some (100, 0); Some (100, 100); Some (100, 200)].
Proof. vm_compute. reflexivity. Qed.

Lemma get_paginated_loop_failure {Env : Type} {E : Environment Env} fuel ep limit
    p offset (api : KaitenAPI) (w : World) pages api' w' :
  pages_then_failure fuel ep limit p offset api w pages api' w' ->
  forall n acc, (List.length pages < n)%nat ->
    get_paginated_loop n fuel ep p limit offset acc api w
    = (Ok (acc ++ List.concat pages), api', w').
Proof.
  induction 1 as [p offset api w api' w' Hget
                 |p offset api w response page n0 api1 w1 pages api' w'
                    Hget Hsome Htruthy Hiter Hlen Hfull _ IH];
    intros n acc Hn; (destruct n as [|n]; [simpl in Hn; lia|]);
    cbn [get_paginated_loop];
    change (dict_set "offset" (VInt offset) (dict_set "limit" (VInt limit) p))
      with (page_params p limit offset);
    unfold bind at 1; rewrite Hget.
  - simpl. rewrite app_nil_r. reflexivity.
  - assert (Hrest :
      (if negb (truthy (page_data response)) then ret acc
       else
         items <- lift_res (py_iter (page_data response)) ;;
         len <- lift_res (py_len (page_data response)) ;;
         if len <? limit then ret (acc ++ items)
         else get_paginated_loop n fuel ep (page_params p limit offset) limit
                (offset + limit) (acc ++ items)) api1 w1
      = (Ok (acc ++ List.concat (page :: pages)), api', w')).
    { rewrite Htruthy, Hiter, Hlen. cbn [negb]. unfold bind, lift_res.
      apply Z.ltb_ge in Hfull. rewrite Hfull.
      rewrite IH by (simpl in Hn; lia).
      simpl. rewrite <- app_assoc. reflexivity. }
    destruct response; solve [contradiction | exact Hrest].
Qed.

(** C7 (failure during pagination).  When [k] page requests bring a full
    page each and the next one fails, that is [get] returns [None],
    [get_paginated] stops and returns, as an ordinary result, the records of
    those [k] pages in order. *)
Theorem C7_partial_result {Env : Type} {E : Environment Env} (fuel : nat)
    (ep : endpoint) (params : option pydict) (limit : Z)
    (api api' : KaitenAPI) (w w' : World) (pages : list (list value)) :
  pages_then_failure fuel ep limit (params_or_empty params) 0 api w pages api' w' ->
  (List.length pages < fuel)%nat ->
  get_paginated fuel ep params limit api w = (Ok (List.concat pages), api', w').
Proof.
  intros Hpages Hfuel. unfold get_paginated.
  apply (get_paginated_loop_failure fuel ep limit _ 0 api w pages api' w' Hpages
           fuel [] Hfuel).
Qed.

Lemma C7_partial_result_witness :
  fst (fst (get_paginated (E := SimEnvironment page_then_down) 2 (EP "/tags") None 2
              (KaitenAPI_init "source" "secret") sim_world))
  = Ok [VDict [("id", VInt 1)]; VDict [("id", VInt 2)]].
Proof.
  refine (f_equal (fun x => fst (fst x))
            (C7_partial_result (E := SimEnvironment page_then_down) 2 (EP "/tags")
               None 2 _ _ _ _
               [[VDict [("id", VInt 1)]; VDict [("id", VInt 2)]]] _ _)).
  - eapply ptf_page.
    + vm_compute. reflexivity.
    + discriminate.
    + reflexivity.
    + reflexivity.
    + reflexivity.
    + vm_compute. discriminate.
    + apply ptf_failure. vm_compute. reflexivity.
  - simpl. lia.
Defined.

(** ** Rules for assertions on runs *)

Section Hoare.

Context {Env : Type} {E : Environment Env} {S : Type}.

Implicit Types (P I X : S -> @World Env -> Prop).

Lemma hoare_conseq {A} P P' (m : M S A) Q Q' X X' :
  hoare P' m Q' X' ->
  (forall s w, P s w -> P' s w) ->
  (forall a s w, Q' a s w -> Q a s w) ->
  (forall s w, X' s w -> X s w) ->
  hoare P m Q X.
Proof.
  intros H HP HQ HX s w Hs. specialize (H s w (HP s w Hs)).
  destruct (m s w) as [[[a|e|] s'] w']; auto.
Qed.

Lemma hoare_ret {A} P (a : A) Q X :
  (forall s w, P s w -> Q a s w) -> hoare P (ret a) Q X.
Proof. intros H s w Hs. simpl. auto. Qed.

Lemma hoare_bind {A B} P (m : M S A) (f : A -> M S B) Q' Q X :
  hoare P m Q' X -> (forall a, hoare (Q' a) (f a) Q X) -> hoare P (bind m f) Q X.
Proof.
  intros Hm Hf s w Hs. unfold bind. specialize (Hm s w Hs).
  destruct (m s w) as [[[a|e|] s'] w']; auto. apply (Hf a s' w' Hm).
Qed.

Lemma hoare_raise {A} P e (Q : A -> S -> World -> Prop) X :
  (forall s w, P s w -> X s w) -> hoare P (raise e) Q X.
Proof. intros H s w Hs. simpl. auto. Qed.

Lemma hoare_out_of_fuel {A} P (Q : A -> S -> World -> Prop) X :
  (forall s w, P s w -> X s w) -> hoare P out_of_fuel Q X.
Proof. intros H s w Hs. simpl. auto. Qed.

Lemma hoare_lift_res {A} P (r : res A) Q X :
  (forall a s w, r = Ok a -> P s w -> Q a s w) ->
  (forall s w, P s w -> X s w) ->
  hoare P (lift_res r) Q X.
Proof. intros HQ HX s w Hs. unfold lift_res. destruct r; auto. Qed.

Lemma hoare_get_state P X :
  hoare P get_state (fun a s w => a = s /\ P s w) X.
Proof. intros s w Hs. simpl. auto. Qed.

Lemma hoare_try_except {A} P (m : M S A) h Q X X' :
  hoare P m Q X' ->
  (forall e, hoare X' (h e) Q X) ->
  (forall s w, X' s w -> X s w) ->
  hoare P (try_except m h) Q X.
Proof.
  intros Hm Hh HX s w Hs. unfold try_except. specialize (Hm s w Hs).
  destruct (m s w) as [[[a|e|] s'] w']; auto. apply (Hh e s' w' Hm).
Qed.

Lemma hoare_for_each {A} I X (xs : list A) body :
  (forall s w, I s w -> X s w) ->
  (forall x, In x xs -> hoare I (body x) (fun _ => I) X) ->
  hoare I (for_each xs body) (fun _ => I) X.
Proof.
  intros HX. induction xs as [|x xs IH]; intros Hbody.
  - apply hoare_ret. auto.
  - cbn [for_each]. eapply hoare_bind.
    + apply Hbody. left. reflexivity.
    + intros u. apply IH. intros y Hy. apply Hbody. right. exact Hy.
Qed.

(** The same rules for an invariant. *)

Lemma stable_ret {A} I (a : A) : stable I (ret a).
Proof. apply hoare_ret. auto. Qed.

Lemma stable_bind {A B} I (m : M S A) (f : A -> M S B) :
  stable I m -> (forall a, stable I (f a)) -> stable I (bind m f).
Proof. intros Hm Hf. eapply hoare_bind; [exact Hm|exact Hf]. Qed.

Lemma stable_raise {A} I e : stable I (@raise Env S A e).
Proof. apply hoare_raise. auto. Qed.

Lemma stable_out_of_fuel {A} I : stable I (@out_of_fuel Env S A).
Proof. apply hoare_out_of_fuel. auto. Qed.

Lemma stable_lift_res {A} I (r : res A) : stable I (lift_res r).
Proof. apply hoare_lift_res; auto. Qed.

Lemma stable_get_state I : stable I get_state.
Proof. intros s w Hs. simpl. exact Hs. Qed.

Lemma stable_try_except {A} I (m : M S A) h :
  stable I m -> (forall e, stable I (h e)) -> stable I (try_except m h).
Proof. intros Hm Hh. eapply hoare_try_except; [exact Hm|exact Hh|auto]. Qed.

Lemma stable_for_each {A} I (xs : list A) body :
  (forall x, stable I (body x)) -> stable I (for_each xs body).
Proof. intros H. apply hoare_for_each; auto. intros x _. apply H. Qed.

Lemma stable_hoare {A} I (m : M S A) X :
  stable I m -> (forall s w, I s w -> X s w) -> hoare I m (fun _ => I) X.
Proof. intros H HX. eapply hoare_conseq; [exact H|auto|auto|exact HX]. Qed.

Lemma stable_run {A} I (m : M S A) s w r s' w' :
  stable I m -> I s w -> m s w = (r, s', w') -> I s' w'.
Proof.
  intros H Hs Hrun. specialize (H s w Hs). rewrite Hrun in H.
  destruct r; exact H.
Qed.

End Hoare.

(** ** What a client call does to the trace *)

Section Effects.

Context {Env : Type} {E : Environment Env}.

Lemma sleeps_api_events m ep sl :
  forallb is_sleep sl = true -> Forall (api_event m ep) sl.
Proof.
  induction sl as [|ev sl IH]; simpl; intros H; constructor.
  - destruct ev; try discriminate. exact I.
  - apply IH. apply andb_prop in H. apply H.
Qed.

(** [_request] never raises; what it adds to the trace is the same request,
    once or more when it returns, and sleeps. *)
Lemma _request_effect fuel m ep kw :
  forall (api : KaitenAPI) (w : World) r api' w',
    _request fuel m ep kw api w = (r, api', w') ->
    exists new k,
      trace w' = trace w ++ new
      /\ Forall (api_event m ep) new
      /\ requests_of new = repeat (mk_request api m ep kw) k
      /\ domain api' = domain api /\ token api' = token api
      /\ (forall e, r <> Raise e)
      /\ (fuel <> O \/ (exists v, r = Ok v) -> (1 <= k)%nat).
Proof.
  induction fuel as [|fuel IH]; intros api w r api' w' Hrun.
  - simpl in Hrun. injection Hrun as <- <- <-. exists [], 0%nat.
    rewrite app_nil_r. repeat split; try constructor; try discriminate.
    intros [H|[v H]]; [contradiction|discriminate].
  - rewrite _request_unfold in Hrun.
    destruct (attempt_total m ep kw api w)
      as (o & api1 & w1 & sl & Hat & Hd & Ht & Htr & Hsl & _).
    rewrite Hat in Hrun.
    assert (Hone :
      forall v, (r, api', w') = (Ok v, api1, w1) ->
      exists new k,
        trace w' = trace w ++ new
        /\ Forall (api_event m ep) new
        /\ requests_of new = repeat (mk_request api m ep kw) k
        /\ domain api' = domain api /\ token api' = token api
        /\ (forall e, r <> Raise e)
        /\ (S fuel <> O \/ (exists v, r = Ok v) -> (1 <= k)%nat)).
    { intros v Heq. injection Heq as -> -> ->.
      exists (sl ++ [EvRequest (mk_request api m ep kw)]), 1%nat.
      repeat split; trivial; try discriminate.
      - apply Forall_app. split; [apply sleeps_api_events; exact Hsl|].
        constructor; [|constructor]. simpl. auto.
      - rewrite requests_of_app, (requests_of_sleeps sl Hsl). reflexivity. }
    destruct o as [response|e]; [|apply (Hone VNone); symmetry; exact Hrun].
    destruct (status_code response =? 429).
    + destruct (_request fuel m ep kw api1 (slept 2 w1)) as [[r2 api2] w2] eqn:Hin.
      destruct (IH _ _ _ _ _ Hin) as (new2 & k2 & Htr2 & Hev2 & Hreq2 & Hd2 & Ht2 & Hnr & Hk).
      assert (Hsame : mk_request api1 m ep kw = mk_request api m ep kw)
        by (unfold mk_request; rewrite Hd, Ht; reflexivity).
      exists (sl ++ [EvRequest (mk_request api m ep kw)] ++ [EvSleep 2] ++ new2), (S k2).
      assert (Hfacts :
        trace w2 = trace w ++ sl ++ [EvRequest (mk_request api m ep kw)]
                     ++ [EvSleep 2] ++ new2
        /\ Forall (api_event m ep)
             (sl ++ [EvRequest (mk_request api m ep kw)] ++ [EvSleep 2] ++ new2)
        /\ requests_of (sl ++ [EvRequest (mk_request api m ep kw)] ++ [EvSleep 2] ++ new2)
           = repeat (mk_request api m ep kw) (S k2)
        /\ domain api2 = domain api /\ token api2 = token api).
      { repeat split.
        - rewrite Htr2. unfold slept. simpl. rewrite Htr, <- !app_assoc. reflexivity.
        - apply Forall_app. split; [apply sleeps_api_events; exact Hsl|].
          constructor; [simpl; auto|]. constructor; [exact I|exact Hev2].
        - rewrite requests_of_app, (requests_of_sleeps sl Hsl). simpl.
          fold (requests_of new2). rewrite Hreq2, Hsame. reflexivity.
        - congruence.
        - congruence. }
      destruct Hfacts as (F1 & F2 & F3 & F4 & F5).
      destruct r2 as [v|e|]; injection Hrun as <- <- <-;
        repeat split; trivial; try discriminate; intros; lia.
    + destruct (is_error_status _); [apply (Hone VNone); symmetry; exact Hrun|].
      destruct (text response =? "")%string;
        [apply (Hone (VDict [])); symmetry; exact Hrun|].
      destruct (json response) as [v|];
        [apply (Hone v)|apply (Hone VNone)]; symmetry; exact Hrun.
Qed.

(** [get_paginated] adds GETs of its endpoint and sleeps. *)
Lemma get_paginated_loop_effect n fuel ep limit :
  forall p offset acc (api : KaitenAPI) (w : World) r api' w',
    get_paginated_loop n fuel ep p limit offset acc api w = (r, api', w') ->
    exists new,
      trace w' = trace w ++ new
      /\ Forall (api_event GET ep) new
      /\ domain api' = domain api /\ token api' = token api.
Proof.
  induction n as [|n IH]; intros p offset acc api w r api' w' Hrun.
  - simpl in Hrun. injection Hrun as <- <- <-. exists []. rewrite app_nil_r.
    repeat split. constructor.
  - cbn [get_paginated_loop] in Hrun. unfold bind at 1 in Hrun. unfold get in Hrun.
    destruct (_request fuel GET ep _ api w) as [[r1 api1] w1] eqn:Hget.
    destruct (_request_effect _ _ _ _ _ _ _ _ _ Hget)
      as (new1 & k & Htr1 & Hev1 & _ & Hd1 & Ht1 & _).
    assert (Hstop : (r, api', w') = (r, api1, w1) ->
      exists new, trace w' = trace w ++ new /\ Forall (api_event GET ep) new
                  /\ domain api' = domain api /\ token api' = token api).
    { intros Heq. injection Heq as -> ->. exists new1. repeat split; trivial. }
    destruct r1 as [response|e|];
      [|injection Hrun as <- <- <-; apply Hstop; reflexivity
       |injection Hrun as <- <- <-; apply Hstop; reflexivity].
    assert (Hgo :
      (if negb (truthy (page_data response)) then ret acc
       else
         items <- lift_res (py_iter (page_data response)) ;;
         len <- lift_res (py_len (page_data response)) ;;
         if len <? limit then ret (acc ++ items)
         else get_paginated_loop n fuel ep
                (dict_set "offset" (VInt offset) (dict_set "limit" (VInt limit) p))
                limit (offset + limit) (acc ++ items)) api1 w1 = (r, api', w') ->
      exists new, trace w' = trace w ++ new /\ Forall (api_event GET ep) new
                  /\ domain api' = domain api /\ token api' = token api).
    { intros Hrest.
      destruct (negb (truthy (page_data response)));
        [injection Hrest as <- <- <-; apply Hstop; reflexivity|].
      unfold bind, lift_res in Hrest.
      destruct (py_iter (page_data response)) as [items|e|];
        [|injection Hrest as <- <- <-; apply Hstop; reflexivity
         |injection Hrest as <- <- <-; apply Hstop; reflexivity].
      destruct (py_len (page_data response)) as [len|e|];
        [|injection Hrest as <- <- <-; apply Hstop; reflexivity
         |injection Hrest as <- <- <-; apply Hstop; reflexivity].
      destruct (len <? limit);
        [injection Hrest as <- <- <-; apply Hstop; reflexivity|].
      destruct (IH _ _ _ _ _ _ _ _ Hrest) as (new2 & Htr2 & Hev2 & Hd2 & Ht2).
      exists (new1 ++ new2). repeat split.
      - rewrite Htr2, Htr1, <- app_assoc. reflexivity.
      - apply Forall_app. split; assumption.
      - congruence.
      - congruence. }
    destruct response; solve
      [ injection Hrun as <- <- <-; apply Hstop; reflexivity
      | apply Hgo; exact Hrun ].
Qed.

End Effects.

(** ** Cards *)

(** C4 (dependency skip).  A card whose board identifier has no entry in
    the identifier map, or whose column identifier has none, is not sent:
    [migrate_single_card] returns normally without any call of the
    transport, the world is as before, the failed counter of cards grows by
    one, the migrated counter and the identifier map stay as they were, and
    the loop of [migrate_cards] goes on with the next card. *)
Theorem C4_dependency_skip {Env : Type} {E : Environment Env} (fuel : nat)
    (card : pydict) (card_id : value) (st : KaitenMigration) (w : World)
    (rest : list value) :
  dict_get "id" card = Some card_id ->
  hashable (card_field card "board_id") = true ->
  unmapped "boards" (card_field card "board_id") st
  \/ (unmapped "columns" (card_field card "column_id") st
      /\ (truthy (card_field card "lane_id") = true ->
          hashable (card_field card "lane_id") = true)) ->
  migrate_single_card fuel (VDict card) st w
    = (Ok tt, count_failed Cards st, logged (IncFailed Cards) w)
  /\ requests_of (trace (logged (IncFailed Cards) w)) = requests_of (trace w)
  /\ env (logged (IncFailed Cards) w) = env w
  /\ failed (stats (count_failed Cards st) Cards) = failed (stats st Cards) + 1
  /\ migrated (stats (count_failed Cards st) Cards) = migrated (stats st Cards)
  /\ id_map (count_failed Cards st) = id_map st
  /\ for_each (VDict card :: rest) (migrate_single_card fuel) st w
     = for_each rest (migrate_single_card fuel) (count_failed Cards st)
         (logged (IncFailed Cards) w).
Proof.
  intros Hid Hboard Hcase.
  assert (Hrun : migrate_single_card fuel (VDict card) st w
                 = (Ok tt, count_failed Cards st, logged (IncFailed Cards) w)).
  { unfold migrate_single_card, bind, lift_res, id_map_get, get_state, record_stat,
      put_state, emit, ret. simpl. rewrite Hid. simpl.
    fold (card_field card "board_id"). unfold table_get. rewrite Hboard.
    destruct Hcase as [[_ Hnone]|[[Hcol Hnone] Hlane]].
    - rewrite Hnone. reflexivity.
    - destruct (table_find (card_field card "board_id") (id_map st "boards")) as [nb|];
        [|reflexivity].
      destruct (truthy nb); [|reflexivity]. simpl.
      fold (card_field card "column_id"). rewrite Hcol, Hnone.
      fold (card_field card "lane_id").
      destruct (truthy (card_field card "lane_id")).
      + rewrite (Hlane eq_refl). reflexivity.
      + reflexivity. }
  split; [exact Hrun|].
  split; [simpl; rewrite requests_of_app; simpl; apply app_nil_r|].
  split; [reflexivity|]. split; [reflexivity|]. split; [reflexivity|].
  split; [reflexivity|].
  cbn [for_each]. unfold bind at 1. rewrite Hrun. reflexivity.
Qed.

(** ** What a computation adds to the trace *)

Section Emits.

Context {Env : Type} {E : Environment Env}.

Lemma emits_nothing {S A} allowed (m : @M Env S A) :
  (forall s w, trace (snd (m s w)) = trace w) -> emits allowed m.
Proof.
  intros H s w. exists []. rewrite app_nil_r. split; [apply H|constructor].
Qed.

Lemma emits_weaken {S A} (allowed allowed' : event -> Prop) (m : @M Env S A) :
  emits allowed m -> (forall ev, allowed ev -> allowed' ev) -> emits allowed' m.
Proof.
  intros H Hsub s w. destruct (H s w) as (new & Htr & Hall).
  exists new. split; [exact Htr|]. eapply Forall_impl; [exact Hsub|exact Hall].
Qed.

Lemma emits_ret {S A} allowed (a : A) : emits allowed (@ret Env S A a).
Proof. apply emits_nothing. reflexivity. Qed.

Lemma emits_raise {S A} allowed e : emits allowed (@raise Env S A e).
Proof. apply emits_nothing. reflexivity. Qed.

Lemma emits_out_of_fuel {S A} allowed : emits allowed (@out_of_fuel Env S A).
Proof. apply emits_nothing. reflexivity. Qed.

Lemma emits_lift_res {S A} allowed (r : res A) : emits allowed (@lift_res Env S A r).
Proof. apply emits_nothing. reflexivity. Qed.

Lemma emits_get_state {S} allowed : emits allowed (@get_state Env S).
Proof. apply emits_nothing. reflexivity. Qed.

Lemma emits_put_state {S} allowed (s : S) : emits allowed (@put_state Env S s).
Proof. apply emits_nothing. reflexivity. Qed.

Lemma emits_call_time {S} allowed : emits allowed (@call_time Env E S).
Proof.
  apply emits_nothing. intros s w. unfold call_time.
  destruct (time_time (env w)). reflexivity.
Qed.

Lemma emits_call_sleep {S} (allowed : event -> Prop) d :
  allowed (EvSleep d) -> emits allowed (@call_sleep Env E S d).
Proof. intros H s w. exists [EvSleep d]. split; [reflexivity|]. constructor; auto. Qed.

Lemma emits_emit {S} (allowed : event -> Prop) ev :
  allowed ev -> emits allowed (@emit Env S ev).
Proof. intros H s w. exists [ev]. split; [reflexivity|]. constructor; auto. Qed.

Lemma emits_bind {S A B} allowed (m : @M Env S A) (f : A -> M S B) :
  emits allowed m -> (forall a, emits allowed (f a)) -> emits allowed (bind m f).
Proof.
  intros Hm Hf s w. unfold bind. destruct (Hm s w) as (new1 & Htr1 & Hall1).
  destruct (m s w) as [[[a|e|] s1] w1]; simpl in Htr1;
    try (exists new1; split; [exact Htr1|exact Hall1]).
  destruct (Hf a s1 w1) as (new2 & Htr2 & Hall2).
  exists (new1 ++ new2). split.
  - rewrite Htr2, Htr1, app_assoc. reflexivity.
  - apply Forall_app. split; assumption.
Qed.

Lemma emits_try_except {S A} allowed (m : @M Env S A) h :
  emits allowed m -> (forall e, emits allowed (h e)) -> emits allowed (try_except m h).
Proof.
  intros Hm Hh s w. unfold try_except. destruct (Hm s w) as (new1 & Htr1 & Hall1).
  destruct (m s w) as [[[a|e|] s1] w1]; simpl in Htr1;
    try (exists new1; split; [exact Htr1|exact Hall1]).
  destruct (Hh e s1 w1) as (new2 & Htr2 & Hall2).
  exists (new1 ++ new2). split.
  - rewrite Htr2, Htr1, app_assoc. reflexivity.
  - apply Forall_app. split; assumption.
Qed.

Lemma emits_for_each {S A} allowed (xs : list A) (body : A -> @M Env S unit) :
  (forall x, emits allowed (body x)) -> emits allowed (for_each xs body).
Proof.
  intros H. induction xs as [|x xs IH]; cbn [for_each].
  - apply emits_ret.
  - apply emits_bind; [apply H|intros _; exact IH].
Qed.

Lemma emits_on_source {A} allowed (m : @M Env KaitenAPI A) :
  emits allowed m -> emits allowed (on_source m).
Proof.
  intros H s w. unfold on_source. destruct (H (source s) w) as (new & Htr & Hall).
  destruct (m (source s) w) as [[r api] w']. exists new. split; assumption.
Qed.

Lemma emits_on_target {A} allowed (m : @M Env KaitenAPI A) :
  emits allowed m -> emits allowed (on_target m).
Proof.
  intros H s w. unfold on_target. destruct (H (target s) w) as (new & Htr & Hall).
  destruct (m (target s) w) as [[r api] w']. exists new. split; assumption.
Qed.

Lemma emits__request fuel m ep kw :
  emits (api_event m ep) (_request fuel m ep kw).
Proof.
  intros api w. destruct (_request fuel m ep kw api w) as [[r api'] w'] eqn:Hrun.
  destruct (_request_effect _ _ _ _ _ _ _ _ _ Hrun) as (new & k & Htr & Hall & _).
  exists new. split; assumption.
Qed.

Lemma emits_get_paginated fuel ep params limit :
  emits (api_event GET ep) (get_paginated fuel ep params limit).
Proof.
  intros api w. unfold get_paginated.
  destruct (get_paginated_loop _ _ _ _ _ _ _ api w) as [[r api'] w'] eqn:Hrun.
  destruct (get_paginated_loop_effect _ _ _ _ _ _ _ _ _ _ _ _ Hrun)
    as (new & Htr & Hall & _).
  exists new. split; assumption.
Qed.

Lemma emits_record_stat (allowed : event -> Prop) op :
  allowed (EvLedger op) -> emits allowed (@record_stat Env op).
Proof.
  intros H. unfold record_stat.
  apply emits_bind; [apply emits_get_state|intros st].
  apply emits_bind; [apply emits_put_state|intros _].
  apply emits_emit. exact H.
Qed.

Lemma emits_id_map_get allowed kind key : emits allowed (@id_map_get Env kind key).
Proof. apply emits_nothing. reflexivity. Qed.

Lemma emits_id_map_set allowed kind key v : emits allowed (@id_map_set Env kind key v).
Proof.
  apply emits_nothing. intros s w. unfold id_map_set, bind, get_state, lift_res.
  destruct (table_set key v (id_map s kind)); reflexivity.
Qed.

End Emits.

(** ** Invariants of the migration *)

Section Frames.

Context {Env : Type} {E : Environment Env}.

Implicit Types (I : KaitenMigration -> @World Env -> Prop).

Lemma stable_source_get_paginated I fuel ep params limit :
  source_frame I -> stable I (on_source (get_paginated fuel ep params limit)).
Proof.
  intros HF st w Hst. unfold on_source.
  destruct (emits_get_paginated fuel ep params limit (source st) w)
    as (new & Htr & Hall).
  destruct (get_paginated fuel ep params limit (source st) w) as [[r api] w'].
  simpl in Htr.
  assert (H : I (with_source api st) w').
  { apply (HF st w api w' new Hst Htr). eapply Forall_impl; [|exact Hall].
    intros [r0|d|op]; simpl; tauto. }
  destruct r; exact H.
Qed.

Lemma stable_source_get I fuel ep params :
  source_frame I -> stable I (on_source (get fuel ep params)).
Proof.
  intros HF st w Hst. unfold on_source, get.
  destruct (emits__request fuel GET ep (KwParams params) (source st) w)
    as (new & Htr & Hall).
  destruct (_request fuel GET ep (KwParams params) (source st) w) as [[r api] w'].
  simpl in Htr.
  assert (H : I (with_source api st) w').
  { apply (HF st w api w' new Hst Htr). eapply Forall_impl; [|exact Hall].
    intros [r0|d|op]; simpl; tauto. }
  destruct r; exact H.
Qed.

Lemma stable_target_post I (eps : endpoint -> Prop) fuel ep data :
  target_frame eps I -> eps ep -> stable I (on_target (post fuel ep data)).
Proof.
  intros HF Hep st w Hst. unfold on_target, post.
  destruct (emits__request fuel POST ep (KwJson data) (target st) w)
    as (new & Htr & Hall).
  destruct (_request fuel POST ep (KwJson data) (target st) w) as [[r api] w'].
  simpl in Htr.
  assert (H : I (with_target api st) w').
  { apply (HF st w api w' new Hst Htr). eapply Forall_impl; [|exact Hall].
    intros [r0|d|op]; simpl; try tauto. intros [-> ->]. auto. }
  destruct r; exact H.
Qed.

Lemma stable_id_map_get I kind key : stable I (id_map_get kind key).
Proof.
  intros st w Hst. unfold id_map_get, bind, get_state, lift_res.
  destruct (table_get key (id_map st kind)); exact Hst.
Qed.

Lemma stable_id_map_set I kind key v : map_frame I -> stable I (id_map_set kind key v).
Proof.
  intros HF st w Hst. unfold id_map_set, bind, get_state, lift_res, put_state.
  destruct (table_set key v (id_map st kind)) as [t|e|]; try exact Hst.
  apply (HF st w kind t Hst).
Qed.

Lemma stable_record_stat I (ops : ledger_op -> Prop) op :
  stat_frame ops I -> ops op -> stable I (record_stat op).
Proof. intros HF Hop st w Hst. apply (HF st w op Hop Hst). Qed.

End Frames.

(** Splits a goal [stable I m] along the structure of [m]; [atom] closes the
    goals about calls of the clients, of the identifier map, of the counters
    and of other functions of the migration. *)
Ltac stable_split atom :=
  repeat first
    [ solve [atom]
    | apply stable_id_map_get
    | apply stable_ret
    | apply stable_raise
    | apply stable_out_of_fuel
    | apply stable_lift_res
    | apply stable_get_state
    | match goal with
      | |- stable _ (if ?b then _ else _) => destruct b
      | |- stable _ (match ?x with _ => _ end) => destruct x
      | |- stable _ (bind _ _) => apply stable_bind; [|intros ?]
      | |- stable _ (for_each _ _) => apply stable_for_each; intros ?
      | |- stable _ (try_except _ _) => apply stable_try_except; [|intros ?]
      end ].

Section StableMigration.

Context {Env : Type} {E : Environment Env}.

(** An assertion [I] that survives the source client, the target client on
    the endpoints [eps], the writes to the identifier map and the writes
    [ops] to the counters survives every function of the migration that
    posts to [eps] only and writes [ops] only. *)
Variable I : KaitenMigration -> @World Env -> Prop.
Variable eps : endpoint -> Prop.
Variable ops : ledger_op -> Prop.

Hypothesis Hsrc : source_frame I.
Hypothesis Htgt : target_frame eps I.
Hypothesis Hmap : map_frame I.
Hypothesis Hstat : stat_frame ops I.

Hypothesis post_properties : eps (EP "/custom-properties").
Hypothesis post_tags : eps (EP "/tags").
Hypothesis post_spaces : eps (EP "/spaces").
Hypothesis post_boards : eps (EP "/boards").
Hypothesis post_columns : eps (EP "/columns").
Hypothesis post_lanes : eps (EP "/lanes").
Hypothesis post_cards : eps (EP "/cards").
Hypothesis post_card_tags : forall id, eps (EPf "/cards/" id "/tags").
Hypothesis post_comments : eps (EP "/card-comments/add-comment").
Hypothesis post_checklists : eps (EP "/card-checklists").
Hypothesis post_checklist_items : eps (EP "/card-checklist-items").
Hypothesis post_children : forall id, eps (EPf "/cards/" id "/children").

Hypothesis set_properties : forall l, ops (SetTotal CustomProperties (len l)).
Hypothesis inc_properties :
  ops (IncMigrated CustomProperties) /\ ops (IncFailed CustomProperties).
Hypothesis set_tags : forall l, ops (SetTotal Tags (len l)).
Hypothesis inc_tags : ops (IncMigrated Tags) /\ ops (IncFailed Tags).
Hypothesis set_spaces : forall l, ops (SetTotal Spaces (len l)).
Hypothesis inc_spaces : ops (IncMigrated Spaces) /\ ops (IncFailed Spaces).
Hypothesis add_boards : forall l, ops (AddTotal Boards (len l)).
Hypothesis inc_boards : ops (IncMigrated Boards) /\ ops (IncFailed Boards).
Hypothesis set_cards : forall l, ops (SetTotal Cards (len l)).
Hypothesis inc_cards : ops (IncMigrated Cards) /\ ops (IncFailed Cards).
Hypothesis add_comments : forall l, ops (AddTotal Comments (len l)).
Hypothesis inc_comments : ops (IncMigrated Comments) /\ ops (IncFailed Comments).
Hypothesis add_checklists : forall l, ops (AddTotal Checklists (len l)).
Hypothesis inc_checklists : ops (IncMigrated Checklists) /\ ops (IncFailed Checklists).

Ltac client_call :=
  first
    [ apply stable_source_get_paginated; exact Hsrc
    | apply stable_source_get; exact Hsrc
    | apply (stable_target_post I eps); [exact Htgt|];
      first [ exact post_properties | exact post_tags | exact post_spaces
            | exact post_boards | exact post_columns | exact post_lanes
            | exact post_cards | apply post_card_tags | exact post_comments
            | exact post_checklists | exact post_checklist_items
            | apply post_children ]
    | apply stable_id_map_set; exact Hmap
    | apply (stable_record_stat I ops); [exact Hstat|];
      first [ apply set_properties | apply inc_properties | apply set_tags
            | apply inc_tags | apply set_spaces | apply inc_spaces
            | apply add_boards | apply inc_boards | apply set_cards
            | apply inc_cards | apply add_comments | apply inc_comments
            | apply add_checklists | apply inc_checklists ] ].

Lemma stable_migrate_property fuel prop : stable I (migrate_property fuel prop).
Proof. unfold migrate_property. stable_split client_call. Qed.

Lemma stable_migrate_custom_properties fuel : stable I (migrate_custom_properties fuel).
Proof.
  unfold migrate_custom_properties.
  stable_split ltac:(first [client_call | apply stable_migrate_property]).
Qed.

Lemma stable_migrate_tag fuel tag : stable I (migrate_tag fuel tag).
Proof. unfold migrate_tag. stable_split client_call. Qed.

Lemma stable_migrate_tags fuel : stable I (migrate_tags fuel).
Proof.
  unfold migrate_tags.
  stable_split ltac:(first [client_call | apply stable_migrate_tag]).
Qed.

Lemma stable_migrate_column fuel nb col : stable I (migrate_column fuel nb col).
Proof. unfold migrate_column. stable_split client_call. Qed.

Lemma stable_migrate_lane fuel nb lane : stable I (migrate_lane fuel nb lane).
Proof. unfold migrate_lane. stable_split client_call. Qed.

Lemma stable_migrate_columns_and_lanes fuel ob nb data :
  stable I (migrate_columns_and_lanes fuel ob nb data).
Proof.
  unfold migrate_columns_and_lanes.
  stable_split ltac:(first [apply stable_migrate_column | apply stable_migrate_lane]).
Qed.

Lemma stable_migrate_board fuel ns board : stable I (migrate_board fuel ns board).
Proof.
  unfold migrate_board.
  stable_split ltac:(first [client_call | apply stable_migrate_columns_and_lanes]).
Qed.

Lemma stable_migrate_boards_in_space fuel os ns :
  stable I (migrate_boards_in_space fuel os ns).
Proof.
  unfold migrate_boards_in_space.
  stable_split ltac:(first [client_call | apply stable_migrate_board]).
Qed.

Lemma stable_migrate_space fuel space : stable I (migrate_space fuel space).
Proof.
  unfold migrate_space.
  stable_split ltac:(first [client_call | apply stable_migrate_boards_in_space]).
Qed.

Lemma stable_migrate_spaces_and_boards fuel : stable I (migrate_spaces_and_boards fuel).
Proof.
  unfold migrate_spaces_and_boards.
  stable_split ltac:(first [client_call | apply stable_migrate_space]).
Qed.

Lemma stable_migrate_card_tags fuel oc nc tags :
  stable I (migrate_card_tags fuel oc nc tags).
Proof. unfold migrate_card_tags. stable_split client_call. Qed.

Lemma stable_rewrite_properties items : stable I (rewrite_properties items).
Proof.
  induction items as [|[key v] items IH]; cbn [rewrite_properties].
  - apply stable_ret.
  - stable_split ltac:(first [client_call | exact IH]).
Qed.

Lemma stable_card_properties card : stable I (card_properties card).
Proof.
  unfold card_properties.
  stable_split ltac:(first [client_call | apply stable_rewrite_properties]).
Qed.

Lemma stable_record_card fuel card card_id result :
  stable I (record_card fuel card card_id result).
Proof.
  unfold record_card.
  stable_split ltac:(first [client_call | apply stable_migrate_card_tags]).
Qed.

Lemma stable_migrate_single_card fuel card : stable I (migrate_single_card fuel card).
Proof.
  unfold migrate_single_card.
  stable_split ltac:(first [client_call | apply stable_card_properties
                           | apply stable_record_card]).
Qed.

Lemma stable_migrate_cards fuel : stable I (migrate_cards fuel).
Proof.
  unfold migrate_cards.
  stable_split ltac:(first [client_call | apply stable_migrate_single_card]).
Qed.

Lemma stable_migrate_comments fuel : stable I (migrate_comments fuel).
Proof. unfold migrate_comments. stable_split client_call. Qed.

Lemma stable_migrate_checklists fuel : stable I (migrate_checklists fuel).
Proof. unfold migrate_checklists. stable_split client_call. Qed.

Lemma stable_migrate_card_relations fuel : stable I (migrate_card_relations fuel).
Proof. unfold migrate_card_relations. stable_split client_call. Qed.


End StableMigration.

(** ** Spaces *)

(** The run of the whole migration over the account with two spaces, one of
    them archived. *)
Example two_spaces_run :
  let x := migrate_all (E := SimEnvironment two_spaces) 5 fresh_migration sim_world in
  result_of x = Ok tt
  /\ stats (final_state x) Spaces = {| total := 2; migrated := 1; failed := 0 |}
  /\ stats (final_state x) Boards = {| total := 1; migrated := 1; failed := 0 |}
  /\ stats (final_state x) Cards = {| total := 4; migrated := 2; failed := 2 |}
  /\ posts_of (trace (final_world x))
     = [EP "/spaces"; EP "/boards"; EP "/columns"; EP "/lanes"; EP "/cards"; EP "/cards"]
  /\ id_map (final_state x) "spaces" = [(VInt 1, VInt 1003)].
Proof. vm_compute. repeat split; reflexivity. Qed.

(** C6, as the claim states it, fails: over two spaces of which one is
    archived the archived space is skipped, and yet the total of spaces
    is 2, not 1. *)
Lemma C6_total_counts_archived :
  let x := migrate_spaces_and_boards (E := SimEnvironment two_spaces) 5
             fresh_migration sim_world in
  total (stats (final_state x) Spaces) = 2
  /\ migrated (stats (final_state x) Spaces) = 1
  /\ posts_of (trace (final_world x))
     = [EP "/spaces"; EP "/boards"; EP "/columns"; EP "/lanes"]
  /\ ~ (total (stats (final_state x) Spaces) = 1).
Proof. vm_compute. repeat split; try reflexivity. discriminate. Qed.

Section SpacesTotal.

Context {Env : Type} {E : Environment Env}.

Lemma spaces_total_stat_frame n :
  stat_frame (keeps_total Spaces) (@total_is Env Spaces n).
Proof.
  intros st w op Hop Hst. unfold total_is in *. simpl. unfold apply_op.
  destruct op as [k m|k m|k|k]; simpl in *;
    try (rewrite Hop; exact Hst); destruct k; simpl; exact Hst.
Qed.

(** The loop over the spaces does not touch the total of spaces. *)
Lemma migrate_space_keeps_total fuel space n :
  stable (@total_is Env Spaces n) (migrate_space fuel space).
Proof.
  apply (stable_migrate_space (total_is Spaces n) (fun _ => True) (keeps_total Spaces));
    try exact Logic.I.
  - intros st w api w' new H _ _. exact H.
  - intros st w api w' new H _ _. exact H.
  - intros st w kind t H. exact H.
  - apply spaces_total_stat_frame.
  - split; exact Logic.I.
  - intros l. reflexivity.
  - split; exact Logic.I.
Qed.

End SpacesTotal.

(** C6, amended.  An archived space is skipped entirely: the body of the
    loop returns at once, with no call of either client and no change of the
    state.  The total of spaces counts every space fetched, the archived
    ones too: after [migrate_spaces_and_boards] it is the number of records
    that [get_paginated] returned for ["/spaces"]. *)
Theorem C6_archived_skipped_but_counted {Env : Type} {E : Environment Env}
    (fuel : nat) (st : KaitenMigration) (w : World) :
  (forall space,
     truthy (card_field space "archived") = true ->
     migrate_space fuel (VDict space) st w = (Ok tt, st, w))
  /\ (forall spaces src w1,
        get_paginated fuel (EP "/spaces") None 100 (source st) w = (Ok spaces, src, w1) ->
        total (stats (final_state (migrate_spaces_and_boards fuel st w)) Spaces)
        = len spaces).
Proof.
  split.
  - intros space Harch. unfold migrate_space, bind, lift_res. simpl.
    fold (card_field space "archived"). rewrite Harch. reflexivity.
  - intros spaces src w1 Hget.
    unfold migrate_spaces_and_boards, bind at 1, on_source. rewrite Hget.
    unfold record_stat, bind, get_state, put_state, emit. cbn iota beta.
    match goal with
    | |- context [for_each spaces (migrate_space fuel) ?s1 ?u1] =>
        destruct (for_each spaces (migrate_space fuel) s1 u1) as [[r2 st2] w3] eqn:Hloop;
        assert (Hfinal : total (stats st2 Spaces) = len spaces)
          by (apply (stable_run (fun x _ => total (stats x Spaces) = len spaces)
                       (for_each spaces (migrate_space fuel)) s1 u1 r2 st2 w3);
              [ apply stable_for_each; intros space; apply migrate_space_keeps_total
              | reflexivity
              | exact Hloop ])
    end.
    destruct r2; exact Hfinal.
Qed.

Lemma C6_archived_skipped_but_counted_witness :
  total (stats (final_state
                  (migrate_spaces_and_boards (E := SimEnvironment two_spaces) 5
                     fresh_migration sim_world)) Spaces)
  = 2.
Proof.
  refine (proj2 (C6_archived_skipped_but_counted (E := SimEnvironment two_spaces)
                   5 fresh_migration sim_world)
            [ VDict [("id", VInt 1); ("title", VStr "Alpha"); ("archived", VBool false)];
              VDict [("id", VInt 2); ("title", VStr "Old"); ("archived", VBool true)] ]
            _ _ _).
  vm_compute. reflexivity.
Defined.

(** ** The identifier map *)

Lemma key_eqb_refl k : hashable k = true -> key_eqb k k = true.
Proof.
  destruct k; simpl; intros H; try discriminate; trivial.
  - apply Bool.eqb_reflx.
  - apply Z.eqb_refl.
  - apply String.eqb_refl.
Qed.

Lemma table_find_put k v t :
  hashable k = true -> table_find k (table_put k v t) = Some v.
Proof.
  intros Hk. induction t as [|[k' v'] t IH]; simpl.
  - rewrite key_eqb_refl by exact Hk. reflexivity.
  - destruct (key_eqb k k') eqn:Heq; simpl; rewrite Heq; [reflexivity|exact IH].
Qed.

(** C3, as the claim states it, fails.  A source lists the property 7
    twice; the target creates 1001 for the first record and 1002 for the
    second.  The second record replaces the first entry: the map ends with
    7 -> 1002, both records count as migrated, none as failed.  The same is
    seen on the two assignments alone: nothing fails and the world is as
    before. *)
Lemma C3_second_record_overwrites :
  (let x := migrate_custom_properties (E := SimEnvironment twin_properties) 5
              fresh_migration sim_world in
   result_of x = Ok tt
   /\ id_map (final_state x) "properties" = [(VInt 7, VInt 1002)]
   /\ table_get (VInt 7) (id_map (final_state x) "properties") <> Ok (VInt 1001)
   /\ stats (final_state x) CustomProperties
      = {| total := 2; migrated := 2; failed := 0 |})
  /\ (let y := (id_map_set (Env := Sim) "properties" (VInt 7) (VInt 1001) ;;
                id_map_set "properties" (VInt 7) (VInt 1002))
                 fresh_migration sim_world in
      result_of y = Ok tt
      /\ id_map (final_state y) "properties" = [(VInt 7, VInt 1002)]
      /\ final_world y = sim_world).
Proof. vm_compute. repeat split; try reflexivity. discriminate. Qed.

(** C3, amended.  Recording [key -> x] and then [key -> y] in the table
    [kind] does not fail and flags nothing: the second assignment replaces
    the first, the table then maps [key] to [y], the other tables and the
    counters are as before and the world is untouched. *)
Theorem C3_last_record_wins {Env : Type} (kind : string) (key x y : value)
    (st : KaitenMigration) (w : @World Env) :
  hashable key = true ->
  exists st',
    (id_map_set kind key x ;; id_map_set kind key y) st w = (Ok tt, st', w)
    /\ table_get key (id_map st' kind) = Ok y
    /\ (forall kind', kind' <> kind -> id_map st' kind' = id_map st kind')
    /\ stats st' = stats st.
Proof.
  intros Hk. unfold id_map_set, bind, get_state, lift_res, put_state, table_set.
  rewrite Hk. simpl. eexists. split; [reflexivity|]. simpl.
  rewrite !String.eqb_refl. unfold table_get. rewrite Hk.
  rewrite table_find_put by exact Hk. repeat split.
  intros kind' Hne. apply String.eqb_neq in Hne. rewrite Hne. reflexivity.
Qed.

Lemma C3_last_record_wins_witness :
  exists st',
    (id_map_set (Env := Sim) "properties" (VInt 7) (VInt 1001) ;;
     id_map_set "properties" (VInt 7) (VInt 1002)) fresh_migration sim_world
    = (Ok tt, st', sim_world)
    /\ table_get (VInt 7) (id_map st' "properties") = Ok (VInt 1002)
    /\ (forall kind', kind' <> "properties" ->
        id_map st' kind' = id_map fresh_migration kind')
    /\ stats st' = stats fresh_migration.
Proof.
  apply (C3_last_record_wins (Env := Sim) "properties" (VInt 7)
           (VInt 1001) (VInt 1002) fresh_migration sim_world).
  reflexivity.
Defined.

Lemma C4_dependency_skip_witness :
  migrate_single_card (E := SimEnvironment offline) 5 (VDict orphan_card)
    fresh_migration sim_world
  = (Ok tt, count_failed Cards fresh_migration, logged (IncFailed Cards) sim_world).
Proof.
  refine (proj1 (C4_dependency_skip (E := SimEnvironment offline) 5 orphan_card
                   (VInt 503) fresh_migration sim_world [] _ _ _)).
  - reflexivity.
  - reflexivity.
  - left. split; reflexivity.
Defined.

Section RequestsBegin.

Context {Env : Type} {E : Environment Env}.

Lemma requests_begin_app {S} pre (s s' : S) (w w' : @World Env) new :
  requests_begin pre s w -> trace w' = trace w ++ new -> requests_begin pre s' w'.
Proof.
  intros [more Hmore] Htr. exists (more ++ requests_of new).
  rewrite Htr, requests_of_app, Hmore, app_assoc. reflexivity.
Qed.

(** A POST sent with fuel left is in the trace, whatever follows. *)
Lemma post_then fuel ep data (k : value -> @M Env KaitenMigration unit) st w :
  (forall result,
     stable (requests_begin
               (requests_of (trace w)
                ++ [mk_request (target st) POST ep (KwJson data)])) (k result)) ->
  let x := bind (on_target (post (S fuel) ep data)) k st w in
  requests_begin
    (requests_of (trace w) ++ [mk_request (target st) POST ep (KwJson data)])
    (final_state x) (final_world x).
Proof.
  intros Hk x. subst x. unfold bind, on_target, post.
  destruct (_request (S fuel) POST ep (KwJson data) (target st) w)
    as [[r api] w1] eqn:Hrun.
  destruct (_request_effect _ _ _ _ _ _ _ _ _ Hrun)
    as (new & n & Htr & _ & Hreq & _ & _ & _ & Hn).
  assert (Hn1 : (1 <= n)%nat) by (apply Hn; left; discriminate).
  assert (Hsent : requests_begin
            (requests_of (trace w) ++ [mk_request (target st) POST ep (KwJson data)])
            (with_target api st) w1).
  { destruct n as [|n]; [lia|]. exists (repeat (mk_request (target st) POST ep (KwJson data)) n).
    rewrite Htr, requests_of_app, Hreq, <- app_assoc. reflexivity. }
  destruct r as [result|e|]; try exact Hsent.
  specialize (Hk result _ _ Hsent). unfold final_state, final_world.
  fold (with_target api st).
  destruct (k result (with_target api st) w1) as [[[u|e|] st2] w2]; exact Hk.
Qed.

Lemma record_card_requests_begin pre fuel card card_id result :
  stable (@requests_begin Env KaitenMigration pre) (record_card fuel card card_id result).
Proof.
  apply (stable_record_card (requests_begin pre) (fun _ => True) (fun _ => True));
    try exact Logic.I.
  - intros st w api w' new H Htr _. exact (requests_begin_app pre _ _ _ _ new H Htr).
  - intros st w kind t H. exact H.
  - intros st w op _ H.
    exact (requests_begin_app pre st (with_op op st) w (logged op w) [EvLedger op]
             H eq_refl).
  - intros id. exact Logic.I.
  - split; exact Logic.I.
Qed.

End RequestsBegin.

(** C10 (unmapped lane).  A card whose board and column are mapped and
    whose lane identifier has no entry in the identifier map is not
    skipped: provided the rewriting of its custom properties succeeds,
    [migrate_single_card] sends the creation request to ["/cards"], and in
    it the lane is [None].  (An unmapped board or column makes the card
    skipped and counted as failed: that is C4.) *)
Theorem C10_unmapped_lane_dropped {Env : Type} {E : Environment Env} (fuel : nat)
    (card : pydict) (card_id : value) (st : KaitenMigration) (w : World)
    (new_board_id new_column_id : value) (properties : list (string * out)) :
  dict_get "id" card = Some card_id ->
  mapped "boards" (card_field card "board_id") new_board_id st ->
  truthy new_board_id = true ->
  mapped "columns" (card_field card "column_id") new_column_id st ->
  truthy new_column_id = true ->
  unmapped "lanes" (card_field card "lane_id") st ->
  card_properties (VDict card) st w = (Ok properties, st, w) ->
  exists title more,
    requests_of (trace (final_world (migrate_single_card (S fuel) (VDict card) st w)))
    = requests_of (trace w)
      ++ mk_request (target st) POST (EP "/cards")
           (KwJson (card_without_lane title card new_board_id new_column_id properties))
         :: more.
Proof.
  intros Hid [Hb1 Hb2] Hbt [Hc1 Hc2] Hct [Hl1 Hl2] Hprops.
  unfold migrate_single_card.
  unfold bind at 1. unfold lift_res at 1. cbn [py_index]. rewrite Hid.
  unfold bind at 1. unfold lift_res at 1. cbn [py_get_default].
  unfold bind at 1. unfold lift_res at 1. cbn [py_get]. fold (card_field card "board_id").
  unfold bind at 1. unfold id_map_get at 1, bind at 1, get_state at 1, lift_res at 1,
    table_get. rewrite Hb1, Hb2, Hbt. cbn [negb].
  unfold bind at 1. unfold lift_res at 1. cbn [py_get]. fold (card_field card "column_id").
  unfold bind at 1. unfold id_map_get at 1, bind at 1, get_state at 1, lift_res at 1,
    table_get. rewrite Hc1, Hc2.
  unfold bind at 1. unfold lift_res at 1. cbn [py_get]. fold (card_field card "lane_id").
  assert (Hlane :
    (if truthy (card_field card "lane_id")
     then id_map_get "lanes" (card_field card "lane_id")
     else ret VNone) st w = (Ok VNone, st, w)).
  { destruct (truthy (card_field card "lane_id")); [|reflexivity].
    unfold id_map_get, bind, get_state, lift_res, table_get.
    rewrite Hl1, Hl2. reflexivity. }
  unfold bind at 1. rewrite Hlane, Hct. cbn [negb].
  unfold bind at 1. unfold lift_res at 1. cbn [py_get]. fold (card_field card "description").
  unfold bind at 1. unfold lift_res at 1. cbn [py_get_default].
  unfold bind at 1. unfold lift_res at 1. cbn [py_get]. fold (card_field card "due_date").
  unfold bind at 1. unfold lift_res at 1. cbn [py_get]. fold (card_field card "size_text").
  unfold bind at 1. rewrite Hprops.
  match goal with
  | |- context [("title", ?t)] => exists t
  end.
  match goal with
  | |- context [bind (on_target (post (S fuel) (EP "/cards") ?data)) ?k st w] =>
      destruct (post_then fuel (EP "/cards") data k st w) as [more Hmore];
        [intros result; apply record_card_requests_begin|]
  end.
  exists more. rewrite Hmore, <- app_assoc. reflexivity.
Qed.

Lemma C10_unmapped_lane_dropped_witness :
  exists title more,
    requests_of
      (trace (final_world
                (migrate_single_card (E := SimEnvironment (account [] [])) 1
                   (VDict card_in_lane) board_and_column_mapped sim_world)))
    = requests_of (trace sim_world)
      ++ mk_request (target board_and_column_mapped) POST (EP "/cards")
           (KwJson (card_without_lane title card_in_lane (VInt 1010) (VInt 1100) []))
         :: more.
Proof.
  apply (C10_unmapped_lane_dropped (E := SimEnvironment (account [] [])) 0
           card_in_lane (VInt 501) board_and_column_mapped sim_world
           (VInt 1010) (VInt 1100) []).
  - reflexivity.
  - split; reflexivity.
  - reflexivity.
  - split; reflexivity.
  - reflexivity.
  - split; reflexivity.
  - reflexivity.
Defined.

(** The card in the unmapped lane 200 is created, with no lane. *)
Example card_in_lane_sent :
  let x := migrate_single_card (E := SimEnvironment (account [] [])) 1
             (VDict card_in_lane) board_and_column_mapped sim_world in
  map rq_kwargs (requests_of (trace (final_world x)))
  = [KwJson (OD [("title", OV (VStr "a")); ("description", OV VNone);
                 ("board_id", OV (VInt 1010)); ("column_id", OV (VInt 1100));
                 ("lane_id", OV VNone); ("asap", OV (VBool false));
                 ("due_date", OV VNone); ("size_text", OV VNone)])]
  /\ stats (final_state x) Cards = {| total := 0; migrated := 1; failed := 0 |}.
Proof. vm_compute. split; reflexivity. Qed.

(** ** The order of the stages *)

Section Order.

Context {Env : Type} {E : Environment Env}.

Lemma posts_of_app tr1 tr2 : posts_of (tr1 ++ tr2) = posts_of tr1 ++ posts_of tr2.
Proof. unfold posts_of. rewrite requests_of_app. apply flat_map_app. Qed.

Lemma creations_app tr1 tr2 : creations (tr1 ++ tr2) = creations tr1 ++ creations tr2.
Proof. unfold creations. rewrite posts_of_app. apply map_app. Qed.

Lemma creations_quiet new :
  Forall (fun ev => source_event ev \/ exists op, ev = EvLedger op) new ->
  creations new = [].
Proof.
  induction 1 as [|ev new Hev _ IH]; [reflexivity|].
  change (ev :: new) with ([ev] ++ new). rewrite creations_app, IH, app_nil_r.
  destruct ev as [r|d|op]; try reflexivity.
  destruct Hev as [Hget|[op Hop]]; [|discriminate].
  simpl in Hget. unfold creations, posts_of. simpl. rewrite Hget. reflexivity.
Qed.

Lemma creations_target i new :
  Forall (target_event (endpoint_of_phase i)) new ->
  Forall (fun c => phase c = i) (creations new).
Proof.
  induction 1 as [|ev new Hev _ IH]; [constructor|].
  change (ev :: new) with ([ev] ++ new). rewrite creations_app.
  apply Forall_app. split; [|exact IH].
  destruct ev as [r|d|op]; try constructor.
  simpl in Hev. destruct Hev as [Hpost Hphase].
  unfold creations, posts_of. simpl. rewrite Hpost. simpl.
  constructor; [exact Hphase|constructor].
Qed.

Lemma same_phase_sorted i new :
  Forall (fun c => phase c = i) new -> StronglySorted le (map phase new).
Proof.
  induction new as [|c new IH]; intros Hnew; simpl; [constructor|].
  inversion Hnew as [|x xs Hc Hrest]; subst.
  constructor; [apply IH; exact Hrest|].
  rewrite Forall_map. eapply Forall_impl; [|exact Hrest]. simpl. intros a Ha. lia.
Qed.

Lemma in_order_app i cs new :
  (1 <= i)%nat -> in_order i cs -> Forall (fun c => phase c = i) new ->
  in_order i (cs ++ new).
Proof.
  intros Hi [Hsorted Hall] Hnew. split.
  - rewrite map_app. induction cs as [|c cs IH]; simpl.
    + apply (same_phase_sorted i). exact Hnew.
    + inversion Hsorted as [|x xs Hs Hx]; subst. inversion Hall as [|y ys Hy Hys]; subst.
      constructor; [apply IH; assumption|].
      apply Forall_app. split; [exact Hx|].
      rewrite Forall_map. eapply Forall_impl; [|exact Hnew]. simpl. intros a Ha. lia.
  - apply Forall_app. split; [exact Hall|].
    eapply Forall_impl; [|exact Hnew]. simpl. intros a Ha. lia.
Qed.

Lemma in_order_weaken i j cs : (i <= j)%nat -> in_order i cs -> in_order j cs.
Proof.
  intros Hij [Hsorted Hall]. split; [exact Hsorted|].
  eapply Forall_impl; [|exact Hall]. simpl. intros a Ha. lia.
Qed.

Lemma order_source_frame i : source_frame (@created_in_order Env i).
Proof.
  intros st w api w' new H Htr Hnew. unfold created_in_order in *.
  rewrite Htr, creations_app, (creations_quiet new), app_nil_r; [exact H|].
  eapply Forall_impl; [|exact Hnew]. auto.
Qed.

Lemma order_target_frame i :
  (1 <= i)%nat ->
  target_frame (endpoint_of_phase i) (@created_in_order Env i).
Proof.
  intros Hi st w api w' new H Htr Hnew. unfold created_in_order in *.
  rewrite Htr, creations_app. apply in_order_app; [exact Hi|exact H|].
  apply creations_target. exact Hnew.
Qed.

Lemma order_map_frame i : map_frame (@created_in_order Env i).
Proof. intros st w kind t H. exact H. Qed.

Lemma order_stat_frame i :
  stat_frame (fun _ => True) (@created_in_order Env i).
Proof.
  intros st w op _ H. unfold created_in_order in *. simpl.
  rewrite creations_app, (creations_quiet [EvLedger op]), app_nil_r; [exact H|].
  constructor; [right; eauto|constructor].
Qed.

End Order.

Section OrderOfStages.

Context {Env : Type} {E : Environment Env}.

Ltac order_frames :=
  first
    [ apply order_source_frame
    | apply order_target_frame; lia
    | apply order_map_frame
    | apply order_stat_frame
    | exact Logic.I
    | reflexivity
    | split; exact Logic.I
    | intros ?; exact Logic.I
    | intros ?; reflexivity ].

Lemma order_migrate_custom_properties fuel :
  stable (@created_in_order Env 1) (migrate_custom_properties fuel).
Proof.
  eapply stable_migrate_custom_properties with (eps := endpoint_of_phase 1);
    order_frames.
Qed.

Lemma order_migrate_tags fuel : stable (@created_in_order Env 2) (migrate_tags fuel).
Proof. eapply stable_migrate_tags with (eps := endpoint_of_phase 2); order_frames. Qed.

Lemma order_migrate_spaces_and_boards fuel :
  stable (@created_in_order Env 3) (migrate_spaces_and_boards fuel).
Proof.
  eapply stable_migrate_spaces_and_boards with (eps := endpoint_of_phase 3);
    order_frames.
Qed.

Lemma order_migrate_cards fuel : stable (@created_in_order Env 4) (migrate_cards fuel).
Proof. eapply stable_migrate_cards with (eps := endpoint_of_phase 4); order_frames. Qed.

Lemma order_migrate_comments fuel :
  stable (@created_in_order Env 5) (migrate_comments fuel).
Proof.
  eapply stable_migrate_comments with (eps := endpoint_of_phase 5); order_frames.
Qed.

Lemma order_migrate_checklists fuel :
  stable (@created_in_order Env 6) (migrate_checklists fuel).
Proof.
  eapply stable_migrate_checklists with (eps := endpoint_of_phase 6); order_frames.
Qed.

Lemma order_migrate_card_relations fuel :
  stable (@created_in_order Env 7) (migrate_card_relations fuel).
Proof.
  eapply stable_migrate_card_relations with (eps := endpoint_of_phase 7);
    order_frames.
Qed.

(** A stage of the phase [j], entered when all the creation calls made are
    of the phases up to [i <= j]. *)
Lemma order_stage {A} i j (m : @M Env KaitenMigration A) :
  (i <= j <= 7)%nat -> stable (@created_in_order Env j) m ->
  hoare (@created_in_order Env i) m (fun _ => @created_in_order Env j) (@created_in_order Env 7).
Proof.
  intros Hij Hm. eapply hoare_conseq; [exact Hm| | |];
    unfold created_in_order; intros; eapply in_order_weaken; try eassumption; lia.
Qed.

Lemma order_stages fuel :
  hoare (@created_in_order Env 0) (stages fuel) (fun _ => @created_in_order Env 7) (@created_in_order Env 7).
Proof.
  unfold stages.
  eapply hoare_bind;
    [apply (order_stage 0 1); [lia|apply order_migrate_custom_properties]|intros ?].
  eapply hoare_bind;
    [apply (order_stage 1 2); [lia|apply order_migrate_tags]|intros ?].
  eapply hoare_bind;
    [apply (order_stage 2 3); [lia|apply order_migrate_spaces_and_boards]|intros ?].
  eapply hoare_bind;
    [apply (order_stage 3 4); [lia|apply order_migrate_cards]|intros ?].
  eapply hoare_bind;
    [apply (order_stage 4 5); [lia|apply order_migrate_comments]|intros ?].
  eapply hoare_bind;
    [apply (order_stage 5 6); [lia|apply order_migrate_checklists]|intros ?].
  apply (order_stage 6 7); [lia|apply order_migrate_card_relations].
Qed.

Lemma order_call_time i X :
  (forall s w, created_in_order i s w -> X s w) ->
  hoare (@created_in_order Env i) call_time (fun _ => @created_in_order Env i) X.
Proof.
  intros _ s w H. unfold call_time. destruct (time_time (env w)). exact H.
Qed.

Lemma order_migrate_all fuel :
  hoare (@created_in_order Env 0) (migrate_all fuel) (fun _ => @created_in_order Env 7) (@created_in_order Env 7).
Proof.
  unfold migrate_all.
  eapply hoare_bind.
  { apply (order_call_time 0).
    intros s w H. apply (in_order_weaken 0 7); [lia|exact H]. }
  intros ?. eapply hoare_bind.
  { eapply hoare_try_except; [apply order_stages| |auto].
    intros e. apply hoare_ret. auto. }
  intros ?. eapply hoare_bind; [apply (order_call_time 7); auto|].
  intros ?. apply hoare_ret. auto.
Qed.

End OrderOfStages.

(** ** The counters *)


Section Accounting.

Context {Env : Type} {E : Environment Env}.









Lemma len_nonneg l : 0 <= len l.
Proof. unfold len. lia. Qed.


Lemma stable_call_time_trace (I : KaitenMigration -> @World Env -> Prop) :
  (forall st w e, I st w -> I st {| env := e; trace := trace w |}) ->
  stable I call_time.
Proof.
  intros HI st w H. unfold call_time.
  destruct (time_time (env w)) as [t e]. apply HI. exact H.
Qed.







End Accounting.

Section WrittenOnce.

Context {Env : Type} {E : Environment Env}.






(** The rank of an assignment tells its kind. *)
Lemma set_total_rank k k' n n' :
  (1 <= op_rank (SetTotal k n))%nat ->
  op_rank (SetTotal k' n') = op_rank (SetTotal k n) -> k' = k.
Proof. destruct k, k'; simpl; intros H1 H2; try reflexivity; lia. Qed.














End WrittenOnce.




(** ** Boards under spaces, columns and lanes under boards *)

Section Nesting.

Context {Env : Type} {E : Environment Env}.

Lemma last_created_app prev cs ds :
  last_created prev (cs ++ ds) = last_created (last_created prev cs) ds.
Proof. apply fold_left_app. Qed.

Lemma nested_from_app prev cs ds :
  nested_from prev (cs ++ ds)
  = nested_from prev cs && nested_from (last_created prev cs) ds.
Proof.
  revert prev. induction cs as [|c cs IH]; intros prev; [reflexivity|].
  simpl. rewrite IH, andb_assoc. reflexivity.
Qed.

(** A run of the same creation, started where it may start. *)
Lemma nested_repeat prev c k :
  under_parent prev c = true -> under_parent (Some c) c = true ->
  nested_from prev (repeat c k) = true
  /\ under_parent (last_created prev (repeat c k)) c = true
  /\ ((1 <= k)%nat -> last_created prev (repeat c k) = Some c).
Proof.
  intros Hprev Hself. revert prev Hprev.
  induction k as [|k IH]; intros prev Hprev.
  - simpl. repeat split; [exact Hprev|lia].
  - destruct (IH (Some c) Hself) as (H1 & H2 & H3).
    change (repeat c (S k)) with ([c] ++ repeat c k).
    rewrite nested_from_app, last_created_app. simpl. rewrite Hprev, H1.
    change (last_created prev [c]) with (Some c).
    repeat split; [exact H2|]. intros _.
    destruct k; [reflexivity|]. apply H3. lia.
Qed.

Lemma creations_repeat new req k :
  requests_of new = repeat req k -> rq_method req = POST ->
  creations new = repeat (creation_of (rq_endpoint req)) k.
Proof.
  intros Hreq Hpost. unfold creations, posts_of. rewrite Hreq. clear Hreq.
  induction k as [|k IH]; [reflexivity|]. simpl. rewrite Hpost. simpl.
  f_equal. exact IH.
Qed.

Lemma nested_source_frame J : source_frame (@nested Env J).
Proof.
  intros st w api w' new H Htr Hnew. unfold nested in *.
  rewrite Htr, creations_app, (creations_quiet new), app_nil_r; [exact H|].
  eapply Forall_impl; [|exact Hnew]. auto.
Qed.

Lemma nested_map_frame J : map_frame (@nested Env J).
Proof. intros st w kind t H. exact H. Qed.

Lemma nested_stat_frame J : stat_frame (fun _ => True) (@nested Env J).
Proof.
  intros st w op _ H. unfold nested in *. simpl.
  rewrite creations_app, (creations_quiet [EvLedger op]), app_nil_r; [exact H|].
  constructor; [right; eauto|constructor].
Qed.

Lemma creations_all (P : creation -> Prop) eps new :
  (forall ep, eps ep -> P (creation_of ep)) ->
  Forall (target_event eps) new -> Forall P (creations new).
Proof.
  intros HP. induction 1 as [|ev new Hev _ IH]; [constructor|].
  change (ev :: new) with ([ev] ++ new). rewrite creations_app.
  apply Forall_app. split; [|exact IH].
  destruct ev as [r|d|op]; try constructor.
  simpl in Hev. destruct Hev as [Hpost Hep].
  unfold creations, posts_of. simpl. rewrite Hpost. simpl.
  constructor; [apply HP; exact Hep|constructor].
Qed.

(** Creations that wait for no parent keep the nesting. *)
Lemma nested_parentless_frame : target_frame parentless (@nested Env anything).
Proof.
  intros st w api w' new [Hnest _] Htr Hnew. unfold nested.
  rewrite Htr, creations_app, nested_from_app, Hnest. simpl.
  split; [|exact Logic.I].
  pose proof (creations_all (fun c => forall prev, under_parent prev c = true)
                parentless new (fun ep H => H) Hnew) as Hall.
  generalize (last_created None (creations (trace w))).
  induction Hall as [|c cs Hc _ IH]; intros prev; [reflexivity|].
  simpl. rewrite Hc. apply IH.
Qed.

(** Creations of one kind that may follow itself keep "ready for [c]". *)
Lemma nested_ready_frame c :
  under_parent (Some c) c = true ->
  target_frame (creates c) (@nested Env (ready c)).
Proof.
  intros Hself st w api w' new [Hnest Hready] Htr Hnew. unfold nested, ready in *.
  rewrite Htr, creations_app, nested_from_app, last_created_app, Hnest. simpl.
  pose proof (creations_all (fun x => x = c) (creates c) new (fun ep H => H) Hnew)
    as Hall.
  revert Hready. generalize (last_created None (creations (trace w))).
  induction Hall as [|x cs Hx _ IH]; intros prev Hprev; [split; [reflexivity|exact Hprev]|].
  subst x. simpl. rewrite Hprev. simpl.
  change (last_created prev (c :: cs)) with (last_created (last_created prev [c]) cs).
  - apply IH. exact Hself.
Qed.

(** A POST that returns has created its object. *)
Lemma nested_post c fuel ep data :
  creation_of ep = c -> under_parent (Some c) c = true ->
  hoare (@nested Env (ready c)) (on_target (post fuel ep data))
    (fun _ => nested (just c)) (nested (ready c)).
Proof.
  intros Hep Hself st w [Hnest Hready]. unfold on_target, post.
  destruct (_request fuel POST ep (KwJson data) (target st) w) as [[r api] w'] eqn:Hrun.
  destruct (_request_effect _ _ _ _ _ _ _ _ _ Hrun)
    as (new & k & Htr & _ & Hreq & _ & _ & _ & Hk).
  pose proof (creations_repeat new _ k Hreq eq_refl) as Hcs. simpl in Hcs.
  rewrite Hep in Hcs.
  destruct (nested_repeat (last_created None (creations (trace w))) c k Hready Hself)
    as (H1 & H2 & H3).
  assert (Hchain : nested_from None (creations (trace w')) = true)
    by (rewrite Htr, creations_app, nested_from_app, Hnest, Hcs; exact H1).
  assert (Hlast : last_created None (creations (trace w'))
                  = last_created (last_created None (creations (trace w))) (repeat c k))
    by (rewrite Htr, creations_app, last_created_app, Hcs; reflexivity).
  destruct r as [v|x|]; unfold nested, ready, just; rewrite Hlast;
    (split; [exact Hchain|]); try exact H2.
  apply H3. apply Hk. right. eauto.
Qed.

End Nesting.

Section NestedStages.

Context {Env : Type} {E : Environment Env}.

Lemma nested_weaken (J J' : option creation -> Prop) st (w : @World Env) :
  (forall prev, J prev -> J' prev) -> nested J st w -> nested J' st w.
Proof. intros HJ [H1 H2]. split; [exact H1|apply HJ; exact H2]. Qed.

(** One of the assertions implies another, by cases on the last creation. *)
Ltac nested_cases :=
  let prev := fresh "prev" in
  let H := fresh "H" in
  intros prev; unfold ready, just, anything; intros H;
  try subst prev;
  try (destruct prev as [[]|]; simpl in *; try discriminate);
  try reflexivity; try exact Logic.I.

Ltac nested_implies :=
  let H := fresh "H" in
  intros ? ? H; (eapply nested_weaken; [|exact H]); nested_cases.

(** A step that creates nothing. *)
Ltac nested_quiet :=
  first
    [ apply stable_lift_res
    | apply stable_get_state
    | apply stable_id_map_get
    | apply stable_id_map_set; apply nested_map_frame
    | apply stable_source_get; apply nested_source_frame
    | apply stable_source_get_paginated; apply nested_source_frame
    | apply (stable_record_stat _ (fun _ => True));
        [apply nested_stat_frame|exact Logic.I] ].

Ltac quiet_step :=
  eapply hoare_bind; [apply stable_hoare; [nested_quiet|nested_implies]|intros ?].

Ltac branch :=
  match goal with
  | |- hoare _ (if ?b then _ else _) _ _ => destruct b
  end.

Ltac nested_frames :=
  first
    [ apply nested_source_frame
    | apply nested_ready_frame; reflexivity
    | apply nested_parentless_frame
    | apply nested_map_frame
    | apply nested_stat_frame
    | exact Logic.I
    | reflexivity
    | split; exact Logic.I
    | intros ?; exact Logic.I
    | intros ?; reflexivity
    | intros ? ?; reflexivity ].

Lemma nested_migrate_column fuel nb col :
  stable (@nested Env (ready CColumn)) (migrate_column fuel nb col).
Proof. eapply stable_migrate_column with (eps := creates CColumn); nested_frames. Qed.

Lemma nested_migrate_lane fuel nb lane :
  stable (@nested Env (ready CLane)) (migrate_lane fuel nb lane).
Proof. eapply stable_migrate_lane with (eps := creates CLane); nested_frames. Qed.

(** The columns of a board, then its lanes. *)
Lemma nested_migrate_columns_and_lanes fuel ob nb data :
  hoare (@nested Env (ready CColumn)) (migrate_columns_and_lanes fuel ob nb data)
    (fun _ => nested (ready CLane)) (nested (ready CLane)).
Proof.
  unfold migrate_columns_and_lanes.
  quiet_step. quiet_step.
  eapply hoare_bind.
  { apply stable_hoare; [|nested_implies].
    apply stable_for_each. intros col. apply nested_migrate_column. }
  intros ?. quiet_step. quiet_step.
  eapply hoare_conseq;
    [apply stable_for_each; intros lane; apply nested_migrate_lane
    |nested_implies|auto|auto].
Qed.

(** A board, then what is under it. *)
Lemma nested_migrate_board fuel ns board :
  stable (@nested Env (ready CBoard)) (migrate_board fuel ns board).
Proof.
  unfold migrate_board, stable.
  quiet_step. quiet_step. quiet_step.
  eapply hoare_bind; [apply (nested_post CBoard); reflexivity|intros result].
  quiet_step. branch.
  - quiet_step. quiet_step. quiet_step. quiet_step.
    branch.
    + quiet_step.
      eapply hoare_conseq;
        [apply nested_migrate_columns_and_lanes
        |nested_implies|intros ?; nested_implies|nested_implies].
    + apply hoare_ret. nested_implies.
  - eapply hoare_conseq;
      [apply (stable_record_stat (nested (just CBoard)) (fun _ => True));
         [apply nested_stat_frame|exact Logic.I]
      |auto|intros ?; nested_implies|nested_implies].
Qed.

Lemma nested_migrate_boards_in_space fuel os ns :
  stable (@nested Env (ready CBoard)) (migrate_boards_in_space fuel os ns).
Proof.
  unfold migrate_boards_in_space, stable.
  quiet_step. quiet_step.
  apply stable_for_each. intros board. apply nested_migrate_board.
Qed.

(** A space, then its boards. *)
Lemma nested_migrate_space fuel space :
  stable (@nested Env anything) (migrate_space fuel space).
Proof.
  unfold migrate_space, stable.
  quiet_step. branch; [apply hoare_ret; auto|].
  quiet_step. quiet_step. quiet_step.
  eapply hoare_bind.
  { eapply hoare_conseq;
      [apply (nested_post CSpace); reflexivity|nested_implies
      |intros ? ? ? H; exact H|nested_implies]. }
  intros result. quiet_step. branch.
  - eapply hoare_conseq;
      [apply (stable_record_stat (nested (just CSpace)) (fun _ => True));
         [apply nested_stat_frame|exact Logic.I]
      |auto|intros ?; nested_implies|nested_implies].
  - quiet_step. quiet_step. quiet_step.
    eapply hoare_conseq;
      [apply nested_migrate_boards_in_space
      |nested_implies|intros ?; nested_implies|nested_implies].
Qed.

Lemma nested_migrate_spaces_and_boards fuel :
  stable (@nested Env anything) (migrate_spaces_and_boards fuel).
Proof.
  unfold migrate_spaces_and_boards, stable.
  quiet_step. quiet_step.
  apply stable_for_each. intros space. apply nested_migrate_space.
Qed.

Lemma nested_stages fuel : stable (@nested Env anything) (stages fuel).
Proof.
  unfold stages.
  apply stable_bind;
    [eapply stable_migrate_custom_properties with (eps := parentless); nested_frames
    |intros ?].
  apply stable_bind;
    [eapply stable_migrate_tags with (eps := parentless); nested_frames|intros ?].
  apply stable_bind; [apply nested_migrate_spaces_and_boards|intros ?].
  apply stable_bind;
    [eapply stable_migrate_cards with (eps := parentless); nested_frames|intros ?].
  apply stable_bind;
    [eapply stable_migrate_comments with (eps := parentless); nested_frames|intros ?].
  apply stable_bind;
    [eapply stable_migrate_checklists with (eps := parentless); nested_frames|intros ?].
  eapply stable_migrate_card_relations with (eps := parentless); nested_frames.
Qed.

Lemma nested_migrate_all fuel : stable (@nested Env anything) (migrate_all fuel).
Proof.
  unfold migrate_all.
  assert (Htime : stable (@nested Env anything) call_time)
    by (apply stable_call_time_trace; intros st w e H; exact H).
  apply stable_bind; [exact Htime|intros ?].
  apply stable_bind;
    [apply stable_try_except; [apply nested_stages|intros ?; apply stable_ret]
    |intros ?].
  apply stable_bind; [exact Htime|intros ?]. apply stable_ret.
Qed.

End NestedStages.

(** C8 (dependency order).  In every run of [migrate_all], every creation
    call is of a known kind and no creation call of a later kind precedes
    one of an earlier kind, the kinds standing in this order: custom
    properties; tags; spaces with their boards, columns and lanes; cards
    with their tags; comments; checklists with their items; relations
    between cards.  Within the third group the children are interleaved
    under their parent: a board is created only after a space, a column
    and a lane only after a board, with nothing but creations of that group
    in between, the columns of a board before its lanes. *)
Theorem C8_dependency_order {Env : Type} {E : Environment Env} (fuel : nat)
    (st : KaitenMigration) (e : Env) :
  let cs := creations (trace (final_world (migrate_all fuel st (fresh_world e)))) in
  StronglySorted le (map phase cs)
  /\ Forall (fun c => (1 <= phase c <= 7)%nat) cs
  /\ nested_from None cs = true.
Proof.
  pose proof (order_migrate_all fuel st (fresh_world e)) as H.
  pose proof (nested_migrate_all fuel st (fresh_world e)) as N.
  unfold final_world.
  destruct (migrate_all fuel st (fresh_world e)) as [[[u|x|] st'] w'];
    (destruct H as [H1 H2]; [split; constructor|]);
    (destruct N as [N1 _]; [split; [reflexivity|exact Logic.I]|]);
    auto.
Qed.

(** The creation calls of the run over two active spaces. *)
Example two_active_spaces_creations :
  creations (trace (final_world
                      (migrate_all (E := SimEnvironment two_active_spaces) 5
                         fresh_migration sim_world)))
  = [CSpace; CBoard; CSpace; CBoard].
Proof. vm_compute. reflexivity. Qed.

(** The creation calls of the run over the account with an archived space. *)
Example two_spaces_creations :
  creations (trace (final_world
                      (migrate_all (E := SimEnvironment two_spaces) 5
                         fresh_migration sim_world)))
  = [CSpace; CBoard; CColumn; CLane; CCard; CCard].
Proof. vm_compute. reflexivity. Qed.

(** * Further properties *)

(** ** The transport: what [_request] returns *)

Section RequestOutcomes.

Context {Env : Type} {E : Environment Env}.

Lemma mk_request_same (api api' : KaitenAPI) m ep kw :
  domain api' = domain api -> token api' = token api ->
  mk_request api' m ep kw = mk_request api m ep kw.
Proof. intros Hd Ht. unfold mk_request. rewrite Hd, Ht. reflexivity. Qed.


End RequestOutcomes.







(** ** The rate governor: when and how long it sleeps *)

Section GovernorSleeps.

Context {Env : Type} {E : Environment Env}.

(** With at most four timestamps retained the governor does not sleep. *)
Ltac no_sleep_call ts w :=
  destruct (time_time (env w)) as [now e1]; simpl;
  pose proof (recent_length now ts) as Hrec;
  destruct (5 <=? Z.of_nat (List.length (recent now ts))) eqn:Hfull;
  [ apply Z.leb_le in Hfull; lia
  | simpl; do 2 eexists; split; [reflexivity|]; simpl;
    split; [reflexivity|]; rewrite length_app; simpl; lia ].

Lemma _rate_limit_no_sleep (api : KaitenAPI) (w : World) :
  (List.length (request_times api) <= 4)%nat ->
  exists api' w',
    _rate_limit api w = (Ok tt, api', w')
    /\ trace w' = trace w
    /\ (List.length (request_times api') <= S (List.length (request_times api)))%nat.
Proof.
  intros Hlen.
  unfold _rate_limit, bind, call_time, get_state, set_request_times, put_state,
    call_sleep, ret, raise; simpl.
  no_sleep_call (request_times api) w.
Qed.

Lemma DSL_rate_limit_no_sleep (api : DSL.KaitenAPI) (w : World) :
  (List.length (DSL.request_times api) <= 4)%nat ->
  exists api' w',
    DSL._rate_limit api w = (Ok tt, api', w')
    /\ trace w' = trace w
    /\ (List.length (DSL.request_times api')
        <= S (List.length (DSL.request_times api)))%nat.
Proof.
  intros Hlen.
  unfold DSL._rate_limit, bind, call_time, get_state, DSL.set_request_times,
    put_state, call_sleep, ret, raise; simpl.
  no_sleep_call (DSL.request_times api) w.
Qed.

Lemma admit_many_no_sleep between : forall (api : KaitenAPI) (w : World),
  (List.length (request_times api) + List.length between <= 5)%nat ->
  trace (final_world (admit_many between api w)) = trace w.
Proof.
  induction between as [|f between IH]; intros api w Hlen; [reflexivity|].
  simpl in Hlen.
  destruct (_rate_limit_no_sleep api w ltac:(lia)) as (api1 & w1 & Hrun & Htr & Hl).
  cbn [admit_many]. unfold bind at 1. rewrite Hrun.
  unfold bind at 1, get_state at 1. unfold bind at 1, elapse at 1.
  specialize (IH api1 {| env := f (env w1); trace := trace w1 |} ltac:(lia)).
  unfold bind, final_world in *.
  destruct (admit_many between api1 _) as [[[rest|e|] api2] w2];
    simpl in *; congruence.
Qed.

Lemma DSL_admit_many_no_sleep between : forall (api : DSL.KaitenAPI) (w : World),
  (List.length (DSL.request_times api) + List.length between <= 5)%nat ->
  trace (final_world (DSL.admit_many between api w)) = trace w.
Proof.
  induction between as [|f between IH]; intros api w Hlen; [reflexivity|].
  simpl in Hlen.
  destruct (DSL_rate_limit_no_sleep api w ltac:(lia)) as (api1 & w1 & Hrun & Htr & Hl).
  cbn [DSL.admit_many]. unfold bind at 1. rewrite Hrun.
  unfold bind at 1, get_state at 1. unfold bind at 1, elapse at 1.
  specialize (IH api1 {| env := f (env w1); trace := trace w1 |} ltac:(lia)).
  unfold bind, final_world in *.
  destruct (DSL.admit_many between api1 _) as [[[rest|e|] api2] w2];
    simpl in *; congruence.
Qed.

End GovernorSleeps.

(** X11 (the first five requests are not delayed).  On a fresh client the
    governor does not call [time.sleep] in its first five calls, whatever
    the clock shows and whatever happens between the calls: a call sleeps
    only when five timestamps are retained.  The same holds for the governor
    of the DSL engine. *)
Theorem first_five_calls_do_not_sleep {Env : Type} {E : Environment Env}
    (between : list (Env -> Env)) (w : World) :
  (List.length between <= 5)%nat ->
  (forall dom tok,
     trace (final_world (admit_many between (KaitenAPI_init dom tok) w)) = trace w)
  /\ (forall dom tok dry,
     trace (final_world (DSL.admit_many between (DSL.KaitenAPI_init dom tok dry) w))
     = trace w).
Proof.
  intros Hlen. split; intros.
  - apply admit_many_no_sleep. simpl. lia.
  - apply DSL_admit_many_no_sleep. simpl. lia.
Qed.

Lemma first_five_calls_do_not_sleep_witness :
  (forall dom tok,
     trace (final_world (admit_many (E := SimEnvironment offline)
                           (firstn 5 (exchanges offline))
                           (KaitenAPI_init dom tok) sim_world)) = trace sim_world)
  /\ (forall dom tok dry,
     trace (final_world (DSL.admit_many (E := SimEnvironment offline)
                           (firstn 5 (exchanges offline))
                           (DSL.KaitenAPI_init dom tok dry) sim_world))
     = trace sim_world).
Proof.
  apply (first_five_calls_do_not_sleep (E := SimEnvironment offline)
           (firstn 5 (exchanges offline)) sim_world).
  simpl. lia.
Defined.




Section SleepBound.

Context {Env : Type} {E : Environment Env}.

Variable clock : Env -> Q.
Hypothesis time_time_clock :
  forall e, (clock e <= fst (time_time e))%Q
            /\ (fst (time_time e) <= clock (snd (time_time e)))%Q.
Hypothesis time_sleep_clock :
  forall d e, (clock e + d <= clock (time_sleep d e))%Q.






End SleepBound.



(** ** The paginator: the shapes of a page and the requests sent *)

Section PageShapes.

Context {Env : Type} {E : Environment Env}.

Lemma dict_set_known k v d : dict_get k d = Some v -> dict_set k v d = d.
Proof.
  induction d as [|[k' v'] d IH]; simpl; [discriminate|].
  destruct (k =? k')%string eqn:Hk.
  - intros H. injection H as ->. reflexivity.
  - intros H. rewrite (IH H). reflexivity.
Qed.

Lemma dict_set_set k v v' d : dict_set k v (dict_set k v' d) = dict_set k v d.
Proof.
  induction d as [|[k' x] d IH]; simpl.
  - rewrite String.eqb_refl. reflexivity.
  - destruct (k =? k')%string eqn:Hk; simpl; rewrite Hk; [reflexivity|].
    rewrite IH. reflexivity.
Qed.

Lemma page_params_again p limit o o' :
  page_params (page_params p limit o) limit o' = page_params p limit o'.
Proof.
  unfold page_params.
  rewrite (dict_set_known "limit" (VInt limit)).
  - apply dict_set_set.
  - rewrite dict_get_set_other by discriminate. apply dict_get_set_same.
Qed.

Lemma page_params_keeps p limit o key :
  key <> "limit" -> key <> "offset" ->
  dict_get key (page_params p limit o) = dict_get key p.
Proof.
  intros H1 H2. unfold page_params.
  rewrite !dict_get_set_other by assumption. reflexivity.
Qed.

(** The first iteration of the loop, once the first answer [v] is known. *)
Lemma get_paginated_first_answer fuel ep params limit (api : KaitenAPI) (w : World) v :
  answers (first_page_request api ep params limit) v ->
  exists api1 w1,
    requests_of (trace w1)
    = requests_of (trace w) ++ [first_page_request api ep params limit]
    /\ get_paginated (S fuel) ep params limit api w
       = match v with
         | VNone => (Ok [], api1, w1)
         | _ =>
           (if negb (truthy (page_data v)) then ret []
            else
              items <- lift_res (py_iter (page_data v)) ;;
              len <- lift_res (py_len (page_data v)) ;;
              if len <? limit then ret ([] ++ items)
              else get_paginated_loop fuel (S fuel) ep
                     (page_params (params_or_empty params) limit 0) limit (0 + limit)
                     ([] ++ items)) api1 w1
         end.
Proof.
  intros Hserve.
  destruct (_request_served fuel GET ep
              (KwParams (Some (page_params (params_or_empty params) limit 0))) api w v
              Hserve) as (api1 & w1 & Hrun & _ & _ & Htr).
  exists api1, w1. split; [exact Htr|].
  unfold get_paginated. cbn [get_paginated_loop].
  change (dict_set "offset" (VInt 0)
            (dict_set "limit" (VInt limit) (params_or_empty params)))
    with (page_params (params_or_empty params) limit 0).
  unfold bind at 1. unfold get. rewrite Hrun.
  destruct v; reflexivity.
Qed.

End PageShapes.

(** X14 (the shapes of a page).  When the first page request is answered
    200 with the JSON value [v], [get_paginated] makes of it: the list under
    ['data'] when [v] is an object with that key, [v] itself as the only
    record when [v] is a non-empty object without ['data'], the elements of
    [v] when [v] is an array, and no record at all when [v] is [null] or the
    empty object; in the first three cases provided the page is shorter than
    the page size.  In each case it returns after that one request. *)
Theorem get_paginated_page_shapes {Env : Type} {E : Environment Env} (fuel : nat)
    (ep : endpoint) (params : option pydict) (limit : Z) (api : KaitenAPI)
    (w : World) (v : value) :
  answers (first_page_request api ep params limit) v ->
  let x := get_paginated (S fuel) ep params limit api w in
  let returns (l : list value) :=
    result_of x = Ok l
    /\ requests_of (trace (final_world x))
       = requests_of (trace w) ++ [first_page_request api ep params limit] in
  (forall d l, v = VDict d -> dict_get "data" d = Some (VList l) -> len l < limit ->
     returns l)
  /\ (forall d, v = VDict d -> d <> [] -> dict_get "data" d = None -> 1 < limit ->
     returns [v])
  /\ (forall l, v = VList l -> len l < limit -> returns l)
  /\ (v = VNone \/ v = VDict [] -> returns []).
Proof.
  intros Hserve x returns. subst returns x.
  destruct (get_paginated_first_answer fuel ep params limit api w v Hserve)
    as (api1 & w1 & Htr & Hrun).
  assert (Hlist : forall l, page_data v = VList l -> v <> VNone -> len l < limit ->
    get_paginated (S fuel) ep params limit api w = (Ok l, api1, w1)).
  { intros l Hpage Hsome Hshort. rewrite Hrun, Hpage.
    assert (Hgo :
      (if negb (truthy (VList l)) then ret []
       else
         items <- lift_res (py_iter (VList l)) ;;
         len <- lift_res (py_len (VList l)) ;;
         if len <? limit then ret ([] ++ items)
         else get_paginated_loop fuel (S fuel) ep
                (page_params (params_or_empty params) limit 0) limit (0 + limit)
                ([] ++ items)) api1 w1 = (Ok l, api1, w1)).
    { destruct l as [|a l]; [reflexivity|].
      cbn [truthy negb]. unfold bind, lift_res. cbn [py_iter py_len].
      apply Z.ltb_lt in Hshort. unfold len in Hshort. rewrite Hshort. reflexivity. }
    destruct v; solve [contradiction | exact Hgo]. }
  split; [|split; [|split]].
  - intros d l -> Hdata Hshort.
    rewrite (Hlist l); [split; [reflexivity|exact Htr]| |discriminate|exact Hshort].
    cbn [page_data]. rewrite Hdata. reflexivity.
  - intros d -> Hd Hdata Hlimit.
    rewrite (Hlist [VDict d]);
      [split; [reflexivity|exact Htr]| |discriminate|unfold len; simpl; lia].
    cbn [page_data]. rewrite Hdata. destruct d; [contradiction|reflexivity].
  - intros l -> Hshort.
    rewrite (Hlist l); [split; [reflexivity|exact Htr]|reflexivity|discriminate
                       |exact Hshort].
  - intros Hv. rewrite Hrun. destruct Hv as [-> | ->]; (split; [reflexivity|exact Htr]).
Qed.

Lemma always_answers v r : answers (E := SimEnvironment (always v)) r v.
Proof.
  intros e. simpl. unfold always, ok_response. eexists. split; [reflexivity|].
  repeat split. discriminate.
Qed.

Lemma get_paginated_page_shapes_witness :
  result_of (get_paginated
               (E := SimEnvironment (always (VDict [("data", VList [VInt 1; VInt 2])])))
               1 (EP "/tags") None 100 (KaitenAPI_init "source" "secret") sim_world)
  = Ok [VInt 1; VInt 2].
Proof.
  apply (proj1 (get_paginated_page_shapes
                  (E := SimEnvironment (always (VDict [("data", VList [VInt 1; VInt 2])])))
                  0 (EP "/tags") None 100 (KaitenAPI_init "source" "secret") sim_world
                  (VDict [("data", VList [VInt 1; VInt 2])])
                  (always_answers _ _))
           [("data", VList [VInt 1; VInt 2])] [VInt 1; VInt 2] eq_refl eq_refl eq_refl).
Defined.

(** X15 (a page that is a number).  [get_paginated] has no handler of its
    own: when a page request is answered with an object whose ['data'] is a
    non-zero number or [true], extending the result with it raises
    [TypeError], which leaves [get_paginated]. *)
Theorem get_paginated_scalar_data_raises {Env : Type} {E : Environment Env}
    (fuel : nat) (ep : endpoint) (params : option pydict) (limit : Z)
    (api : KaitenAPI) (w : World) (d : pydict) (data : value) :
  answers (first_page_request api ep params limit) (VDict d) ->
  dict_get "data" d = Some data ->
  (exists n, data = VInt n /\ n <> 0) \/ data = VBool true ->
  result_of (get_paginated (S fuel) ep params limit api w) = Raise TypeError.
Proof.
  intros Hserve Hdata Hscalar.
  destruct (get_paginated_first_answer fuel ep params limit api w (VDict d) Hserve)
    as (api1 & w1 & _ & Hrun).
  rewrite Hrun. cbn [page_data]. rewrite Hdata.
  destruct Hscalar as [(n & -> & Hn) | ->].
  - cbn [truthy]. apply Z.eqb_neq in Hn. rewrite Hn. reflexivity.
  - reflexivity.
Qed.

Lemma get_paginated_scalar_data_raises_witness :
  result_of (get_paginated (E := SimEnvironment (always (VDict [("data", VInt 5)])))
               1 (EP "/tags") None 100 (KaitenAPI_init "source" "secret") sim_world)
  = Raise TypeError.
Proof.
  apply (get_paginated_scalar_data_raises
           (E := SimEnvironment (always (VDict [("data", VInt 5)])))
           0 (EP "/tags") None 100 (KaitenAPI_init "source" "secret") sim_world
           [("data", VInt 5)] (VInt 5) (always_answers _ _) eq_refl).
  left. exists 5. split; [reflexivity|discriminate].
Defined.

Section PageRequests.

Context {Env : Type} {E : Environment Env}.

Lemma Forall_repeat {A} (P : A -> Prop) (a : A) n : P a -> Forall P (repeat a n).
Proof. intros H. induction n; simpl; constructor; assumption. Qed.

(** Every request of the loop is the page request of some later offset. *)
Lemma get_paginated_loop_requests n fuel ep limit :
  forall p offset acc (api : KaitenAPI) (w : World) r api' w',
    get_paginated_loop n fuel ep p limit offset acc api w = (r, api', w') ->
    exists new,
      trace w' = trace w ++ new
      /\ Forall (fun rq => exists j : nat,
                   rq = mk_request api GET ep
                          (KwParams (Some (page_params p limit
                                             (offset + Z.of_nat j * limit)))))
           (requests_of new).
Proof.
  induction n as [|n IH]; intros p offset acc api w r api' w' Hrun.
  - simpl in Hrun. injection Hrun as <- <- <-. exists []. rewrite app_nil_r.
    split; [reflexivity|constructor].
  - cbn [get_paginated_loop] in Hrun. unfold bind at 1 in Hrun. unfold get in Hrun.
    change (dict_set "offset" (VInt offset) (dict_set "limit" (VInt limit) p))
      with (page_params p limit offset) in Hrun.
    destruct (_request fuel GET ep _ api w) as [[r1 api1] w1] eqn:Hget.
    destruct (_request_effect _ _ _ _ _ _ _ _ _ Hget)
      as (new1 & k & Htr1 & _ & Hreq1 & Hd1 & Ht1 & _).
    assert (Hfirst :
      Forall (fun rq => exists j : nat,
                rq = mk_request api GET ep
                       (KwParams (Some (page_params p limit
                                          (offset + Z.of_nat j * limit)))))
        (requests_of new1)).
    { rewrite Hreq1. apply Forall_repeat. exists 0%nat.
      replace (offset + Z.of_nat 0 * limit) with offset by lia. reflexivity. }
    assert (Hstop : (r, api', w') = (r, api1, w1) ->
      exists new,
        trace w' = trace w ++ new
        /\ Forall (fun rq => exists j : nat,
                     rq = mk_request api GET ep
                            (KwParams (Some (page_params p limit
                                               (offset + Z.of_nat j * limit)))))
             (requests_of new)).
    { intros Heq. injection Heq as -> ->. exists new1. split; assumption. }
    destruct r1 as [response|e|];
      [|injection Hrun as <- <- <-; apply Hstop; reflexivity
       |injection Hrun as <- <- <-; apply Hstop; reflexivity].
    assert (Hgo :
      (if negb (truthy (page_data response)) then ret acc
       else
         items <- lift_res (py_iter (page_data response)) ;;
         len <- lift_res (py_len (page_data response)) ;;
         if len <? limit then ret (acc ++ items)
         else get_paginated_loop n fuel ep (page_params p limit offset)
                limit (offset + limit) (acc ++ items)) api1 w1 = (r, api', w') ->
      exists new,
        trace w' = trace w ++ new
        /\ Forall (fun rq => exists j : nat,
                     rq = mk_request api GET ep
                            (KwParams (Some (page_params p limit
                                               (offset + Z.of_nat j * limit)))))
             (requests_of new)).
    { intros Hrest.
      destruct (negb (truthy (page_data response)));
        [injection Hrest as <- <- <-; apply Hstop; reflexivity|].
      unfold bind, lift_res in Hrest.
      destruct (py_iter (page_data response)) as [items|e|];
        [|injection Hrest as <- <- <-; apply Hstop; reflexivity
         |injection Hrest as <- <- <-; apply Hstop; reflexivity].
      destruct (py_len (page_data response)) as [len|e|];
        [|injection Hrest as <- <- <-; apply Hstop; reflexivity
         |injection Hrest as <- <- <-; apply Hstop; reflexivity].
      destruct (len <? limit);
        [injection Hrest as <- <- <-; apply Hstop; reflexivity|].
      destruct (IH _ _ _ _ _ _ _ _ Hrest) as (new2 & Htr2 & Hreq2).
      exists (new1 ++ new2). split.
      - rewrite Htr2, Htr1, <- app_assoc. reflexivity.
      - rewrite requests_of_app. apply Forall_app. split; [exact Hfirst|].
        eapply Forall_impl; [|exact Hreq2].
        intros rq (j & ->). exists (S j).
        rewrite page_params_again, (mk_request_same api api1 GET ep _ Hd1 Ht1).
        replace (offset + Z.of_nat (S j) * limit)
          with (offset + limit + Z.of_nat j * limit) by lia.
        reflexivity. }
    destruct response; solve
      [ injection Hrun as <- <- <-; apply Hstop; reflexivity
      | apply Hgo; exact Hrun ].
Qed.

End PageRequests.

(** X13 (what the page requests carry).  Every request [get_paginated]
    sends, however it ends, is a GET of the endpoint it was given, with the
    address and the token of the client; it carries the page size under
    ['limit'], an offset that is a multiple of the page size under
    ['offset'], and every other parameter of the caller unchanged: the
    caller's own ['limit'] and ['offset'] are overridden, its filters are
    kept on every page. *)
Theorem get_paginated_requests {Env : Type} {E : Environment Env} (fuel : nat)
    (ep : endpoint) (params : option pydict) (limit : Z) (api : KaitenAPI)
    (w : World) :
  exists new,
    trace (final_world (get_paginated fuel ep params limit api w)) = trace w ++ new
    /\ Forall (page_request api ep (params_or_empty params) limit) (requests_of new).
Proof.
  unfold get_paginated.
  destruct (get_paginated_loop fuel fuel ep (params_or_empty params) limit 0 [] api w)
    as [[r api'] w'] eqn:Hrun.
  destruct (get_paginated_loop_requests _ _ _ _ _ _ _ _ _ _ _ _ Hrun)
    as (new & Htr & Hreqs).
  exists new. split; [exact Htr|].
  eapply Forall_impl; [|exact Hreqs].
  intros rq (j & ->). unfold page_request. cbn [mk_request rq_method rq_endpoint
    rq_base_url rq_token rq_kwargs].
  repeat split.
  exists (page_params (params_or_empty params) limit (0 + Z.of_nat j * limit)), j.
  split; [reflexivity|]. split; [|split].
  - unfold page_params. rewrite dict_get_set_other by discriminate.
    apply dict_get_set_same.
  - unfold page_params. rewrite dict_get_set_same. reflexivity.
  - intros key H1 H2. apply page_params_keeps; assumption.
Qed.

(** ** Invariants of the migration, from its five primitive steps *)

Section AtomStable.

Context {Env : Type} {E : Environment Env}.

(** An assertion that survives the three calls of the clients, the writes
    to the identifier map and the writes to the counters survives every
    function of the migration. *)
Variable J : KaitenMigration -> @World Env -> Prop.

Hypothesis J_get_paginated :
  forall fuel ep params limit, stable J (on_source (get_paginated fuel ep params limit)).
Hypothesis J_get : forall fuel ep params, stable J (on_source (get fuel ep params)).
Hypothesis J_post : forall fuel ep data, stable J (on_target (post fuel ep data)).
Hypothesis J_map : forall kind key v, stable J (id_map_set kind key v).
Hypothesis J_stat : forall op, stable J (record_stat op).
Hypothesis J_time : stable J call_time.

Ltac atom :=
  first [ apply J_get_paginated | apply J_get | apply J_post | apply J_map
        | apply J_stat | apply J_time ].

Lemma atoms_migrate_property fuel prop : stable J (migrate_property fuel prop).
Proof. unfold migrate_property. stable_split atom. Qed.

Lemma atoms_migrate_custom_properties fuel : stable J (migrate_custom_properties fuel).
Proof.
  unfold migrate_custom_properties.
  stable_split ltac:(first [atom | apply atoms_migrate_property]).
Qed.

Lemma atoms_migrate_tag fuel tag : stable J (migrate_tag fuel tag).
Proof. unfold migrate_tag. stable_split atom. Qed.

Lemma atoms_migrate_tags fuel : stable J (migrate_tags fuel).
Proof.
  unfold migrate_tags. stable_split ltac:(first [atom | apply atoms_migrate_tag]).
Qed.

Lemma atoms_migrate_column fuel nb col : stable J (migrate_column fuel nb col).
Proof. unfold migrate_column. stable_split atom. Qed.

Lemma atoms_migrate_lane fuel nb lane : stable J (migrate_lane fuel nb lane).
Proof. unfold migrate_lane. stable_split atom. Qed.

Lemma atoms_migrate_columns_and_lanes fuel ob nb data :
  stable J (migrate_columns_and_lanes fuel ob nb data).
Proof.
  unfold migrate_columns_and_lanes.
  stable_split ltac:(first [apply atoms_migrate_column | apply atoms_migrate_lane]).
Qed.

Lemma atoms_migrate_board fuel ns board : stable J (migrate_board fuel ns board).
Proof.
  unfold migrate_board.
  stable_split ltac:(first [atom | apply atoms_migrate_columns_and_lanes]).
Qed.

Lemma atoms_migrate_boards_in_space fuel os ns :
  stable J (migrate_boards_in_space fuel os ns).
Proof.
  unfold migrate_boards_in_space.
  stable_split ltac:(first [atom | apply atoms_migrate_board]).
Qed.

Lemma atoms_migrate_space fuel space : stable J (migrate_space fuel space).
Proof.
  unfold migrate_space.
  stable_split ltac:(first [atom | apply atoms_migrate_boards_in_space]).
Qed.

Lemma atoms_migrate_spaces_and_boards fuel : stable J (migrate_spaces_and_boards fuel).
Proof.
  unfold migrate_spaces_and_boards.
  stable_split ltac:(first [atom | apply atoms_migrate_space]).
Qed.

Lemma atoms_migrate_card_tags fuel oc nc tags :
  stable J (migrate_card_tags fuel oc nc tags).
Proof. unfold migrate_card_tags. stable_split atom. Qed.

Lemma atoms_rewrite_properties items : stable J (rewrite_properties items).
Proof.
  induction items as [|[key v] items IH]; cbn [rewrite_properties].
  - apply stable_ret.
  - stable_split ltac:(first [atom | exact IH]).
Qed.

Lemma atoms_card_properties card : stable J (card_properties card).
Proof.
  unfold card_properties.
  stable_split ltac:(first [atom | apply atoms_rewrite_properties]).
Qed.

Lemma atoms_record_card fuel card card_id result :
  stable J (record_card fuel card card_id result).
Proof.
  unfold record_card.
  stable_split ltac:(first [atom | apply atoms_migrate_card_tags]).
Qed.

Lemma atoms_migrate_single_card fuel card : stable J (migrate_single_card fuel card).
Proof.
  unfold migrate_single_card.
  stable_split ltac:(first [atom | apply atoms_card_properties
                           | apply atoms_record_card]).
Qed.

Lemma atoms_migrate_cards fuel : stable J (migrate_cards fuel).
Proof.
  unfold migrate_cards.
  stable_split ltac:(first [atom | apply atoms_migrate_single_card]).
Qed.

Lemma atoms_migrate_comments fuel : stable J (migrate_comments fuel).
Proof. unfold migrate_comments. stable_split atom. Qed.

Lemma atoms_migrate_checklists fuel : stable J (migrate_checklists fuel).
Proof. unfold migrate_checklists. stable_split atom. Qed.

Lemma atoms_migrate_card_relations fuel : stable J (migrate_card_relations fuel).
Proof. unfold migrate_card_relations. stable_split atom. Qed.

Lemma atoms_stages fuel : stable J (stages fuel).
Proof.
  unfold stages.
  stable_split ltac:(first
    [ apply atoms_migrate_custom_properties | apply atoms_migrate_tags
    | apply atoms_migrate_spaces_and_boards | apply atoms_migrate_cards
    | apply atoms_migrate_comments | apply atoms_migrate_checklists
    | apply atoms_migrate_card_relations ]).
Qed.

Lemma atoms_migrate_all fuel : stable J (migrate_all fuel).
Proof.
  unfold migrate_all.
  apply stable_bind; [exact J_time|intros ?].
  apply stable_bind;
    [apply stable_try_except; [apply atoms_stages|intros ?; apply stable_ret]
    |intros ?].
  apply stable_bind; [exact J_time|intros ?]. apply stable_ret.
Qed.

End AtomStable.

(** ** The two accounts: who is asked what *)

Section Ownership.

Context {Env : Type} {E : Environment Env}.

Variables (src tgt : KaitenAPI) (tr0 : list event).

Lemma owned_more (st st' : KaitenMigration) (w w' : @World Env) more :
  reads_and_creates src tgt tr0 st w ->
  domain (source st') = domain (source st) -> token (source st') = token (source st) ->
  domain (target st') = domain (target st) -> token (target st') = token (target st) ->
  trace w' = trace w ++ more ->
  Forall (read_or_create src tgt) (requests_of more) ->
  reads_and_creates src tgt tr0 st' w'.
Proof.
  intros ((Hsd & Hst) & (Htd & Htt) & new & Htr & Hall) H1 H2 H3 H4 Hmore Hreqs.
  repeat split; try congruence.
  exists (new ++ more). split.
  - rewrite Hmore, Htr, app_assoc. reflexivity.
  - rewrite requests_of_app. apply Forall_app. split; assumption.
Qed.

Lemma owned_source_request fuel ep kw :
  stable (reads_and_creates src tgt tr0) (on_source (_request fuel GET ep kw)).
Proof.
  intros st w HJ. unfold on_source.
  destruct (_request fuel GET ep kw (source st) w) as [[r api] w'] eqn:Hrun.
  destruct (_request_effect _ _ _ _ _ _ _ _ _ Hrun)
    as (new & k & Htr & _ & Hreqs & Hd & Ht & _).
  assert (H : reads_and_creates src tgt tr0
                {| source := api; target := target st; id_map := id_map st;
                   stats := stats st |} w').
  { apply (owned_more st _ w w' new HJ); trivial.
    rewrite Hreqs. apply Forall_repeat. left. split; [reflexivity|].
    destruct HJ as ((Hsd & Hst) & _). split; simpl; assumption. }
  destruct r; exact H.
Qed.

Lemma owned_target_request fuel ep kw :
  stable (reads_and_creates src tgt tr0) (on_target (_request fuel POST ep kw)).
Proof.
  intros st w HJ. unfold on_target.
  destruct (_request fuel POST ep kw (target st) w) as [[r api] w'] eqn:Hrun.
  destruct (_request_effect _ _ _ _ _ _ _ _ _ Hrun)
    as (new & k & Htr & _ & Hreqs & Hd & Ht & _).
  assert (H : reads_and_creates src tgt tr0
                {| source := source st; target := api; id_map := id_map st;
                   stats := stats st |} w').
  { apply (owned_more st _ w w' new HJ); trivial.
    rewrite Hreqs. apply Forall_repeat. right. split; [reflexivity|].
    destruct HJ as (_ & (Htd & Htt) & _). split; simpl; assumption. }
  destruct r; exact H.
Qed.

Lemma owned_get_paginated fuel ep params limit :
  stable (reads_and_creates src tgt tr0) (on_source (get_paginated fuel ep params limit)).
Proof.
  intros st w HJ. unfold on_source, get_paginated.
  destruct (get_paginated_loop fuel fuel ep (params_or_empty params) limit 0 []
              (source st) w) as [[r api] w'] eqn:Hrun.
  destruct (get_paginated_loop_effect _ _ _ _ _ _ _ _ _ _ _ _ Hrun)
    as (new' & _ & _ & Hd & Ht).
  destruct (get_paginated_loop_requests _ _ _ _ _ _ _ _ _ _ _ _ Hrun)
    as (new & Htr & Hreqs).
  assert (H : reads_and_creates src tgt tr0
                {| source := api; target := target st; id_map := id_map st;
                   stats := stats st |} w').
  { apply (owned_more st _ w w' new HJ); trivial.
    eapply Forall_impl; [|exact Hreqs]. intros rq (j & ->).
    left. split; [reflexivity|].
    destruct HJ as ((Hsd & Hst) & _). split; simpl; assumption. }
  destruct r; exact H.
Qed.

Lemma owned_id_map_set kind key v :
  stable (@reads_and_creates Env src tgt tr0) (id_map_set kind key v).
Proof.
  intros st w HJ. unfold id_map_set, bind, get_state, lift_res, put_state.
  destruct (table_set key v (id_map st kind)) as [t|e|]; exact HJ.
Qed.

Lemma owned_record_stat op :
  stable (@reads_and_creates Env src tgt tr0) (record_stat op).
Proof.
  intros st w HJ. unfold record_stat, bind, get_state, put_state, emit. simpl.
  apply (owned_more st _ w _ [EvLedger op] HJ); trivial; constructor.
Qed.

Lemma owned_call_time :
  stable (reads_and_creates src tgt tr0) (@call_time Env E KaitenMigration).
Proof.
  apply stable_call_time_trace. intros st w e HJ. exact HJ.
Qed.

Lemma owned_migrate_all fuel :
  stable (reads_and_creates src tgt tr0) (migrate_all fuel).
Proof.
  apply atoms_migrate_all.
  - apply owned_get_paginated.
  - intros. apply owned_source_request.
  - intros. apply owned_target_request.
  - apply owned_id_map_set.
  - apply owned_record_stat.
  - apply owned_call_time.
Qed.

End Ownership.

(** X1 (the source account is only read).  In every run of [migrate_all],
    however it ends, every request is either a GET sent to the address of
    the source client with its token, or a POST sent to the address of the
    target client with its token: nothing is ever written to the source
    account, nothing is read from the target account, and no PATCH or DELETE
    is sent at all. *)
Theorem migration_reads_source_creates_in_target {Env : Type} {E : Environment Env}
    (fuel : nat) (st : KaitenMigration) (w : World) :
  exists new,
    trace (final_world (migrate_all fuel st w)) = trace w ++ new
    /\ Forall (read_or_create (source st) (target st)) (requests_of new).
Proof.
  assert (H0 : reads_and_creates (source st) (target st) (trace w) st w).
  { repeat split. exists []. rewrite app_nil_r. split; [reflexivity|constructor]. }
  pose proof (owned_migrate_all (source st) (target st) (trace w) fuel st w H0) as H.
  unfold final_world.
  destruct (migrate_all fuel st w) as [[[u|x|] st'] w'];
    destruct H as (_ & _ & new & Htr & Hall); exists new; split; assumption.
Qed.

(** ** What is not counted, and what does not write the identifier map *)

Section Untouched.

Context {Env : Type} {E : Environment Env}.

Lemma stats_source_frame s : source_frame (@stats_are Env s).
Proof. intros st w api w' new H _ _. exact H. Qed.

Lemma stats_target_frame s eps : target_frame eps (@stats_are Env s).
Proof. intros st w api w' new H _ _. exact H. Qed.

Lemma stats_map_frame s : map_frame (@stats_are Env s).
Proof. intros st w kind t H. exact H. Qed.

Lemma id_map_source_frame m : source_frame (@id_map_is Env m).
Proof. intros st w api w' new H _ _. exact H. Qed.

Lemma id_map_target_frame m eps : target_frame eps (@id_map_is Env m).
Proof. intros st w api w' new H _ _. exact H. Qed.

Lemma id_map_stat_frame m ops : stat_frame ops (@id_map_is Env m).
Proof. intros st w op _ H. exact H. Qed.

Ltac untouched :=
  first [ apply stats_source_frame | apply stats_target_frame | apply stats_map_frame
        | apply id_map_source_frame | apply id_map_target_frame
        | apply id_map_stat_frame
        | exact Logic.I | intros ?; exact Logic.I | split; exact Logic.I ].

Lemma stats_migrate_columns_and_lanes s fuel ob nb data :
  stable (@stats_are Env s) (migrate_columns_and_lanes fuel ob nb data).
Proof.
  eapply stable_migrate_columns_and_lanes with (eps := fun _ => True); untouched.
Qed.

Lemma stats_migrate_card_tags s fuel oc nc tags :
  stable (@stats_are Env s) (migrate_card_tags fuel oc nc tags).
Proof. eapply stable_migrate_card_tags with (eps := fun _ => True); untouched. Qed.

Lemma stats_migrate_card_relations s fuel :
  stable (@stats_are Env s) (migrate_card_relations fuel).
Proof. eapply stable_migrate_card_relations with (eps := fun _ => True); untouched. Qed.





Lemma stable_final {S A} (P : S -> @World Env -> Prop) (m : @M Env S A) s w :
  stable P m -> P s w -> P (final_state (m s w)) (final_world (m s w)).
Proof.
  intros H Hs. specialize (H s w Hs). unfold final_state, final_world.
  destruct (m s w) as [[[a|e|] s'] w']; exact H.
Qed.

End Untouched.

(** X6 (what is not counted).  Columns, lanes, the tags of a card and the
    relations between cards have no counters: whether their creation
    succeeds or fails, and however the function ends,
    [migrate_columns_and_lanes], [migrate_card_tags] and
    [migrate_card_relations] leave [self.stats] exactly as it was. *)
Theorem uncounted_creations {Env : Type} {E : Environment Env} (fuel : nat)
    (st : KaitenMigration) (w : World) :
  (forall old_board_id new_board_id board_data,
     stats (final_state (migrate_columns_and_lanes fuel old_board_id new_board_id
                           board_data st w)) = stats st)
  /\ (forall old_card_id new_card_id tags,
     stats (final_state (migrate_card_tags fuel old_card_id new_card_id tags st w))
     = stats st)
  /\ stats (final_state (migrate_card_relations fuel st w)) = stats st.
Proof.
  split; [|split]; intros.
  - apply (stable_final (stats_are (stats st)) _ st w
             (stats_migrate_columns_and_lanes _ _ _ _ _) eq_refl).
  - apply (stable_final (stats_are (stats st)) _ st w
             (stats_migrate_card_tags _ _ _ _ _) eq_refl).
  - apply (stable_final (stats_are (stats st)) _ st w
             (stats_migrate_card_relations _ _) eq_refl).
Qed.


(** ** Records that cannot be migrated *)

Section BadRecords.

Context {Env : Type} {E : Environment Env}.


End BadRecords.



Section Abort.

Context {Env : Type} {E : Environment Env}.

Lemma api_events_requests m ep new :
  Forall (api_event m ep) new ->
  Forall (fun r => rq_method r = m /\ rq_endpoint r = ep) (requests_of new).
Proof.
  induction 1 as [|ev new Hev _ IH]; [constructor|].
  destruct ev as [r|d|op]; simpl; [constructor; assumption|exact IH|exact IH].
Qed.

(** The first stage over a list whose first record has no ['id']. *)
Lemma migrate_custom_properties_no_id fuel (st : KaitenMigration) (w : World) d rest :
  serves_list (EP "/custom-properties") (VDict d :: rest) ->
  dict_get "id" d = None ->
  (page_count (S (List.length rest)) 100 <= fuel)%nat ->
  exists api' w' new,
    migrate_custom_properties fuel st w
    = (Raise KeyError,
       with_op (SetTotal CustomProperties (len (VDict d :: rest))) (with_source api' st),
       w')
    /\ trace w' = trace w ++ new
    /\ Forall (get_of (EP "/custom-properties")) (requests_of new).
Proof.
  intros Hserve Hid Hfuel.
  destruct (get_paginated_serves (EP "/custom-properties") (VDict d :: rest) None 100
              fuel (source st) w Hserve ltac:(lia) Hfuel)
    as (api' & w1 & reqs & Hrun & _).
  destruct (emits_get_paginated fuel (EP "/custom-properties") None 100 (source st) w)
    as (new & Htr & Hall).
  rewrite Hrun in Htr. simpl in Htr.
  exists api', (logged (SetTotal CustomProperties (len (VDict d :: rest))) w1),
    (new ++ [EvLedger (SetTotal CustomProperties (len (VDict d :: rest)))]).
  split; [|split].
  - unfold migrate_custom_properties. unfold bind at 1. unfold on_source at 1.
    rewrite Hrun. unfold bind at 1.
    unfold record_stat at 1, bind at 1, get_state at 1. unfold bind at 1, put_state at 1.
    unfold emit at 1. cbn [for_each]. unfold bind at 1.
    unfold migrate_property at 1. unfold bind at 1. unfold lift_res at 1.
    cbn [py_index]. rewrite Hid. reflexivity.
  - unfold logged. cbn [trace]. rewrite Htr, app_assoc. reflexivity.
  - rewrite requests_of_app. simpl. rewrite app_nil_r.
    apply api_events_requests. exact Hall.
Qed.

End Abort.

(** X4 (a record without an identifier ends the migration).  No stage
    handles a malformed record: when the first custom property of the
    source has no ['id'], the [KeyError] ends the first stage, the handler
    of [migrate_all] swallows it, and [migrate_all] returns normally without
    having run any later stage.  The only requests sent are the page
    requests for the custom properties, nothing is created, the identifier
    map is untouched and the only counter written is the total of the custom
    properties. *)
Theorem malformed_record_ends_migration {Env : Type} {E : Environment Env}
    (fuel : nat) (st : KaitenMigration) (w : World) (d : pydict) (rest : list value) :
  serves_list (EP "/custom-properties") (VDict d :: rest) ->
  dict_get "id" d = None ->
  (page_count (S (List.length rest)) 100 <= fuel)%nat ->
  let x := migrate_all fuel st w in
  result_of x = Ok tt
  /\ id_map (final_state x) = id_map st
  /\ stats (final_state x)
     = apply_op (SetTotal CustomProperties (len (VDict d :: rest))) (stats st)
  /\ exists new,
       trace (final_world x) = trace w ++ new
       /\ Forall (get_of (EP "/custom-properties")) (requests_of new).
Proof.
  intros Hserve Hid Hfuel x.
  assert (Hrun : exists api' w' new,
    migrate_all fuel st w
    = (Ok tt,
       with_op (SetTotal CustomProperties (len (VDict d :: rest))) (with_source api' st),
       w')
    /\ trace w' = trace w ++ new
    /\ Forall (get_of (EP "/custom-properties")) (requests_of new)).
  { unfold migrate_all. unfold bind at 1. unfold call_time at 1.
    destruct (time_time (env w)) as [t0 e0].
    destruct (migrate_custom_properties_no_id fuel st {| env := e0; trace := trace w |}
                d rest Hserve Hid Hfuel) as (api' & w1 & new & Hrun & Htr & Hall).
    unfold bind at 1. unfold try_except at 1. unfold stages at 1. unfold bind at 1.
    rewrite Hrun. unfold ret at 1. unfold bind at 1. unfold call_time at 1.
    destruct (time_time (env w1)) as [t1 e1].
    exists api', {| env := e1; trace := trace w1 |}, new.
    split; [reflexivity|]. split; [exact Htr|exact Hall]. }
  destruct Hrun as (api' & w' & new & Hrun & Htr & Hall).
  subst x. rewrite Hrun. unfold result_of, final_state, final_world. cbn [fst snd].
  split; [reflexivity|]. split; [reflexivity|]. split; [reflexivity|].
  exists new. split; [exact Htr|exact Hall].
Qed.

Lemma nameless_property_serves :
  serves_list (E := SimEnvironment nameless_property) (EP "/custom-properties")
    [ VDict [("name", VStr "priority")];
      VDict [("id", VInt 8); ("name", VStr "size")] ].
Proof.
  intros e r limit offset Hm Hep Hp. simpl. unfold nameless_property, account.
  rewrite Hm, Hp, Hep. eexists. split; [reflexivity|].
  repeat split. discriminate.
Qed.

Lemma malformed_record_ends_migration_witness :
  let x := migrate_all (E := SimEnvironment nameless_property) 5 fresh_migration
             sim_world in
  result_of x = Ok tt
  /\ id_map (final_state x) = id_map fresh_migration
  /\ stats (final_state x)
     = apply_op (SetTotal CustomProperties 2) (stats fresh_migration)
  /\ exists new,
       trace (final_world x) = trace sim_world ++ new
       /\ Forall (get_of (EP "/custom-properties")) (requests_of new).
Proof.
  apply (malformed_record_ends_migration (E := SimEnvironment nameless_property) 5
           fresh_migration sim_world [("name", VStr "priority")]
           [VDict [("id", VInt 8); ("name", VStr "size")]]
           nameless_property_serves eq_refl).
  vm_compute. lia.
Defined.

(** ** The balance of the counters *)

#[local] Instance Tally_eq : Tally (@eq Z).
Proof. split; intros; subst; lia. Qed.

#[local] Instance Tally_le : Tally Z.le.
Proof. split; intros; lia. Qed.

Lemma stat_kind_eqb_refl k : stat_kind_eqb k k = true.
Proof. destruct k; reflexivity. Qed.

Section KindFrames.

Context {Env : Type} {E : Environment Env}.

Lemma kind_source_frame k c : source_frame (@kind_is Env k c).
Proof. intros st w api w' new H _ _. exact H. Qed.

Lemma kind_target_frame k c eps : target_frame eps (@kind_is Env k c).
Proof. intros st w api w' new H _ _. exact H. Qed.

Lemma kind_map_frame k c : map_frame (@kind_is Env k c).
Proof. intros st w kind t H. exact H. Qed.

Lemma kind_stat_frame k c : stat_frame (other_kind k) (@kind_is Env k c).
Proof.
  intros st w op Hop H. unfold kind_is, with_op, other_kind in *. simpl.
  unfold apply_op. rewrite Hop. exact H.
Qed.

(** An assertion on the counters of [k] survives what keeps those counters. *)
Lemma by_kind k (F : counters -> Prop) {A} (m : @M Env KaitenMigration A) :
  (forall c, stable (kind_is k c) m) -> stable (fun st _ => F (stats st k)) m.
Proof.
  intros H st w HF. specialize (H (stats st k) st w eq_refl).
  destruct (m st w) as [[[a|e|] st'] w']; unfold kind_is in H; rewrite H; exact HF.
Qed.

Lemma owes_by_kind R k r {A} (m : @M Env KaitenMigration A) :
  (forall c, stable (kind_is k c) m) -> stable (owes R k r) m.
Proof.
  intros H.
  exact (by_kind k (fun c => 0 <= r /\ R (migrated c + failed c + r) (total c)) m H).
Qed.

Lemma within_by_kind k {A} (m : @M Env KaitenMigration A) :
  (forall c, stable (kind_is k c) m) -> stable (within k) m.
Proof.
  intros H. exact (by_kind k (fun c => migrated c + failed c <= total c) m H).
Qed.

Lemma owes_within R `{Tally R} k r (st : KaitenMigration) (w : @World Env) :
  owes R k r st w -> within k st w.
Proof.
  intros [Hr HR]. apply tally_le in HR. unfold within. lia.
Qed.

(** A step that keeps the counters of [k], in a computation that settles
    them. *)
Lemma keep R `{Tally R} k r {A} (m : @M Env KaitenMigration A) :
  (forall c, stable (kind_is k c) m) ->
  hoare (owes R k r) m (fun _ => owes R k r) (within k).
Proof.
  intros Hm. apply stable_hoare; [apply owes_by_kind; exact Hm|].
  intros st w. apply owes_within. assumption.
Qed.

Lemma owes_inc R `{Tally R} k r op :
  0 <= r -> op = IncMigrated k \/ op = IncFailed k ->
  hoare (owes R k (r + 1)) (@record_stat Env op) (fun _ => owes R k r) (within k).
Proof.
  intros Hr Hop st w [_ HR]. unfold record_stat, bind, get_state, put_state, emit.
  simpl. unfold owes, settled in *. simpl. unfold apply_op.
  destruct Hop as [-> | ->]; simpl; rewrite stat_kind_eqb_refl; simpl;
    (split; [exact Hr|]);
    match goal with
    | |- R ?x _ =>
        replace x with (migrated (stats st k) + failed (stats st k) + (r + 1)) by lia
    end; exact HR.
Qed.

Lemma owes_set R `{Tally R} k n :
  0 <= n ->
  hoare (fun st _ => settled st k = 0) (@record_stat Env (SetTotal k n))
    (fun _ => owes R k n) (within k).
Proof.
  intros Hn st w Hs. unfold record_stat, bind, get_state, put_state, emit.
  simpl. unfold owes, settled in *. simpl. unfold apply_op. simpl.
  rewrite stat_kind_eqb_refl. simpl. split; [exact Hn|].
  rewrite Hs. apply tally_refl.
Qed.

Lemma owes_add R `{Tally R} k r n :
  0 <= n ->
  hoare (owes R k r) (@record_stat Env (AddTotal k n))
    (fun _ => owes R k (r + n)) (within k).
Proof.
  intros Hn st w [Hr HR]. unfold record_stat, bind, get_state, put_state, emit.
  simpl. unfold owes, settled in *. simpl. unfold apply_op. simpl.
  rewrite stat_kind_eqb_refl. simpl. split; [lia|].
  apply (tally_add _ _ n) in HR.
  match goal with
  | |- R ?x _ =>
      replace x with (migrated (stats st k) + failed (stats st k) + r + n) by lia
  end. exact HR.
Qed.

(** A loop whose body settles one record. *)
Lemma hoare_for_each_owes R k {A} (xs : list A) (body : A -> @M Env KaitenMigration unit) :
  (forall x r, 0 <= r ->
     hoare (owes R k (r + 1)) (body x) (fun _ => owes R k r) (within k)) ->
  forall r0, 0 <= r0 ->
    hoare (owes R k (r0 + Z.of_nat (List.length xs))) (for_each xs body)
      (fun _ => owes R k r0) (within k).
Proof.
  intros Hbody. induction xs as [|x xs IH]; intros r0 Hr0.
  - apply hoare_ret. intros st w H. simpl in H.
    replace (r0 + 0) with r0 in H by lia. exact H.
  - cbn [for_each]. eapply hoare_bind.
    + replace (r0 + Z.of_nat (List.length (x :: xs)))
        with (r0 + Z.of_nat (List.length xs) + 1) by (simpl List.length; lia).
      apply Hbody. lia.
    + intros u. apply IH. exact Hr0.
Qed.

End KindFrames.

(** Closes the side conditions of the lemmas on the stages, for an
    assertion on the counters of one kind. *)
Ltac kind_frames :=
  first [ apply kind_source_frame | apply kind_target_frame | apply kind_map_frame
        | apply kind_stat_frame
        | exact Logic.I | reflexivity
        | intros ?; exact Logic.I | intros ?; reflexivity
        | split; reflexivity ].

Section KeepsKind.

Context {Env : Type} {E : Environment Env}.

Lemma kind_get_paginated k c fuel ep params limit :
  stable (@kind_is Env k c) (on_source (get_paginated fuel ep params limit)).
Proof. apply stable_source_get_paginated. apply kind_source_frame. Qed.

Lemma kind_get k c fuel ep params :
  stable (@kind_is Env k c) (on_source (get fuel ep params)).
Proof. apply stable_source_get. apply kind_source_frame. Qed.

Lemma kind_post k c fuel ep data :
  stable (@kind_is Env k c) (on_target (post fuel ep data)).
Proof.
  apply (stable_target_post _ (fun _ => True)); [apply kind_target_frame|exact Logic.I].
Qed.

Lemma kind_id_map_set k c kind key v :
  stable (@kind_is Env k c) (id_map_set kind key v).
Proof. apply stable_id_map_set. apply kind_map_frame. Qed.

Lemma kind_other_stat k c op :
  other_kind k op -> stable (@kind_is Env k c) (record_stat op).
Proof. intros H. apply (stable_record_stat _ (other_kind k)); [apply kind_stat_frame|exact H]. Qed.

Lemma kind_columns_and_lanes k c fuel ob nb data :
  stable (@kind_is Env k c) (migrate_columns_and_lanes fuel ob nb data).
Proof.
  eapply stable_migrate_columns_and_lanes with (eps := fun _ => True); kind_frames.
Qed.

Lemma kind_card_tags k c fuel oc nc tags :
  stable (@kind_is Env k c) (migrate_card_tags fuel oc nc tags).
Proof. eapply stable_migrate_card_tags with (eps := fun _ => True); kind_frames. Qed.

Lemma kind_card_properties k c card :
  stable (@kind_is Env k c) (card_properties card).
Proof. apply stable_card_properties. Qed.

Lemma kind_call_time k c : stable (@kind_is Env k c) call_time.
Proof. apply stable_call_time_trace. intros st w e H. exact H. Qed.

(** The stages and the counters they do not write. *)

Lemma custom_properties_keep k c fuel :
  k <> CustomProperties ->
  stable (@kind_is Env k c) (migrate_custom_properties fuel).
Proof.
  intros Hk. destruct k; try contradiction;
    (eapply stable_migrate_custom_properties
       with (eps := fun _ => True) (ops := other_kind _); kind_frames).
Qed.

Lemma tags_keep k c fuel :
  k <> Tags -> stable (@kind_is Env k c) (migrate_tags fuel).
Proof.
  intros Hk. destruct k; try contradiction;
    (eapply stable_migrate_tags
       with (eps := fun _ => True) (ops := other_kind _); kind_frames).
Qed.

Lemma boards_in_space_keep k c fuel os ns :
  k <> Boards -> stable (@kind_is Env k c) (migrate_boards_in_space fuel os ns).
Proof.
  intros Hk. destruct k; try contradiction;
    (eapply stable_migrate_boards_in_space
       with (eps := fun _ => True) (ops := other_kind _); kind_frames).
Qed.

Lemma spaces_and_boards_keep k c fuel :
  k <> Spaces -> k <> Boards ->
  stable (@kind_is Env k c) (migrate_spaces_and_boards fuel).
Proof.
  intros Hk Hk'. destruct k; try contradiction;
    (eapply stable_migrate_spaces_and_boards
       with (eps := fun _ => True) (ops := other_kind _); kind_frames).
Qed.

Lemma cards_keep k c fuel :
  k <> Cards -> stable (@kind_is Env k c) (migrate_cards fuel).
Proof.
  intros Hk. destruct k; try contradiction;
    (eapply stable_migrate_cards
       with (eps := fun _ => True) (ops := other_kind _); kind_frames).
Qed.

Lemma comments_keep k c fuel :
  k <> Comments -> stable (@kind_is Env k c) (migrate_comments fuel).
Proof.
  intros Hk. destruct k; try contradiction;
    (eapply stable_migrate_comments
       with (eps := fun _ => True) (ops := other_kind _); kind_frames).
Qed.

Lemma checklists_keep k c fuel :
  k <> Checklists -> stable (@kind_is Env k c) (migrate_checklists fuel).
Proof.
  intros Hk. destruct k; try contradiction;
    (eapply stable_migrate_checklists
       with (eps := fun _ => True) (ops := other_kind _); kind_frames).
Qed.

Lemma card_relations_keep k c fuel :
  stable (@kind_is Env k c) (migrate_card_relations fuel).
Proof.
  eapply stable_migrate_card_relations with (eps := fun _ => True); kind_frames.
Qed.

End KeepsKind.

(** Closes [stable (kind_is k c) m] for a step [m] that does not write the
    counters of [k]. *)
Ltac kind_atom :=
  first [ apply kind_get_paginated | apply kind_get | apply kind_post
        | apply kind_id_map_set
        | apply kind_other_stat; reflexivity
        | apply kind_columns_and_lanes | apply kind_card_tags
        | apply kind_card_properties
        | apply boards_in_space_keep; discriminate ].

Ltac neutral := intros ?; stable_split kind_atom.

(** One step of a computation that settles one record of a kind: a step
    that keeps the counters of the kind, the write that counts the record,
    or a branch. *)
Ltac count_one :=
  apply owes_inc; try typeclasses eauto;
    first [lia | left; reflexivity | right; reflexivity].

Ltac keep_going := apply keep; try typeclasses eauto; solve [neutral].

Ltac settle_step :=
  first
    [ count_one
    | eapply hoare_bind; [count_one | intros ?]
    | keep_going
    | eapply hoare_bind; [keep_going | intros ?]
    | match goal with
      | |- hoare _ (if ?b then _ else _) _ _ => destruct b
      | |- hoare _ (match ?x with _ => _ end) _ _ => destruct x
      end ].

Section Settles.

Context {Env : Type} {E : Environment Env}.

Variable R : Z -> Z -> Prop.
Context `{HR : Tally R}.

Lemma property_settles fuel prop r :
  0 <= r ->
  hoare (owes R CustomProperties (r + 1)) (migrate_property fuel prop)
    (fun _ => owes R CustomProperties r) (within CustomProperties).
Proof. intros Hr. unfold migrate_property. repeat settle_step. Qed.

Lemma tag_settles fuel tag r :
  0 <= r ->
  hoare (owes R Tags (r + 1)) (migrate_tag fuel tag)
    (fun _ => owes R Tags r) (within Tags).
Proof. intros Hr. unfold migrate_tag. repeat settle_step. Qed.

Lemma board_settles fuel ns board r :
  0 <= r ->
  hoare (owes R Boards (r + 1)) (migrate_board fuel ns board)
    (fun _ => owes R Boards r) (within Boards).
Proof. intros Hr. unfold migrate_board. repeat settle_step. Qed.

Lemma card_settles fuel card r :
  0 <= r ->
  hoare (owes R Cards (r + 1)) (migrate_single_card fuel card)
    (fun _ => owes R Cards r) (within Cards).
Proof.
  intros Hr. unfold migrate_single_card, record_card. repeat settle_step.
Qed.

End Settles.

Section StagesSettle.

Context {Env : Type} {E : Environment Env}.

Lemma fresh_within k (st : KaitenMigration) (w : @World Env) :
  kind_is k zero_counters st w -> within k st w.
Proof. unfold kind_is, within, settled. intros ->. simpl. lia. Qed.

Lemma fresh_owes R `{Tally R} k (st : KaitenMigration) (w : @World Env) :
  kind_is k zero_counters st w -> owes R k 0 st w.
Proof.
  unfold kind_is, owes, settled. intros ->. simpl. split; [lia|apply tally_refl].
Qed.

(** A step that keeps the counters of [k], before the stage of [k]. *)
Lemma fresh_keep k {A} (m : @M Env KaitenMigration A) :
  (forall c, stable (kind_is k c) m) ->
  hoare (kind_is k zero_counters) m (fun _ => kind_is k zero_counters) (within k).
Proof.
  intros Hm. apply stable_hoare; [apply Hm|]. intros st w. apply fresh_within.
Qed.

(** A stage that assigns the total of [k] and then settles each record. *)
Lemma assigning_stage_settles R `{Tally R} k fuel ep params
    (body : value -> @M Env KaitenMigration unit) :
  (forall x r, 0 <= r ->
     hoare (owes R k (r + 1)) (body x) (fun _ => owes R k r) (within k)) ->
  hoare (kind_is k zero_counters)
    (records <- on_source (get_paginated fuel ep params 100) ;;
     record_stat (SetTotal k (len records)) ;;
     for_each records body)
    (fun _ => owes R k 0) (within k).
Proof.
  intros Hbody. eapply hoare_bind.
  - apply fresh_keep. intros c. apply kind_get_paginated.
  - intros records. eapply hoare_bind.
    + eapply hoare_conseq.
      * apply (owes_set R k (len records)). apply len_nonneg.
      * intros st w Hst. unfold kind_is in Hst. unfold settled. rewrite Hst. reflexivity.
      * intros a st w Hst. exact Hst.
      * intros st w Hst. exact Hst.
    + intros u. eapply hoare_conseq.
      * apply (hoare_for_each_owes R k records body Hbody 0). lia.
      * intros st w Hst. exact Hst.
      * intros a st w Hst. exact Hst.
      * intros st w Hst. exact Hst.
Qed.

(** A loop that adds the records found to the total of [k] and then settles
    each of them. *)
Lemma adding_loop_settles R `{Tally R} k fuel ep params
    (body : value -> @M Env KaitenMigration unit) :
  (forall x r, 0 <= r ->
     hoare (owes R k (r + 1)) (body x) (fun _ => owes R k r) (within k)) ->
  hoare (owes R k 0)
    (records <- on_source (get_paginated fuel ep params 100) ;;
     record_stat (AddTotal k (len records)) ;;
     for_each records body)
    (fun _ => owes R k 0) (within k).
Proof.
  intros Hbody. eapply hoare_bind.
  - apply keep; [assumption|]. intros c. apply kind_get_paginated.
  - intros records. eapply hoare_bind.
    + apply (owes_add R k 0 (len records)). apply len_nonneg.
    + intros u. apply (hoare_for_each_owes R k records body Hbody 0). lia.
Qed.

Variable R : Z -> Z -> Prop.
Context `{HR : Tally R}.

Lemma custom_properties_settle fuel :
  hoare (kind_is CustomProperties zero_counters) (migrate_custom_properties fuel)
    (fun _ => owes R CustomProperties 0) (within CustomProperties).
Proof.
  apply (assigning_stage_settles R CustomProperties).
  intros x r Hr. apply property_settles; assumption.
Qed.

Lemma tags_settle fuel :
  hoare (kind_is Tags zero_counters) (migrate_tags fuel)
    (fun _ => owes R Tags 0) (within Tags).
Proof.
  apply (assigning_stage_settles R Tags).
  intros x r Hr. apply tag_settles; assumption.
Qed.

Lemma cards_settle fuel :
  hoare (kind_is Cards zero_counters) (migrate_cards fuel)
    (fun _ => owes R Cards 0) (within Cards).
Proof.
  apply (assigning_stage_settles R Cards).
  intros x r Hr. apply card_settles; assumption.
Qed.

Lemma boards_in_space_settle fuel os ns :
  hoare (owes R Boards 0) (migrate_boards_in_space fuel os ns)
    (fun _ => owes R Boards 0) (within Boards).
Proof.
  apply (adding_loop_settles R Boards).
  intros x r Hr. apply board_settles; assumption.
Qed.

Lemma space_keeps_boards fuel space :
  hoare (owes R Boards 0) (migrate_space fuel space)
    (fun _ => owes R Boards 0) (within Boards).
Proof.
  unfold migrate_space.
  repeat first
    [ apply boards_in_space_settle
    | keep_going
    | eapply hoare_bind; [keep_going | intros ?]
    | match goal with
      | |- hoare _ (if ?b then _ else _) _ _ => destruct b
      end ].
Qed.

Lemma spaces_and_boards_settle_boards fuel :
  hoare (kind_is Boards zero_counters) (migrate_spaces_and_boards fuel)
    (fun _ => owes R Boards 0) (within Boards).
Proof.
  eapply hoare_conseq with (P' := owes R Boards 0) (Q' := fun _ => owes R Boards 0)
                           (X' := within Boards).
  - unfold migrate_spaces_and_boards.
    eapply hoare_bind; [keep_going|intros spaces].
    eapply hoare_bind; [keep_going|intros u].
    apply hoare_for_each.
    + intros st w. apply owes_within. exact HR.
    + intros x _. apply space_keeps_boards.
  - intros st w. apply fresh_owes. exact HR.
  - intros a st w H. exact H.
  - intros st w H. exact H.
Qed.

Lemma comments_settle fuel :
  hoare (kind_is Comments zero_counters) (migrate_comments fuel)
    (fun _ => owes R Comments 0) (within Comments).
Proof.
  eapply hoare_conseq with (P' := owes R Comments 0)
                           (Q' := fun _ => owes R Comments 0)
                           (X' := within Comments).
  - unfold migrate_comments.
    eapply hoare_bind; [keep_going|intros st0].
    apply hoare_for_each.
    + intros st w. apply owes_within. exact HR.
    + intros [old_card_id new_card_id] _.
      apply (adding_loop_settles R Comments).
      intros x r Hr. repeat settle_step.
  - intros st w. apply fresh_owes. exact HR.
  - intros a st w H. exact H.
  - intros st w H. exact H.
Qed.

Lemma checklists_settle fuel :
  hoare (kind_is Checklists zero_counters) (migrate_checklists fuel)
    (fun _ => owes R Checklists 0) (within Checklists).
Proof.
  eapply hoare_conseq with (P' := owes R Checklists 0)
                           (Q' := fun _ => owes R Checklists 0)
                           (X' := within Checklists).
  - unfold migrate_checklists.
    eapply hoare_bind; [keep_going|intros st0].
    apply hoare_for_each.
    + intros st w. apply owes_within. exact HR.
    + intros [old_card_id new_card_id] _.
      apply (adding_loop_settles R Checklists).
      intros x r Hr. repeat settle_step.
  - intros st w. apply fresh_owes. exact HR.
  - intros a st w H. exact H.
  - intros st w H. exact H.
Qed.

End StagesSettle.

Section SpacesSettle.

Context {Env : Type} {E : Environment Env}.

(** A space is counted once, or not at all when it is archived. *)
Lemma space_settles fuel space r :
  0 <= r ->
  hoare (owes Z.le Spaces (r + 1)) (migrate_space fuel space)
    (fun _ => owes Z.le Spaces r) (within Spaces).
Proof.
  intros Hr. unfold migrate_space.
  eapply hoare_bind; [keep_going|intros archived].
  destruct (truthy archived).
  - apply hoare_ret. intros st w [_ H]. split; [exact Hr|]. lia.
  - repeat settle_step.
Qed.

Lemma spaces_and_boards_settle_spaces fuel :
  hoare (kind_is Spaces zero_counters) (migrate_spaces_and_boards fuel)
    (fun _ => owes Z.le Spaces 0) (within Spaces).
Proof.
  apply (assigning_stage_settles Z.le Spaces).
  intros x r Hr. apply space_settles. exact Hr.
Qed.

(** Closes [forall c, stable (kind_is k c) stage] for a stage that does not
    write the counters of [k]. *)
Ltac other_stage :=
  intros ?;
  first [ apply custom_properties_keep; discriminate
        | apply tags_keep; discriminate
        | apply spaces_and_boards_keep; discriminate
        | apply cards_keep; discriminate
        | apply comments_keep; discriminate
        | apply checklists_keep; discriminate
        | apply card_relations_keep ].

(** Walks through the stages for one kind: [own] is the lemma on the stage
    that settles the kind. *)
Ltac through_stages own :=
  unfold stages;
  repeat first
    [ apply own
    | apply fresh_keep; solve [other_stage]
    | apply keep; try typeclasses eauto; solve [other_stage]
    | eapply hoare_bind;
        [ first [ apply own
                | apply fresh_keep; solve [other_stage]
                | apply keep; try typeclasses eauto; solve [other_stage] ]
        | intros ? ] ].

Lemma stages_settle_custom_properties fuel :
  hoare (kind_is CustomProperties zero_counters) (stages fuel)
    (fun _ => owes eq CustomProperties 0) (within CustomProperties).
Proof. through_stages (custom_properties_settle (@eq Z)). Qed.

Lemma stages_settle_tags fuel :
  hoare (kind_is Tags zero_counters) (stages fuel)
    (fun _ => owes eq Tags 0) (within Tags).
Proof. through_stages (tags_settle (@eq Z)). Qed.

Lemma stages_settle_spaces fuel :
  hoare (kind_is Spaces zero_counters) (stages fuel)
    (fun _ => owes Z.le Spaces 0) (within Spaces).
Proof. through_stages spaces_and_boards_settle_spaces. Qed.

Lemma stages_settle_boards fuel :
  hoare (kind_is Boards zero_counters) (stages fuel)
    (fun _ => owes eq Boards 0) (within Boards).
Proof. through_stages (spaces_and_boards_settle_boards (@eq Z)). Qed.

Lemma stages_settle_cards fuel :
  hoare (kind_is Cards zero_counters) (stages fuel)
    (fun _ => owes eq Cards 0) (within Cards).
Proof. through_stages (cards_settle (@eq Z)). Qed.

Lemma stages_settle_comments fuel :
  hoare (kind_is Comments zero_counters) (stages fuel)
    (fun _ => owes eq Comments 0) (within Comments).
Proof. through_stages (comments_settle (@eq Z)). Qed.

Lemma stages_settle_checklists fuel :
  hoare (kind_is Checklists zero_counters) (stages fuel)
    (fun _ => owes eq Checklists 0) (within Checklists).
Proof. through_stages (checklists_settle (@eq Z)). Qed.

(** Whatever the kind, the stages leave no more outcomes counted than
    records found; when they all return, the count is exact but for the
    spaces. *)
Lemma stages_settle k fuel :
  hoare (kind_is k zero_counters) (stages fuel)
    (fun _ st _ => settled st k <= total (stats st k)
                   /\ (k <> Spaces -> settled st k = total (stats st k)))
    (within k).
Proof.
  destruct k.
  - eapply hoare_conseq; [apply stages_settle_spaces|auto| |auto].
    intros a st w [_ H]. split; [lia|congruence].
  - eapply hoare_conseq; [apply stages_settle_boards|auto| |auto].
    intros a st w [_ H]. split; [lia|intros _; lia].
  - eapply hoare_conseq; [apply stages_settle_cards|auto| |auto].
    intros a st w [_ H]. split; [lia|intros _; lia].
  - eapply hoare_conseq; [apply stages_settle_comments|auto| |auto].
    intros a st w [_ H]. split; [lia|intros _; lia].
  - eapply hoare_conseq; [apply stages_settle_checklists|auto| |auto].
    intros a st w [_ H]. split; [lia|intros _; lia].
  - eapply hoare_conseq; [apply stages_settle_tags|auto| |auto].
    intros a st w [_ H]. split; [lia|intros _; lia].
  - eapply hoare_conseq; [apply stages_settle_custom_properties|auto| |auto].
    intros a st w [_ H]. split; [lia|intros _; lia].
Qed.

Lemma migrate_all_within k fuel :
  hoare (kind_is k zero_counters) (migrate_all fuel) (fun _ => within k) (within k).
Proof.
  unfold migrate_all.
  eapply hoare_bind; [apply fresh_keep; intros c; apply kind_call_time|intros t0].
  assert (Htime : stable (@within Env k) (@call_time Env E KaitenMigration))
    by (apply within_by_kind; intros c; apply kind_call_time).
  eapply hoare_bind with (Q' := fun _ => within k).
  - eapply hoare_try_except with (X' := within k).
    + eapply hoare_conseq; [apply (stages_settle k fuel)|auto| |auto].
      intros a st w [H _]. exact H.
    + intros e. apply hoare_ret. auto.
    + auto.
  - intros u. eapply hoare_bind; [exact Htime|intros t1]. apply hoare_ret. auto.
Qed.

End SpacesSettle.

(** X2 (no more outcomes than records).  In a migration that starts with
    all counters at zero, at the end of [migrate_all], however the stages
    ended, the migrated and the failed counters of each kind together do not
    exceed its total: no record is counted twice, and none is counted that
    was not found. *)
Theorem outcomes_never_exceed_total {Env : Type} {E : Environment Env}
    (fuel : nat) (st : KaitenMigration) (w : World) :
  fresh_counters st ->
  forall k,
    migrated (stats (final_state (migrate_all fuel st w)) k)
    + failed (stats (final_state (migrate_all fuel st w)) k)
    <= total (stats (final_state (migrate_all fuel st w)) k).
Proof.
  intros Hfresh k.
  pose proof (migrate_all_within k fuel st w (Hfresh k)) as H.
  unfold final_state.
  destruct (migrate_all fuel st w) as [[[u|e|] st'] w']; exact H.
Qed.

Lemma outcomes_never_exceed_total_witness :
  let st := final_state (migrate_all (E := SimEnvironment two_spaces) 5
                           fresh_migration sim_world) in
  migrated (stats st Cards) + failed (stats st Cards) <= total (stats st Cards)
  /\ migrated (stats st Spaces) + failed (stats st Spaces) <= total (stats st Spaces).
Proof.
  split;
    apply (outcomes_never_exceed_total (E := SimEnvironment two_spaces) 5
             fresh_migration sim_world); intros k; reflexivity.
Defined.

(** X3 (a completed run is balanced).  In a migration that starts with all
    counters at zero, when the seven stages of [migrate_all] all return,
    every record found has been counted exactly once: for the custom
    properties, the tags, the boards, the cards, the comments and the
    checklists the total is the sum of the migrated and the failed counters;
    for the spaces, where the archived ones are in the total and are not
    processed, the sum does not exceed the total. *)
Theorem completed_stages_are_balanced {Env : Type} {E : Environment Env}
    (fuel : nat) (st : KaitenMigration) (w : World) :
  fresh_counters st ->
  result_of (stages fuel st w) = Ok tt ->
  balanced (final_state (stages fuel st w)).
Proof.
  intros Hfresh Hok.
  assert (H : forall k,
    settled (final_state (stages fuel st w)) k
    <= total (stats (final_state (stages fuel st w)) k)
    /\ (k <> Spaces ->
        settled (final_state (stages fuel st w)) k
        = total (stats (final_state (stages fuel st w)) k))).
  { intros k. pose proof (stages_settle k fuel st w (Hfresh k)) as H.
    unfold result_of, final_state in *.
    destruct (stages fuel st w) as [[[u|e|] st'] w']; simpl in *;
      [exact H|discriminate|discriminate]. }
  split.
  - intros k Hk. apply (H k). exact Hk.
  - apply (H Spaces).
Qed.

Lemma completed_stages_are_balanced_witness :
  balanced (final_state (stages (E := SimEnvironment two_spaces) 5 fresh_migration
                           sim_world)).
Proof.
  apply (completed_stages_are_balanced (E := SimEnvironment two_spaces) 5
           fresh_migration sim_world).
  - intros k. reflexivity.
  - vm_compute. reflexivity.
Defined.

(** ** The DSL engine: runs that end *)

Section SettlesRules.

Context {Env : Type} {E : Environment Env} {S : Type}.

Implicit Types (I : S -> @World Env -> Prop).

Lemma settles_ret {A} I (a : A) : settles I (ret a).
Proof. intros s w H. exact H. Qed.

Lemma settles_raise {A} I e : settles I (@raise Env S A e).
Proof. intros s w H. exact H. Qed.

Lemma settles_get_state I : settles I get_state.
Proof. intros s w H. exact H. Qed.

Lemma settles_lift_res {A} I (r : res A) : r <> OutOfFuel -> settles I (lift_res r).
Proof. intros Hr s w H. unfold lift_res. destruct r; [exact H|exact H|congruence]. Qed.

Lemma settles_bind {A B} I (m : M S A) (f : A -> M S B) :
  settles I m -> (forall a, settles I (f a)) -> settles I (bind m f).
Proof.
  intros Hm Hf s w H. unfold bind. specialize (Hm s w H).
  destruct (m s w) as [[[a|e|] s'] w']; [|exact Hm|exact Hm].
  apply (Hf a s' w' Hm).
Qed.

Lemma settles_try_except {A} I (m : M S A) h :
  settles I m -> (forall e, settles I (h e)) -> settles I (try_except m h).
Proof.
  intros Hm Hh s w H. unfold try_except. specialize (Hm s w H).
  destruct (m s w) as [[[a|e|] s'] w']; [exact Hm| |exact Hm].
  apply (Hh e s' w' Hm).
Qed.

Lemma settles_for_each {A} I (xs : list A) body :
  (forall x, settles I (body x)) -> settles I (for_each xs body).
Proof.
  intros Hbody. induction xs as [|x xs IH]; cbn [for_each].
  - apply settles_ret.
  - apply settles_bind; [apply Hbody|intros u; exact IH].
Qed.

End SettlesRules.

(** The pure functions return or raise. *)

Lemma py_index_returns v k : py_index v k <> OutOfFuel.
Proof. destruct v; simpl; try discriminate. destruct (dict_get k d); discriminate. Qed.

Lemma py_get_default_returns {A} (inj : value -> A) v k d :
  py_get_default inj v k d <> OutOfFuel.
Proof. destruct v; simpl; discriminate. Qed.

Lemma py_contains_returns k v : py_contains k v <> OutOfFuel.
Proof. destruct v; simpl; discriminate. Qed.

Lemma py_iter_returns v : py_iter v <> OutOfFuel.
Proof. destruct v; simpl; discriminate. Qed.

Lemma has_id_returns v : has_id v <> OutOfFuel.
Proof.
  unfold has_id. destruct (truthy v); [apply py_contains_returns|discriminate].
Qed.

Lemma table_get_returns k t : table_get k t <> OutOfFuel.
Proof. unfold table_get. destruct (hashable k); discriminate. Qed.

Lemma table_set_returns k v t : table_set k v t <> OutOfFuel.
Proof. unfold table_set. destruct (hashable k); discriminate. Qed.

Lemma lookup_default_returns mapping key default :
  Engine.lookup_default mapping key default <> OutOfFuel.
Proof. unfold Engine.lookup_default. destruct (hashable key); discriminate. Qed.

Lemma _map_property_type_returns v : Engine._map_property_type v <> OutOfFuel.
Proof. apply lookup_default_returns. Qed.

Lemma _map_column_type_returns v : Engine._map_column_type v <> OutOfFuel.
Proof. apply lookup_default_returns. Qed.

Lemma _build_trigger_returns v : Engine._build_trigger v <> OutOfFuel.
Proof.
  unfold Engine._build_trigger.
  destruct (py_get_default _ v "trigger" _) as [t|e|] eqn:H1;
    [|discriminate|exfalso; exact (py_get_default_returns _ _ _ _ H1)].
  destruct (Engine.lookup_default _ t t) as [t'|e|] eqn:H2;
    [|discriminate|exfalso; exact (lookup_default_returns _ _ _ H2)].
  destruct (py_get_default _ v "trigger_params" _) as [p|e|] eqn:H3;
    [|discriminate|exfalso; exact (py_get_default_returns _ _ _ _ H3)].
  destruct p; discriminate.
Qed.

Lemma _build_actions_returns v : Engine._build_actions v <> OutOfFuel.
Proof.
  unfold Engine._build_actions.
  destruct (py_iter v) as [l|e|] eqn:H1;
    [discriminate|discriminate|exfalso; exact (py_iter_returns _ H1)].
Qed.

Lemma validate_config_returns v : Engine.validate_config v <> OutOfFuel.
Proof.
  unfold Engine.validate_config.
  destruct (py_contains "version" v) as [[|]|e|] eqn:H1;
    [|discriminate|discriminate|exfalso; exact (py_contains_returns _ _ H1)].
  destruct (py_contains "kaiten" v) as [[|]|e|] eqn:H2;
    [|discriminate|discriminate|exfalso; exact (py_contains_returns _ _ H2)].
  destruct (py_index v "version") as [x|e|] eqn:H3;
    [discriminate|discriminate|exfalso; exact (py_index_returns _ _ H3)].
Qed.

Create HintDb returns.

#[local] Hint Resolve py_index_returns py_get_default_returns py_contains_returns
  py_iter_returns has_id_returns table_get_returns table_set_returns
  _map_property_type_returns _map_column_type_returns _build_trigger_returns
  _build_actions_returns validate_config_returns : returns.

(** Splits a goal [settles I m] along the structure of [m]; [atom] closes
    the goals about the client and the tables of the context. *)
Ltac settles_split atom :=
  repeat first
    [ solve [atom]
    | apply settles_ret
    | apply settles_raise
    | apply settles_get_state
    | apply settles_lift_res; solve [auto with returns]
    | match goal with
      | |- settles _ (if ?b then _ else _) => destruct b
      | |- settles _ (match ?x with _ => _ end) => destruct x
      | |- settles _ (let (_, _) := ?x in _) => destruct x
      | |- settles _ (bind _ _) => apply settles_bind; [|intros ?]
      | |- settles _ (for_each _ _) => apply settles_for_each; intros ?
      | |- settles _ (try_except _ _) => apply settles_try_except; [|intros ?]
      end ].

(** ** The DSL engine in dry-run mode *)

Section DryRun.

Context {Env : Type} {E : Environment Env} {H : Host}.

Variables (a : DSL.KaitenAPI) (w0 : @World Env).
Hypothesis a_dry : DSL.dry_run a = true.

Lemma dry_request fuel m ep kw (w : World) :
  Engine.request fuel m ep kw a w = (Ok Engine.mock, a, w).
Proof.
  destruct fuel; cbn [Engine.request]; unfold bind, get_state; rewrite a_dry;
    reflexivity.
Qed.

Lemma dry_post fuel ep data :
  settles (untouched a w0) (Engine.on_api (Engine.post fuel ep data)).
Proof.
  intros st w [Ha Hw]. unfold Engine.on_api, Engine.post.
  rewrite Ha, dry_request. split; [reflexivity|exact Hw].
Qed.

Lemma dry_resolve_variables v :
  settles (untouched a w0) (Engine.resolve_variables v).
Proof. intros st w HI. exact HI. Qed.

Lemma dry_created_get kind key :
  settles (untouched a w0) (Engine.created_get kind key).
Proof.
  intros st w HI. unfold Engine.created_get, bind, get_state, lift_res.
  destruct (table_get key _) as [v|e|] eqn:Hget;
    [exact HI|exact HI|exact (table_get_returns _ _ Hget)].
Qed.

Lemma dry_created_set kind key v :
  settles (untouched a w0) (Engine.created_set kind key v).
Proof.
  intros st w HI. unfold Engine.created_set, bind, get_state, lift_res, put_state.
  destruct (table_set key v _) as [t|e|] eqn:Hset;
    [exact HI|exact HI|exact (table_set_returns _ _ _ Hset)].
Qed.

Ltac dry_atom :=
  first [ apply dry_post | apply dry_resolve_variables | apply dry_created_get
        | apply dry_created_set ].

Lemma dry_optional_field record key :
  settles (untouched a w0) (Engine.optional_field record key).
Proof. unfold Engine.optional_field. settles_split dry_atom. Qed.

Lemma dry_remember kind key result :
  settles (untouched a w0) (Engine.remember kind key result).
Proof. unfold Engine.remember. settles_split dry_atom. Qed.

Ltac dry_step :=
  first [ dry_atom | apply dry_optional_field | apply dry_remember ].

Lemma dry_apply_custom_properties fuel properties :
  settles (untouched a w0) (Engine.apply_custom_properties fuel properties).
Proof.
  unfold Engine.apply_custom_properties, Engine.apply_custom_property.
  settles_split dry_step.
Qed.

Lemma dry_apply_tags fuel tags :
  settles (untouched a w0) (Engine.apply_tags fuel tags).
Proof. unfold Engine.apply_tags, Engine.apply_tag. settles_split dry_step. Qed.

Lemma dry_apply_card_types fuel card_types :
  settles (untouched a w0) (Engine.apply_card_types fuel card_types).
Proof.
  unfold Engine.apply_card_types, Engine.apply_card_type. settles_split dry_step.
Qed.

Lemma dry_apply_columns fuel columns board_id board_key :
  settles (untouched a w0) (Engine.apply_columns fuel columns board_id board_key).
Proof.
  unfold Engine.apply_columns, Engine.apply_column. settles_split dry_step.
Qed.

Lemma dry_apply_lanes fuel lanes board_id board_key :
  settles (untouched a w0) (Engine.apply_lanes fuel lanes board_id board_key).
Proof. unfold Engine.apply_lanes, Engine.apply_lane. settles_split dry_step. Qed.

Lemma dry_apply_boards fuel boards space_id space_name :
  settles (untouched a w0) (Engine.apply_boards fuel boards space_id space_name).
Proof.
  unfold Engine.apply_boards, Engine.apply_board.
  settles_split ltac:(first [dry_step | apply dry_apply_columns | apply dry_apply_lanes]).
Qed.

Lemma dry_apply_spaces fuel spaces :
  settles (untouched a w0) (Engine.apply_spaces fuel spaces).
Proof.
  unfold Engine.apply_spaces, Engine.apply_space.
  settles_split ltac:(first [dry_step | apply dry_apply_boards]).
Qed.

Lemma dry_apply_automations fuel automations :
  settles (untouched a w0) (Engine.apply_automations fuel automations).
Proof.
  unfold Engine.apply_automations, Engine.apply_automation. settles_split dry_step.
Qed.

Lemma dry_card_properties items :
  settles (untouched a w0) (Engine.card_properties items).
Proof.
  induction items as [|[key v] items IH]; cbn [Engine.card_properties].
  - apply settles_ret.
  - settles_split ltac:(first [dry_step | exact IH]).
Qed.

Lemma dry_apply_cards fuel cards :
  settles (untouched a w0) (Engine.apply_cards fuel cards).
Proof.
  unfold Engine.apply_cards, Engine.apply_card.
  settles_split ltac:(first [dry_step | apply dry_card_properties]).
Qed.

Lemma dry_execute fuel config :
  settles (untouched a w0) (Engine.execute fuel config).
Proof.
  unfold Engine.execute, Engine.steps, Engine.run_step.
  settles_split ltac:(first
    [ apply dry_apply_custom_properties | apply dry_apply_tags
    | apply dry_apply_card_types | apply dry_apply_spaces
    | apply dry_apply_automations | apply dry_apply_cards ]).
Qed.

End DryRun.

Lemma execute_never_raises {Env : Type} {E : Environment Env} {H : Host} fuel config
    (st : Engine.KaitenDSLEngine) (w : World) e :
  result_of (Engine.execute fuel config st w) <> Raise e.
Proof.
  unfold Engine.execute, try_except, result_of.
  destruct (bind _ _ st w) as [[[b|x|] st'] w']; simpl; discriminate.
Qed.

(** X16 (a dry run touches nothing).  With a client in dry-run mode,
    [execute] sends no request, does not sleep and does not read the clock,
    whatever the configuration: the world is the one it started in and the
    client is unchanged.  It always returns a boolean, with no exception and
    without ever waiting for the network. *)
Theorem dry_run_touches_nothing {Env : Type} {E : Environment Env} {H : Host}
    (fuel : nat) (config : value) (st : Engine.KaitenDSLEngine) (w : World) :
  DSL.dry_run (Engine.api st) = true ->
  (exists b, result_of (Engine.execute fuel config st w) = Ok b)
  /\ final_world (Engine.execute fuel config st w) = w
  /\ Engine.api (final_state (Engine.execute fuel config st w)) = Engine.api st.
Proof.
  intros Hdry.
  pose proof (dry_execute (Engine.api st) w Hdry fuel config st w (conj eq_refl eq_refl))
    as Hrun.
  pose proof (execute_never_raises fuel config st w) as Hnr.
  unfold result_of, final_world, final_state in *.
  destruct (Engine.execute fuel config st w) as [[[b|e|] st'] w']; simpl in *.
  - destruct Hrun as [Ha Hw]. repeat split; [exists b; reflexivity|exact Hw|exact Ha].
  - exfalso. exact (Hnr e eq_refl).
  - contradiction.
Qed.

Lemma dry_run_touches_nothing_witness :
  (exists b, result_of (Engine.execute (E := SimEnvironment offline) (H := SimHost) 0
                          sample_config (fresh_engine true) sim_world) = Ok b)
  /\ final_world (Engine.execute (E := SimEnvironment offline) (H := SimHost) 0
                    sample_config (fresh_engine true) sim_world) = sim_world
  /\ Engine.api (final_state (Engine.execute (E := SimEnvironment offline)
                                (H := SimHost) 0 sample_config (fresh_engine true)
                                sim_world))
     = Engine.api (fresh_engine true).
Proof.
  apply (dry_run_touches_nothing (E := SimEnvironment offline) (H := SimHost) 0
           sample_config (fresh_engine true) sim_world).
  reflexivity.
Defined.

(** The sample configuration applied to an account that creates what it is
    asked: the steps run in the order of [execute], not in the order of the
    keys of the configuration; the card of the board that was created is
    sent, the other one is not. *)
Example sample_config_applied :
  let x := Engine.execute (E := SimEnvironment (account [] [])) (H := SimHost) 1
             sample_config (fresh_engine false) sim_world in
  result_of x = Ok true
  /\ posts_of (trace (final_world x))
     = [EP "/tags"; EP "/spaces"; EP "/boards"; EP "/columns"; EP "/columns";
        EP "/cards"]
  /\ Engine.created_ids (Engine.context (final_state x)) "columns"
     = [(VStr "Dev.Work.Todo", VInt 1003); (VStr "Dev.Work.Done", VInt 1004)].
Proof. vm_compute. repeat split; reflexivity. Qed.

(** ** The DSL engine: the configuration and its parts *)

Lemma key_eqb_str v s : key_eqb v (VStr s) = true -> v = VStr s.
Proof.
  destruct v; simpl; try discriminate. intros Heq. apply String.eqb_eq in Heq.
  congruence.
Qed.

Lemma key_eqb_one v : key_eqb v (VInt 1) = true -> v = VInt 1 \/ v = VBool true.
Proof.
  destruct v as [|b|z|s|l|d]; simpl; try discriminate.
  - destruct b; [auto|discriminate].
  - intros Heq. apply Z.eqb_eq in Heq. left. congruence.
Qed.

(** X17 (the versions [validate_config] accepts).  [validate_config]
    returns [True] exactly for a dict that has the keys ['version'] and
    ['kaiten'] and whose version is the string ['1.0'], the number 1 (which
    the number 1.0 is) or, these being equal to 1 for Python, the boolean
    [True]; the value under ['kaiten'] is not looked at. *)
Theorem validate_config_accepts (config : value) :
  Engine.validate_config config = Ok true
  <-> exists d version,
        config = VDict d
        /\ dict_get "kaiten" d <> None
        /\ dict_get "version" d = Some version
        /\ (version = VStr "1.0" \/ version = VInt 1 \/ version = VBool true).
Proof.
  split.
  - unfold Engine.validate_config.
    destruct (py_contains "version" config) as [[|]|e|] eqn:Hv; try discriminate.
    destruct (py_contains "kaiten" config) as [[|]|e|] eqn:Hk; try discriminate.
    destruct (py_index config "version") as [version|e|] eqn:Hi; try discriminate.
    intros Hok. injection Hok as Hok.
    destruct config as [| | | |l|d]; simpl in Hv, Hk, Hi; try discriminate.
    exists d, version. split; [reflexivity|]. split; [|split].
    + destruct (dict_get "kaiten" d); [discriminate|discriminate].
    + destruct (dict_get "version" d); [congruence|discriminate].
    + apply orb_prop in Hok. destruct Hok as [Hs|Hn].
      * left. apply key_eqb_str. exact Hs.
      * right. apply key_eqb_one. exact Hn.
  - intros (d & version & -> & Hk & Hv & Hver).
    unfold Engine.validate_config. simpl. rewrite Hv.
    destruct (dict_get "kaiten" d); [|contradiction].
    destruct Hver as [-> | [-> | ->]]; reflexivity.
Qed.

(** X18 (a configuration that is not valid).  When [validate_config] does
    not return [True], because it returns [False] or because it raises,
    [execute] returns [False] and nothing has happened: no step has run, no
    request was sent, the context and the client are as before. *)
Theorem invalid_config_changes_nothing {Env : Type} {E : Environment Env} {H : Host}
    (fuel : nat) (config : value) (st : Engine.KaitenDSLEngine) (w : World) :
  Engine.validate_config config <> Ok true ->
  Engine.execute fuel config st w = (Ok false, st, w).
Proof.
  intros Hbad. unfold Engine.execute, try_except, bind, lift_res.
  destruct (Engine.validate_config config) as [[|]|e|] eqn:Hv.
  - contradiction.
  - reflexivity.
  - reflexivity.
  - exfalso. exact (validate_config_returns _ Hv).
Qed.

Lemma invalid_config_changes_nothing_witness :
  Engine.execute (E := SimEnvironment (account [] [])) (H := SimHost) 1 config_v2
    (fresh_engine false) sim_world
  = (Ok false, fresh_engine false, sim_world).
Proof.
  apply (invalid_config_changes_nothing (E := SimEnvironment (account [] []))
           (H := SimHost) 1 config_v2 (fresh_engine false) sim_world).
  discriminate.
Defined.

(** Case analysis on a string against the keys of a dict display. *)
Ltac by_key s :=
  repeat match goal with
         | |- context [(s =? ?k)%string] =>
             let Hk := fresh "Hk" in
             destruct (s =? k)%string eqn:Hk;
             [apply String.eqb_eq in Hk; subst s|]
         end.


Lemma dict_get_absent k (p : pydict) : ~ In k (map fst p) -> dict_get k p = None.
Proof.
  induction p as [|[k' v] p IH]; simpl; [reflexivity|].
  intros Hn. destruct (k =? k')%string eqn:Hk.
  - apply String.eqb_eq in Hk. subst k'. exfalso. apply Hn. left. reflexivity.
  - apply IH. intros Hin. apply Hn. right. exact Hin.
Qed.

(** A dict display extended by [**p]: a key of [p] takes its value from [p],
    another key keeps the one it had. *)
Lemma dict_get_merged k (p : pydict) : forall acc,
  NoDup (map fst p) ->
  dict_get k (fold_left (fun acc kv => dict_set (fst kv) (snd kv) acc) p acc)
  = match dict_get k p with
    | Some v => Some v
    | None => dict_get k acc
    end.
Proof.
  induction p as [|[k1 v1] p IH]; intros acc Hnd; [reflexivity|].
  inversion Hnd as [|? ? Hnotin Hnd']; subst.
  cbn [fold_left fst snd dict_get]. rewrite (IH _ Hnd').
  destruct (k =? k1)%string eqn:Hk.
  - apply String.eqb_eq in Hk. subst k1.
    rewrite (dict_get_absent k p Hnotin). apply dict_get_set_same.
  - destruct (dict_get k p); [reflexivity|].
    apply dict_get_set_other. intros ->. rewrite String.eqb_refl in Hk. discriminate.
Qed.

(** X20 (the trigger of an automation).  [_build_trigger] sends the trigger
    of the automation as it is given, known or not: its table of triggers
    changes nothing.  The parameters of the trigger are merged after it, so
    that a ['type'] among them replaces the trigger; every other parameter
    is sent as given.  When the automation names no trigger the type is
    ['card_moved_to']. *)
Theorem trigger_params_override_trigger (auto params : pydict) :
  hashable (trigger_of auto) = true ->
  dict_get "trigger_params" auto = Some (VDict params)
  \/ (dict_get "trigger_params" auto = None /\ params = []) ->
  NoDup (map fst params) ->
  exists built,
    Engine._build_trigger (VDict auto) = Ok (VDict built)
    /\ dict_get "type" built
       = Some (match dict_get "type" params with
               | Some t => t
               | None => trigger_of auto
               end)
    /\ forall k, k <> "type" -> dict_get k built = dict_get k params.
Proof.
  intros Hh Hparams Hnd.
  assert (Hmap :
    Engine.lookup_default
      [("card_moved_to", VStr "card_moved_to"); ("card_created", VStr "card_created");
       ("comment_added", VStr "comment_added"); ("field_changed", VStr "field_changed")]
      (trigger_of auto) (trigger_of auto) = Ok (trigger_of auto)).
  { unfold Engine.lookup_default. rewrite Hh. f_equal.
    destruct (trigger_of auto) as [| | |s| |]; try reflexivity.
    cbn [dict_get]. by_key s; reflexivity. }
  exists (Engine.with_params (trigger_of auto) params).
  split; [|split].
  - unfold Engine._build_trigger. cbn [py_get_default]. fold (trigger_of auto).
    rewrite Hmap. destruct Hparams as [Hp|[Hp ->]]; rewrite Hp; reflexivity.
  - unfold Engine.with_params. rewrite (dict_get_merged "type" params _ Hnd).
    destruct (dict_get "type" params); reflexivity.
  - intros k Hk. unfold Engine.with_params. rewrite (dict_get_merged k params _ Hnd).
    destruct (dict_get k params); [reflexivity|].
    simpl. apply String.eqb_neq in Hk. rewrite Hk. reflexivity.
Qed.

Lemma trigger_params_override_trigger_witness :
  exists built,
    Engine._build_trigger (VDict sample_automation) = Ok (VDict built)
    /\ dict_get "type" built = Some (VStr "card_created")
    /\ forall k, k <> "type" ->
         dict_get k built
         = dict_get k [("column", VStr "Done"); ("type", VStr "card_created")].
Proof.
  apply (trigger_params_override_trigger sample_automation
           [("column", VStr "Done"); ("type", VStr "card_created")]).
  - reflexivity.
  - left. reflexivity.
  - repeat constructor; simpl; intuition discriminate.
Defined.




(** The simplified format of the source's own comment. *)
Example build_actions_simplified :
  Engine._build_actions
    (VList [VStr "set_owner: event_author"; VDict [("type", VStr "notify")];
            VStr "archive"; VInt 3])
  = Ok (VList [VDict [("type", VStr "set_owner"); ("value", VStr "event_author")];
               VDict [("type", VStr "notify")]]).
Proof. reflexivity. Qed.

(** ** The client of the DSL engine *)

Section EngineClient.

Context {Env : Type} {E : Environment Env} {H : Host}.

(** The governor of the engine's client always returns; it changes only
    [request_times], and all it adds to the trace is its own sleep. *)
Lemma DSL_rate_limit_total (api : DSL.KaitenAPI) (w : World) :
  exists api' w' sl,
    DSL._rate_limit api w = (Ok tt, api', w')
    /\ DSL.domain api' = DSL.domain api /\ DSL.token api' = DSL.token api
    /\ DSL.dry_run api' = DSL.dry_run api
    /\ trace w' = trace w ++ sl /\ forallb is_sleep sl = true.
Proof.
  unfold DSL._rate_limit, bind, call_time, get_state, DSL.set_request_times,
    put_state, call_sleep, ret, raise; simpl.
  destruct (time_time (env w)) as [now e1]. simpl.
  destruct (5 <=? Z.of_nat (List.length (recent now (DSL.request_times api))))
    eqn:Hfull.
  - destruct (recent now (DSL.request_times api)) as [|t0 rest].
    + simpl in Hfull. discriminate.
    + destruct (Qltb 0 (1 - (now - t0) + (5 # 100))).
      * simpl. destruct (time_time _) as [now2 e3]. simpl.
        do 2 eexists. exists [EvSleep (1 - (now - t0) + (5 # 100))].
        repeat split; reflexivity.
      * simpl. do 2 eexists. exists []. rewrite app_nil_r. repeat split; reflexivity.
  - simpl. do 2 eexists. exists []. rewrite app_nil_r. repeat split; reflexivity.
Qed.

Lemma engine_mk_request_same (api api' : DSL.KaitenAPI) m ep kw :
  DSL.domain api' = DSL.domain api -> DSL.token api' = DSL.token api ->
  Engine.mk_request api' m ep kw = Engine.mk_request api m ep kw.
Proof. intros Hd Ht. unfold Engine.mk_request. rewrite Hd, Ht. reflexivity. Qed.

(** One pass of [request] on a client that is not in dry-run mode. *)
Lemma engine_request_unfold fuel m ep kw (api : DSL.KaitenAPI) (w : World) :
  DSL.dry_run api = false ->
  exists api1 w1 sl o e,
    DSL.domain api1 = DSL.domain api /\ DSL.token api1 = DSL.token api
    /\ DSL.dry_run api1 = false
    /\ trace w1 = trace w ++ sl ++ [EvRequest (Engine.mk_request api m ep kw)]
    /\ forallb is_sleep sl = true
    /\ o = fst (requests_request (Engine.mk_request api m ep kw) e)
    /\ Engine.request (S fuel) m ep kw api w
       = match o with
         | Fails x =>
             if Engine.is_request_exception x then (Ok VNone, api1, w1)
             else (Raise x, api1, w1)
         | Responds response =>
             if status_code response =? 429 then
               match Engine.request fuel m ep kw api1 (slept 2 w1) with
               | (Raise x, api2, w2) =>
                   if Engine.is_request_exception x then (Ok VNone, api2, w2)
                   else (Raise x, api2, w2)
               | r => r
               end
             else if is_error_status (status_code response) then (Ok VNone, api1, w1)
             else if (text response =? "")%string then (Ok (VDict []), api1, w1)
             else match json response with
                  | Some v => (Ok v, api1, w1)
                  | None =>
                      if Engine.is_request_exception json_error
                      then (Ok VNone, api1, w1)
                      else (Raise json_error, api1, w1)
                  end
         end.
Proof.
  intros Hdry.
  destruct (DSL_rate_limit_total api w)
    as (api1 & w0 & sl & Hrl & Hd & Ht & Hdr & Htr & Hsl).
  cbn [Engine.request]. unfold bind at 1. unfold get_state at 1. rewrite Hdry.
  unfold bind at 1. rewrite Hrl. unfold bind at 1. unfold get_state at 1.
  unfold Engine.try_except_only, bind, call_request.
  rewrite (engine_mk_request_same api api1 m ep kw Hd Ht).
  destruct (requests_request (Engine.mk_request api m ep kw) (env w0)) as [o e2] eqn:Hreq.
  exists api1,
    {| env := e2; trace := trace w0 ++ [EvRequest (Engine.mk_request api m ep kw)] |},
    sl, o, (env w0).
  split; [exact Hd|]. split; [exact Ht|]. split; [congruence|].
  split; [simpl; rewrite Htr, <- app_assoc; reflexivity|].
  split; [exact Hsl|]. split; [rewrite Hreq; reflexivity|].
  destruct o as [response|x].
  - destruct (status_code response =? 429).
    + unfold call_sleep, slept. simpl.
      destruct (Engine.request fuel m ep kw api1 _) as [[[v|x|] api2] w2]; reflexivity.
    + destruct (is_error_status (status_code response)); [reflexivity|].
      destruct (text response =? "")%string; [reflexivity|].
      destruct (json response); [reflexivity|].
      unfold raise. destruct (Engine.is_request_exception json_error); reflexivity.
  - unfold raise. destruct (Engine.is_request_exception x); reflexivity.
Qed.

End EngineClient.

(** X22 (what the engine's client catches).  Outside the dry-run mode, when
    the transport raises, [request] has sent the request once and does not
    retry.  It returns [None] when the exception is a [RequestException];
    any other exception is not caught and leaves [request], unlike in the
    client of the migration, which catches them all. *)
Theorem engine_request_catches_request_exceptions {Env : Type} {E : Environment Env}
    {H : Host} (fuel : nat) (m : method) (ep : endpoint) (kw : kwargs)
    (api : DSL.KaitenAPI) (w : World) (x : exn) :
  DSL.dry_run api = false ->
  (forall e, fst (requests_request (Engine.mk_request api m ep kw) e) = Fails x) ->
  result_of (Engine.request (S fuel) m ep kw api w)
  = (if Engine.is_request_exception x then Ok VNone else Raise x)
  /\ requests_of (trace (final_world (Engine.request (S fuel) m ep kw api w)))
     = requests_of (trace w) ++ [Engine.mk_request api m ep kw].
Proof.
  intros Hdry Hfail.
  destruct (engine_request_unfold fuel m ep kw api w Hdry)
    as (api1 & w1 & sl & o & e & _ & _ & _ & Htr & Hsl & Ho & Hrun).
  rewrite Hfail in Ho. subst o. rewrite Hrun.
  assert (Hreqs : requests_of (trace w1)
                  = requests_of (trace w) ++ [Engine.mk_request api m ep kw]).
  { rewrite Htr, !requests_of_app, (requests_of_sleeps sl Hsl). reflexivity. }
  unfold result_of, final_world.
  destruct (Engine.is_request_exception x); simpl; split; (reflexivity || exact Hreqs).
Qed.

Lemma engine_request_catches_request_exceptions_witness :
  (result_of
     (Engine.request (E := SimEnvironment broken) (H := SimHost) 1 POST (EP "/tags")
        (KwJson (OD [("name", OV (VStr "bug"))]))
        (DSL.KaitenAPI_init "acme" "secret" false) sim_world)
   = Raise TypeError
   /\ requests_of
        (trace
           (final_world
              (Engine.request (E := SimEnvironment broken) (H := SimHost) 1 POST
                 (EP "/tags") (KwJson (OD [("name", OV (VStr "bug"))]))
                 (DSL.KaitenAPI_init "acme" "secret" false) sim_world)))
      = requests_of (trace sim_world)
        ++ [Engine.mk_request (DSL.KaitenAPI_init "acme" "secret" false) POST
              (EP "/tags") (KwJson (OD [("name", OV (VStr "bug"))]))])
  /\ result_of
       (Engine.request (E := SimEnvironment offline) (H := SimHost) 1 POST (EP "/tags")
          (KwJson (OD [("name", OV (VStr "bug"))]))
          (DSL.KaitenAPI_init "acme" "secret" false) sim_world)
     = Ok VNone.
Proof.
  split.
  - apply (engine_request_catches_request_exceptions (E := SimEnvironment broken)
             (H := SimHost) 0 POST (EP "/tags") (KwJson (OD [("name", OV (VStr "bug"))]))
             (DSL.KaitenAPI_init "acme" "secret" false) sim_world TypeError).
    + reflexivity.
    + intros e. reflexivity.
  - apply (engine_request_catches_request_exceptions (E := SimEnvironment offline)
             (H := SimHost) 0 POST (EP "/tags") (KwJson (OD [("name", OV (VStr "bug"))]))
             (DSL.KaitenAPI_init "acme" "secret" false) sim_world RequestException).
    + reflexivity.
    + intros e. reflexivity.
Defined.

(** ** Cards and automations whose parents were not created *)

Section MissingParents.

Context {Env : Type} {E : Environment Env} {H : Host}.





End MissingParents.



(** ** Substitution of variables *)

Section Substitution.

Context {H : Host}.

Lemma lacks_cons c c' s :
  lacks c (String c' s) = true -> c' <> c /\ lacks c s = true.
Proof.
  simpl. intros Hl. apply andb_prop in Hl. destruct Hl as [Hc Hs].
  apply negb_true_iff, Ascii.eqb_neq in Hc. split; assumption.
Qed.

Lemma lacks_app c a b :
  lacks c a = true -> lacks c b = true -> lacks c (a ++ b) = true.
Proof.
  intros Ha Hb. induction a as [|x a IH]; simpl in *; [exact Hb|].
  apply andb_prop in Ha. destruct Ha as [Hx Ha]. rewrite Hx, (IH Ha). reflexivity.
Qed.

Lemma prefix_other_head old c s c0 :
  c <> c0 -> String.prefix (String c0 old) (String c s) = false.
Proof.
  intros Hne. simpl. destruct (ascii_dec c0 c); [congruence|reflexivity].
Qed.

Lemma prefix_app (a b : string) : String.prefix a (a ++ b) = true.
Proof.
  induction a as [|c a IH]; simpl; [destruct b; reflexivity|].
  destruct (ascii_dec c c); [exact IH|congruence].
Qed.

Lemma match_env_other_head c s : c <> "$"%char -> Engine.match_env (String c s) = None.
Proof.
  intros Hne. unfold Engine.match_env.
  rewrite (prefix_other_head _ c s "$"%char Hne). reflexivity.
Qed.

Lemma match_ctx_other_head c s : c <> "$"%char -> Engine.match_ctx (String c s) = None.
Proof.
  intros Hne. unfold Engine.match_ctx.
  rewrite (prefix_other_head _ c s "$"%char Hne). reflexivity.
Qed.

Lemma append_assoc_string (a b c : string) : ((a ++ b) ++ c = a ++ (b ++ c))%string.
Proof. induction a as [|x a IH]; simpl; [reflexivity|rewrite IH; reflexivity]. Qed.

(** Nothing matches in a text without a dollar. *)
Lemma find_all_no_dollar match_at text (s : string) :
  (forall c t, c <> "$"%char -> match_at (String c t) = None) ->
  lacks "$" s = true -> forall skip, Engine.find_all match_at text skip s = [].
Proof.
  intros Hhead. induction s as [|c s IH]; intros Hl skip; [reflexivity|].
  apply lacks_cons in Hl. destruct Hl as [Hc Hs].
  cbn [Engine.find_all]. destruct skip as [|k]; [|apply IH; exact Hs].
  rewrite (Hhead c s Hc). apply IH. exact Hs.
Qed.

Lemma find_all_pre match_at text (pre s : string) :
  (forall c t, c <> "$"%char -> match_at (String c t) = None) ->
  lacks "$" pre = true ->
  Engine.find_all match_at text 0 (pre ++ s) = Engine.find_all match_at text 0 s.
Proof.
  intros Hhead. induction pre as [|c pre IH]; intros Hl; [reflexivity|].
  apply lacks_cons in Hl. destruct Hl as [Hc Hs].
  change (String c pre ++ s)%string with (String c (pre ++ s)).
  cbn [Engine.find_all]. rewrite (Hhead c _ Hc). apply IH. exact Hs.
Qed.

Lemma find_all_skip match_at text (a b : string) :
  Engine.find_all match_at text (String.length a) (a ++ b)
  = Engine.find_all match_at text 0 b.
Proof.
  induction a as [|c a IH]; [reflexivity|].
  change (String c a ++ b)%string with (String c (a ++ b)).
  cbn [Engine.find_all String.length]. exact IH.
Qed.

Lemma replace_all_no_dollar old new (s : string) :
  lacks "$" s = true ->
  Engine.replace_all (String "$" old) new 0 s = s.
Proof.
  induction s as [|c s IH]; intros Hl; [reflexivity|].
  apply lacks_cons in Hl. destruct Hl as [Hc Hs].
  cbn [Engine.replace_all]. rewrite (prefix_other_head old c s "$"%char Hc).
  rewrite (IH Hs). reflexivity.
Qed.

Lemma replace_all_pre old new (pre s : string) :
  lacks "$" pre = true ->
  Engine.replace_all (String "$" old) new 0 (pre ++ s)
  = (pre ++ Engine.replace_all (String "$" old) new 0 s)%string.
Proof.
  induction pre as [|c pre IH]; intros Hl; [reflexivity|].
  apply lacks_cons in Hl. destruct Hl as [Hc Hs].
  change (String c pre ++ s)%string with (String c (pre ++ s)).
  cbn [Engine.replace_all]. rewrite (prefix_other_head old c _ "$"%char Hc).
  rewrite (IH Hs). reflexivity.
Qed.

Lemma replace_all_skip old new (a b : string) :
  Engine.replace_all old new (String.length a) (a ++ b)
  = Engine.replace_all old new 0 b.
Proof.
  induction a as [|c a IH]; [reflexivity|].
  change (String c a ++ b)%string with (String c (a ++ b)).
  cbn [Engine.replace_all String.length]. exact IH.
Qed.

(** One occurrence of [old], between two texts without a dollar. *)
Lemma replace_all_once old new (pre post : string) :
  lacks "$" pre = true -> lacks "$" post = true ->
  Engine.replace_all (String "$" old) new 0 (pre ++ String "$" old ++ post)
  = (pre ++ new ++ post)%string.
Proof.
  intros Hpre Hpost. rewrite (replace_all_pre old new pre _ Hpre). f_equal.
  pose proof (prefix_app (String "$" old) post) as Hp.
  change (String "$" old ++ post)%string with (String "$" (old ++ post)) in *.
  cbn [Engine.replace_all]. rewrite Hp. f_equal.
  change (String.length (String "$" old) - 1)%nat with (String.length old - 0)%nat.
  rewrite Nat.sub_0_r, replace_all_skip. apply replace_all_no_dollar. exact Hpost.
Qed.

Lemma until_brace_name stop (name post : string) :
  lacks "}" name = true -> (stop = false \/ lacks ":" name = true) ->
  Engine.until_brace stop (name ++ String "}" post) = Some (name, post).
Proof.
  intros Hbrace Hcolon. induction name as [|c name IH]; [reflexivity|].
  apply lacks_cons in Hbrace. destruct Hbrace as [Hc Hbrace].
  change (String c name ++ String "}" post)%string
    with (String c (name ++ String "}" post)).
  cbn [Engine.until_brace]. apply Ascii.eqb_neq in Hc. rewrite Hc.
  assert (Hstop : stop && Ascii.eqb c ":" = false).
  { destruct Hcolon as [-> | Hl]; [reflexivity|].
    apply lacks_cons in Hl. destruct Hl as [Hne _].
    apply Ascii.eqb_neq in Hne. rewrite Hne. apply andb_false_r. }
  rewrite Hstop. rewrite IH; [reflexivity|exact Hbrace|].
  destruct Hcolon as [Hs|Hl]; [left; exact Hs|right].
  apply lacks_cons in Hl. apply Hl.
Qed.

Lemma nonempty_eqb (name : string) : name <> EmptyString -> (name =? "")%string = false.
Proof. intros Hne. apply String.eqb_neq. exact Hne. Qed.

Lemma match_env_here (name post : string) :
  name <> EmptyString -> lacks "}" name = true ->
  Engine.match_env (String "$" ("{env:" ++ name ++ String "}" post)) = Some name.
Proof.
  intros Hne Hbrace. unfold Engine.match_env.
  pose proof (prefix_app "${env:" (name ++ String "}" post)) as Hp.
  change ("${env:" ++ name ++ String "}" post)%string
    with (String "$" ("{env:" ++ name ++ String "}" post)) in Hp.
  rewrite Hp.
  change (Engine.drop 6 (String "$" ("{env:" ++ name ++ String "}" post)))
    with (name ++ String "}" post)%string.
  rewrite (until_brace_name false name post Hbrace (or_introl eq_refl)).
  rewrite (nonempty_eqb name Hne). reflexivity.
Qed.

Lemma match_ctx_here (name post : string) :
  name <> EmptyString -> lacks "}" name = true -> lacks ":" name = true ->
  Engine.match_ctx (String "$" ("{" ++ name ++ String "}" post)) = Some name.
Proof.
  intros Hne Hbrace Hcolon. unfold Engine.match_ctx.
  pose proof (prefix_app "${" (name ++ String "}" post)) as Hp.
  change ("${" ++ name ++ String "}" post)%string
    with (String "$" ("{" ++ name ++ String "}" post)) in Hp.
  rewrite Hp.
  change (Engine.drop 2 (String "$" ("{" ++ name ++ String "}" post)))
    with (name ++ String "}" post)%string.
  rewrite (until_brace_name true name post Hbrace (or_intror Hcolon)).
  rewrite (nonempty_eqb name Hne). reflexivity.
Qed.

Lemma prefix_cons a s1 b s2 :
  String.prefix (String a s1) (String b s2) = Ascii.eqb a b && String.prefix s1 s2.
Proof.
  cbn [String.prefix]. destruct (ascii_dec a b) as [->|Hne].
  - rewrite Ascii.eqb_refl. reflexivity.
  - apply Ascii.eqb_neq in Hne. rewrite Hne. reflexivity.
Qed.

Lemma prefix_env_name (name post : string) :
  lacks ":" name = true -> String.prefix "env:" (name ++ String "}" post) = false.
Proof.
  intros Hcolon.
  destruct name as [|c1 [|c2 [|c3 [|c4 name]]]]; cbn [String.append];
    rewrite ?prefix_cons.
  - reflexivity.
  - destruct (Ascii.eqb "e" c1); reflexivity.
  - destruct (Ascii.eqb "e" c1), (Ascii.eqb "n" c2); reflexivity.
  - destruct (Ascii.eqb "e" c1), (Ascii.eqb "n" c2), (Ascii.eqb "v" c3); reflexivity.
  - do 3 (apply lacks_cons in Hcolon; destruct Hcolon as [_ Hcolon]).
    apply lacks_cons in Hcolon. destruct Hcolon as [Hc4 _].
    apply Ascii.eqb_neq in Hc4. rewrite Ascii.eqb_sym in Hc4. rewrite Hc4.
    cbn [andb]. rewrite !andb_false_r. reflexivity.
Qed.

(** A reference to a variable of the context is not one to the environment. *)
Lemma match_env_not_ctx (name post : string) :
  lacks ":" name = true ->
  Engine.match_env (String "$" ("{" ++ name ++ String "}" post)) = None.
Proof.
  intros Hcolon. unfold Engine.match_env.
  change ("{" ++ name ++ String "}" post)%string
    with (String "{" (name ++ String "}" post)).
  change "${env:"%string with (String "$" (String "{" "env:")).
  rewrite !prefix_cons, (prefix_env_name name post Hcolon). reflexivity.
Qed.

Lemma env_text_shape (name post : string) :
  (Engine.env_text name ++ post)%string
  = String "$" ("{env:" ++ name ++ String "}" post).
Proof.
  unfold Engine.env_text. rewrite !append_assoc_string. reflexivity.
Qed.

Lemma ctx_text_shape (name post : string) :
  (Engine.ctx_text name ++ post)%string = String "$" ("{" ++ name ++ String "}" post).
Proof.
  unfold Engine.ctx_text. rewrite !append_assoc_string. reflexivity.
Qed.

Lemma env_text_length (name : string) :
  (String.length (Engine.env_text name) - 1)%nat
  = String.length ("{env:" ++ name ++ "}").
Proof. unfold Engine.env_text. simpl. rewrite ?Nat.sub_0_r. reflexivity. Qed.

Lemma ctx_text_length (name : string) :
  (String.length (Engine.ctx_text name) - 1)%nat = String.length ("{" ++ name ++ "}").
Proof. unfold Engine.ctx_text. simpl. rewrite ?Nat.sub_0_r. reflexivity. Qed.

(** The one reference of a text is the one match. *)
Lemma find_all_env_once (pre name post : string) :
  lacks "$" pre = true -> lacks "$" post = true ->
  name <> EmptyString -> lacks "}" name = true ->
  Engine.find_all Engine.match_env Engine.env_text 0
    (pre ++ Engine.env_text name ++ post) = [name].
Proof.
  intros Hpre Hpost Hne Hbrace.
  rewrite (find_all_pre _ _ pre _ match_env_other_head Hpre), env_text_shape.
  cbn [Engine.find_all]. rewrite (match_env_here name post Hne Hbrace).
  rewrite env_text_length. f_equal.
  replace ("{env:" ++ name ++ String "}" post)%string
    with (("{env:" ++ name ++ "}") ++ post)%string
    by (rewrite !append_assoc_string; reflexivity).
  rewrite find_all_skip. apply find_all_no_dollar; [apply match_env_other_head|exact Hpost].
Qed.

Lemma find_all_ctx_once (pre name post : string) :
  lacks "$" pre = true -> lacks "$" post = true ->
  name <> EmptyString -> lacks "}" name = true -> lacks ":" name = true ->
  Engine.find_all Engine.match_ctx Engine.ctx_text 0
    (pre ++ Engine.ctx_text name ++ post) = [name].
Proof.
  intros Hpre Hpost Hne Hbrace Hcolon.
  rewrite (find_all_pre _ _ pre _ match_ctx_other_head Hpre), ctx_text_shape.
  cbn [Engine.find_all]. rewrite (match_ctx_here name post Hne Hbrace Hcolon).
  rewrite ctx_text_length. f_equal.
  replace ("{" ++ name ++ String "}" post)%string
    with (("{" ++ name ++ "}") ++ post)%string
    by (rewrite !append_assoc_string; reflexivity).
  rewrite find_all_skip. apply find_all_no_dollar; [apply match_ctx_other_head|exact Hpost].
Qed.

Lemma find_all_env_none (pre name post : string) :
  lacks "$" pre = true -> lacks "$" post = true ->
  lacks "$" name = true -> lacks ":" name = true ->
  Engine.find_all Engine.match_env Engine.env_text 0
    (pre ++ Engine.ctx_text name ++ post) = [].
Proof.
  intros Hpre Hpost Hdollar Hcolon.
  rewrite (find_all_pre _ _ pre _ match_env_other_head Hpre), ctx_text_shape.
  cbn [Engine.find_all]. rewrite (match_env_not_ctx name post Hcolon).
  apply find_all_no_dollar; [apply match_env_other_head|].
  change (lacks "$" (String "{" (name ++ String "}" post)) = true).
  cbn [lacks]. change (negb (Ascii.eqb "{" "$")) with true. cbn [andb].
  apply lacks_app; [exact Hdollar|exact Hpost].
Qed.

End Substitution.

(** X24 (what [resolve_variables] substitutes).  A value that is not a
    string, and a string without a dollar, are returned as they are.  In a
    text with one reference and no other dollar, [${env:NAME}] is replaced by
    the variable of the environment, or by nothing when it is not set, and
    [${NAME}] by [str] of the variable of the context, or by nothing when
    there is none; the text around the reference is kept.  The value of the
    environment variable is here without a dollar: it would be searched for
    references of the second kind. *)
Theorem resolve_variables_substitutes {H : Host} (vars : pydict)
    (pre name post : string) :
  lacks "$" pre = true -> lacks "$" post = true ->
  name <> EmptyString -> lacks "}" name = true ->
  ((forall v, (forall s, v <> VStr s) -> Engine.resolve_value vars v = v)
   /\ Engine.resolve_value vars (VStr pre) = VStr pre)
  /\ (lacks "$" (environ_or_empty name) = true ->
      Engine.resolve_value vars (VStr (pre ++ Engine.env_text name ++ post))
      = VStr (pre ++ environ_or_empty name ++ post))
  /\ (lacks "$" name = true -> lacks ":" name = true ->
      Engine.resolve_value vars (VStr (pre ++ Engine.ctx_text name ++ post))
      = VStr (pre ++ variable_text vars name ++ post)).
Proof.
  intros Hpre Hpost Hne Hbrace. split; [split|split].
  - intros v Hv. destruct v as [| | |s| |]; try reflexivity.
    exfalso. exact (Hv s eq_refl).
  - unfold Engine.resolve_value.
    rewrite (find_all_no_dollar _ _ pre match_env_other_head Hpre). cbn [fold_left].
    rewrite (find_all_no_dollar _ _ pre match_ctx_other_head Hpre). reflexivity.
  - intros Hvalue. unfold Engine.resolve_value.
    rewrite (find_all_env_once pre name post Hpre Hpost Hne Hbrace). cbn [fold_left].
    fold (environ_or_empty name).
    assert (Hrep :
      Engine.replace_all (Engine.env_text name) (environ_or_empty name) 0
        (pre ++ Engine.env_text name ++ post)
      = (pre ++ environ_or_empty name ++ post)%string).
    { apply (replace_all_once ("{env:" ++ name ++ "}")); assumption. }
    rewrite Hrep.
    rewrite (find_all_no_dollar _ _ _ match_ctx_other_head); [reflexivity|].
    apply lacks_app; [exact Hpre|]. apply lacks_app; assumption.
  - intros Hdollar Hcolon. unfold Engine.resolve_value.
    rewrite (find_all_env_none pre name post Hpre Hpost Hdollar Hcolon).
    cbn [fold_left].
    rewrite (find_all_ctx_once pre name post Hpre Hpost Hne Hbrace Hcolon).
    cbn [fold_left]. fold (variable_text vars name).
    f_equal. apply (replace_all_once ("{" ++ name ++ "}")); assumption.
Qed.

Lemma resolve_variables_substitutes_witness :
  Engine.resolve_value (H := SimHost) [("team", VStr "core")]
    (VStr "Board of ${env:team}!") = VStr "Board of !"
  /\ Engine.resolve_value (H := SimHost) [("team", VStr "core")]
       (VStr "Board of ${team}!") = VStr "Board of core!".
Proof.
  destruct (resolve_variables_substitutes (H := SimHost) [("team", VStr "core")]
              "Board of " "team" "!" eq_refl eq_refl ltac:(discriminate) eq_refl)
    as (_ & Henv & Hctx).
  split; [exact (Henv eq_refl)|exact (Hctx eq_refl eq_refl)].
Defined.

(** ** The order in which the engine creates *)

Section EngineOrder.

Context {Env : Type} {E : Environment Env} {H : Host}.

(** What [request] adds to the trace: its sleeps and the same request, as
    often as it was sent. *)
Lemma engine_request_effect fuel m ep kw :
  forall (api : DSL.KaitenAPI) (w : World) r api' w',
    Engine.request fuel m ep kw api w = (r, api', w') ->
    exists new k,
      trace w' = trace w ++ new
      /\ requests_of new = repeat (Engine.mk_request api m ep kw) k.
Proof.
  induction fuel as [|fuel IH]; intros api w r api' w' Hrun.
  - exists [], 0%nat. rewrite app_nil_r. split; [|reflexivity].
    cbn [Engine.request] in Hrun. unfold bind, get_state, ret, out_of_fuel in Hrun.
    destruct (DSL.dry_run api); injection Hrun as <- <- <-; reflexivity.
  - destruct (DSL.dry_run api) eqn:Hdry.
    + exists [], 0%nat. rewrite app_nil_r. split; [|reflexivity].
      cbn [Engine.request] in Hrun. unfold bind, get_state, ret in Hrun.
      rewrite Hdry in Hrun. injection Hrun as <- <- <-. reflexivity.
    + destruct (engine_request_unfold fuel m ep kw api w Hdry)
        as (api1 & w1 & sl & o & e & Hd & Ht & _ & Htr & Hsl & _ & Hstep).
      rewrite Hstep in Hrun. clear Hstep.
      assert (Hone : requests_of (sl ++ [EvRequest (Engine.mk_request api m ep kw)])
                     = repeat (Engine.mk_request api m ep kw) 1).
      { rewrite requests_of_app, (requests_of_sleeps sl Hsl). reflexivity. }
      assert (Hstop : forall r0, (r0, api1, w1) = (r, api', w') ->
                exists new k,
                  trace w' = trace w ++ new
                  /\ requests_of new = repeat (Engine.mk_request api m ep kw) k).
      { intros r0 Heq. injection Heq as <- <- <-.
        exists (sl ++ [EvRequest (Engine.mk_request api m ep kw)]), 1%nat.
        split; [exact Htr|exact Hone]. }
      destruct o as [response|x].
      * destruct (status_code response =? 429).
        -- destruct (Engine.request fuel m ep kw api1 (slept 2 w1))
             as [[r2 api2] w2] eqn:Hrec.
           destruct (IH _ _ _ _ _ Hrec) as (new & k & Htr2 & Hreq2).
           rewrite (engine_mk_request_same api api1 m ep kw Hd Ht) in Hreq2.
           assert (Hall : trace w2
                          = trace w
                            ++ ((sl ++ [EvRequest (Engine.mk_request api m ep kw)])
                                ++ [EvSleep 2] ++ new)
                          /\ requests_of
                               ((sl ++ [EvRequest (Engine.mk_request api m ep kw)])
                                ++ [EvSleep 2] ++ new)
                             = repeat (Engine.mk_request api m ep kw) (S k)).
           { split.
             - rewrite Htr2. unfold slept. cbn [trace]. rewrite Htr.
               rewrite <- !app_assoc. reflexivity.
             - rewrite requests_of_app, Hone, requests_of_app, Hreq2. reflexivity. }
           destruct Hall as [Htr3 Hreq3].
           assert (w' = w2) as ->.
           { destruct r2 as [v|x|]; [congruence| |congruence].
             destruct (Engine.is_request_exception x); congruence. }
           eexists. exists (S k). split; [exact Htr3|exact Hreq3].
        -- destruct (is_error_status (status_code response)); [eapply Hstop, Hrun|].
           destruct (text response =? "")%string; [eapply Hstop, Hrun|].
           destruct (json response); [eapply Hstop, Hrun|].
           destruct (Engine.is_request_exception json_error); eapply Hstop, Hrun.
      * destruct (Engine.is_request_exception x); eapply Hstop, Hrun.
Qed.

Lemma posts_of_repeat new req k :
  requests_of new = repeat req k -> rq_method req = POST ->
  posts_of new = repeat (rq_endpoint req) k.
Proof.
  intros Hreq Hpost. unfold posts_of. rewrite Hreq. clear Hreq.
  induction k as [|k IH]; [reflexivity|]. simpl. rewrite Hpost. simpl.
  f_equal. exact IH.
Qed.

Lemma sorted_then_repeat (l : list nat) (i k : nat) :
  StronglySorted le l -> Forall (fun p => (p <= i)%nat) l ->
  StronglySorted le (l ++ repeat i k).
Proof.
  intros Hsorted Hall. induction l as [|p l IH]; simpl.
  - induction k as [|k IHk]; simpl; constructor; [exact IHk|].
    apply Forall_forall. intros x Hx. apply repeat_spec in Hx. lia.
  - inversion Hsorted as [|x xs Hs Hx]; subst. inversion Hall as [|y ys Hy Hys]; subst.
    constructor; [apply IH; assumption|].
    apply Forall_app. split; [exact Hx|].
    apply Forall_forall. intros x Hin. apply repeat_spec in Hin. lia.
Qed.

(** A creation of the phase [i] keeps the order up to [i]. *)
Lemma order_post i fuel ep data :
  engine_phase ep = i -> (1 <= i)%nat ->
  stable (@applied_in_order Env i) (Engine.on_api (Engine.post fuel ep data)).
Proof.
  intros Hphase Hi st w (Hsorted & Hall & Hposts). unfold Engine.on_api, Engine.post.
  destruct (Engine.request fuel POST ep (KwJson data) (Engine.api st) w)
    as [[r a] w'] eqn:Hrun.
  destruct (engine_request_effect _ _ _ _ _ _ _ _ _ Hrun) as (new & k & Htr & Hreq).
  assert (Hnew : posts_of new = repeat ep k).
  { apply (posts_of_repeat new _ k Hreq). reflexivity. }
  assert (Hkeep : applied_in_order i
                    {| Engine.api := a; Engine.context := Engine.context st |} w').
  { unfold applied_in_order. rewrite Htr, posts_of_app, requests_of_app, Hnew, Hreq.
    split; [|split].
    - rewrite map_app, map_repeat, Hphase. apply sorted_then_repeat; [exact Hsorted|].
      rewrite Forall_map. eapply Forall_impl; [|exact Hall]. simpl. intros x Hx. lia.
    - apply Forall_app. split; [exact Hall|].
      apply Forall_forall. intros x Hx. apply repeat_spec in Hx. subst x. lia.
    - apply Forall_app. split; [exact Hposts|].
      apply Forall_forall. intros x Hx. apply repeat_spec in Hx. subst x. reflexivity. }
  destruct r; exact Hkeep.
Qed.

Lemma order_put_state i (st : Engine.KaitenDSLEngine) :
  stable (@applied_in_order Env i) (put_state st).
Proof. intros s w Hs. exact Hs. Qed.

Lemma order_resolve_variables i v :
  stable (@applied_in_order Env i) (Engine.resolve_variables v).
Proof. unfold Engine.resolve_variables. stable_split idtac. Qed.

Lemma order_created_get i kind key :
  stable (@applied_in_order Env i) (Engine.created_get kind key).
Proof. unfold Engine.created_get. stable_split idtac. Qed.

Lemma order_created_set i kind key v :
  stable (@applied_in_order Env i) (Engine.created_set kind key v).
Proof. unfold Engine.created_set. stable_split ltac:(apply order_put_state). Qed.

Lemma order_optional_field i record key :
  stable (@applied_in_order Env i) (Engine.optional_field record key).
Proof. unfold Engine.optional_field. stable_split idtac. Qed.

Lemma order_remember i kind key result :
  stable (@applied_in_order Env i) (Engine.remember kind key result).
Proof. unfold Engine.remember. stable_split ltac:(apply order_created_set). Qed.

Lemma order_card_properties i items :
  stable (@applied_in_order Env i) (Engine.card_properties items).
Proof.
  induction items as [|[key v] items IH]; cbn [Engine.card_properties].
  - apply stable_ret.
  - stable_split ltac:(first [apply order_created_get | apply order_resolve_variables
                             | exact IH]).
Qed.

End EngineOrder.

(** Closes the goals on the steps of the engine that send nothing, and on
    the creations of the phase at hand. *)
Ltac order_step :=
  first [ apply order_resolve_variables | apply order_created_get
        | apply order_created_set | apply order_optional_field
        | apply order_remember | apply order_card_properties
        | apply order_post; [reflexivity|lia] ].

Section EngineSteps.

Context {Env : Type} {E : Environment Env} {H : Host}.

Lemma order_apply_custom_properties fuel v :
  stable (@applied_in_order Env 1) (Engine.apply_custom_properties fuel v).
Proof.
  unfold Engine.apply_custom_properties, Engine.apply_custom_property.
  stable_split order_step.
Qed.

Lemma order_apply_tags fuel v :
  stable (@applied_in_order Env 2) (Engine.apply_tags fuel v).
Proof. unfold Engine.apply_tags, Engine.apply_tag. stable_split order_step. Qed.

Lemma order_apply_card_types fuel v :
  stable (@applied_in_order Env 3) (Engine.apply_card_types fuel v).
Proof.
  unfold Engine.apply_card_types, Engine.apply_card_type. stable_split order_step.
Qed.

Lemma order_apply_columns fuel columns board_id board_key :
  stable (@applied_in_order Env 4) (Engine.apply_columns fuel columns board_id board_key).
Proof.
  unfold Engine.apply_columns, Engine.apply_column. stable_split order_step.
Qed.

Lemma order_apply_lanes fuel lanes board_id board_key :
  stable (@applied_in_order Env 4) (Engine.apply_lanes fuel lanes board_id board_key).
Proof. unfold Engine.apply_lanes, Engine.apply_lane. stable_split order_step. Qed.

Lemma order_apply_boards fuel boards space_id space_name :
  stable (@applied_in_order Env 4) (Engine.apply_boards fuel boards space_id space_name).
Proof.
  unfold Engine.apply_boards, Engine.apply_board.
  stable_split ltac:(first [order_step | apply order_apply_columns
                           | apply order_apply_lanes]).
Qed.

Lemma order_apply_spaces fuel v :
  stable (@applied_in_order Env 4) (Engine.apply_spaces fuel v).
Proof.
  unfold Engine.apply_spaces, Engine.apply_space.
  stable_split ltac:(first [order_step | apply order_apply_boards]).
Qed.

Lemma order_apply_automations fuel v :
  stable (@applied_in_order Env 5) (Engine.apply_automations fuel v).
Proof.
  unfold Engine.apply_automations, Engine.apply_automation. stable_split order_step.
Qed.

Lemma order_apply_cards fuel v :
  stable (@applied_in_order Env 6) (Engine.apply_cards fuel v).
Proof. unfold Engine.apply_cards, Engine.apply_card. stable_split order_step. Qed.

Lemma applied_in_order_weaken i j (st st' : Engine.KaitenDSLEngine) (w : @World Env) :
  (i <= j)%nat -> applied_in_order i st w -> applied_in_order j st' w.
Proof.
  intros Hij (Hsorted & Hall & Hposts). split; [exact Hsorted|split; [|exact Hposts]].
  eapply Forall_impl; [|exact Hall]. simpl. intros x Hx. lia.
Qed.

(** One step of [execute], of the phase [j], after the phases up to [i]. *)
Lemma order_run_step i j name (f : value -> @M Env Engine.KaitenDSLEngine unit) config :
  (i <= j <= 6)%nat -> (forall v, stable (@applied_in_order Env j) (f v)) ->
  hoare (@applied_in_order Env i) (Engine.run_step name f config)
    (fun _ => @applied_in_order Env j) (@applied_in_order Env 6).
Proof.
  intros Hij Hf.
  assert (Hstep : stable (@applied_in_order Env j) (Engine.run_step name f config)).
  { unfold Engine.run_step. stable_split ltac:(apply Hf). }
  eapply hoare_conseq; [exact Hstep| | |].
  - intros s w Hs. apply (applied_in_order_weaken i j s s w); [lia|exact Hs].
  - intros a s w Hs. exact Hs.
  - intros s w Hs. apply (applied_in_order_weaken j 6 s s w); [lia|exact Hs].
Qed.

Lemma order_steps fuel config :
  hoare (@applied_in_order Env 0) (Engine.steps fuel config)
    (fun _ => @applied_in_order Env 6) (@applied_in_order Env 6).
Proof.
  unfold Engine.steps.
  eapply hoare_bind;
    [apply (order_run_step 0 1); [lia|apply order_apply_custom_properties]|intros ?].
  eapply hoare_bind;
    [apply (order_run_step 1 2); [lia|apply order_apply_tags]|intros ?].
  eapply hoare_bind;
    [apply (order_run_step 2 3); [lia|apply order_apply_card_types]|intros ?].
  eapply hoare_bind;
    [apply (order_run_step 3 4); [lia|apply order_apply_spaces]|intros ?].
  eapply hoare_bind;
    [apply (order_run_step 4 5); [lia|apply order_apply_automations]|intros ?].
  apply (order_run_step 5 6); [lia|apply order_apply_cards].
Qed.

Lemma order_execute fuel config :
  hoare (@applied_in_order Env 0) (Engine.execute fuel config)
    (fun _ => @applied_in_order Env 6) (@applied_in_order Env 6).
Proof.
  unfold Engine.execute.
  apply hoare_try_except with (X' := @applied_in_order Env 6);
    [| |intros s w Hs; exact Hs].
  - eapply hoare_bind.
    + apply hoare_lift_res with (Q := fun _ => @applied_in_order Env 0).
      * intros a s w _ Hs. exact Hs.
      * intros s w Hs. apply (applied_in_order_weaken 0 6 s s w); [lia|exact Hs].
    + intros valid. destruct (negb valid).
      * apply hoare_ret. intros s w Hs.
        apply (applied_in_order_weaken 0 6 s s w); [lia|exact Hs].
      * eapply hoare_bind; [apply order_steps|].
        intros ?. apply hoare_ret. intros s w Hs. exact Hs.
  - intros e. apply hoare_ret. intros s w Hs. exact Hs.
Qed.

End EngineSteps.

(** X25 (the engine creates in the order of its steps).  Whatever the
    configuration, the order of its keys and the answers of the server, and
    however [execute] ends, every request it has sent is a POST to one of
    the nine endpoints of the engine, and the requests come in the order
    custom properties, tags, card types, spaces with their boards, columns
    and lanes, automations, cards: nothing is read, changed or deleted, and
    no card is sent before the last board. *)
Theorem execute_creates_in_step_order {Env : Type} {E : Environment Env} {H : Host}
    (fuel : nat) (config : value) (st : Engine.KaitenDSLEngine) (w : World) :
  trace w = [] ->
  let sent := requests_of (trace (final_world (Engine.execute fuel config st w))) in
  StronglySorted le (map (fun r => engine_phase (rq_endpoint r)) sent)
  /\ Forall (fun r => rq_method r = POST
                      /\ (1 <= engine_phase (rq_endpoint r) <= 6)%nat) sent.
Proof.
  intros Hfresh sent.
  assert (Hstart : applied_in_order 0 st w).
  { unfold applied_in_order. rewrite Hfresh. repeat split; constructor. }
  pose proof (order_execute fuel config st w Hstart) as Hend.
  assert (Hfinal : applied_in_order 6
                     (final_state (Engine.execute fuel config st w))
                     (final_world (Engine.execute fuel config st w))).
  { unfold final_state, final_world.
    destruct (Engine.execute fuel config st w) as [[[b|e|] st'] w']; exact Hend. }
  destruct Hfinal as (Hsorted & Hall & Hposts). fold sent in Hposts.
  unfold posts_of in Hsorted, Hall. fold sent in Hsorted, Hall.
  assert (Hsame : flat_map (fun r => match rq_method r with
                                     | POST => [rq_endpoint r]
                                     | _ => []
                                     end) sent
                  = map rq_endpoint sent).
  { clear Hsorted Hall. induction Hposts as [|r l Hr _ IH]; [reflexivity|].
    simpl. rewrite Hr, IH. reflexivity. }
  rewrite Hsame in Hsorted, Hall. rewrite map_map in Hsorted. split; [exact Hsorted|].
  rewrite Forall_map in Hall. apply Forall_forall. intros r Hr.
  split; [exact (proj1 (Forall_forall _ _) Hposts r Hr)
         |exact (proj1 (Forall_forall _ _) Hall r Hr)].
Qed.

Lemma execute_creates_in_step_order_witness :
  let sent :=
    requests_of
      (trace
         (final_world
            (Engine.execute (E := SimEnvironment (account [] [])) (H := SimHost) 1
               sample_config (fresh_engine false) sim_world))) in
  StronglySorted le (map (fun r => engine_phase (rq_endpoint r)) sent)
  /\ Forall (fun r => rq_method r = POST
                      /\ (1 <= engine_phase (rq_endpoint r) <= 6)%nat) sent.
Proof.
  apply (execute_creates_in_step_order (E := SimEnvironment (account [] []))
           (H := SimHost) 1 sample_config (fresh_engine false) sim_world).
  reflexivity.
Defined.
